(** * file_sorter: a shallow embedding of [file_sorter.py]

    The program walks a source directory, derives a key from every file's
    extension and copies the file into [output_folder/<key>/], picking an
    unused name when the desired one is taken.  Copies run as asyncio tasks
    behind a semaphore.

    Modelling conventions.
    - Text is [string]: a sequence of characters with code points below
      U+0100 (Latin-1), the characters a Rocq [ascii] holds.  On these
      [str.lower()] is the character-by-character map of [Str.lower_char];
      names with other characters are outside the model.
    - A [Path] is the list of its components, INNERMOST FIRST:
      [src/docs/b.TXT] is [["b.TXT"; "docs"; "src"]].  So [p / s] is
      [s :: p], [p.name] is the head and [p.parent] the tail.  The empty
      list is the directory the relative paths start from; it always is a
      directory.  Components hold no separator.
    - [pathlib]'s [suffix] and [stem] follow the classic definition
      ([name.rfind('.')], with [0 < i < len(name) - 1]).
    - The file system is a finite map from paths to nodes; the log sink is
      a list of records.  The records also go to [file_sorter.log] in the
      working directory (lines 18-25): [files] is the file system without
      that file, which the program of the model never opens, and [on_disk]
      is the file system with it.
    - Environment faults (permissions, I/O errors) come from an oracle
      [fault] over the primitive operations.  For the walk of [rglob] the
      oracle says where it fails and whether [pathlib] swallows the failure
      and goes on.
    - [copy_file] is one call from its start to its end, and [gather] runs
      the calls one after the other in the order of the list: that is what
      the event loop does with a limit of 1.  With a higher limit the
      calls interleave at their [await]s; [Sched] has the permits under
      every interleaving, and [raced_copies] has two calls cut at line 104.
    - Python's [while] loops take fuel; the theorems give the fuel that is
      enough. *)

From stdpp Require Import gmap strings list fin_maps pretty sorting.
From Stdlib Require Import ZArith Lia Strings.Ascii.

Open Scope string_scope.
Open Scope Z_scope.

(** ** Strings as Python uses them *)

Module Str.

(** [s.rfind(c)]: index of the last occurrence of [c], [-1] when absent. *)
Fixpoint rfind (c : ascii) (s : string) : Z :=
  match s with
  | EmptyString => -1
  | String a s' =>
      let i := rfind c s' in
      if 0 <=? i then i + 1
      else if Ascii.eqb a c then 0 else -1
  end.

(** [s[n:]] *)
Fixpoint drop (n : nat) (s : string) : string :=
  match n, s with
  | O, _ => s
  | S _, EmptyString => EmptyString
  | S n', String _ s' => drop n' s'
  end.

(** [s[:n]] *)
Fixpoint take (n : nat) (s : string) : string :=
  match n, s with
  | O, _ => EmptyString
  | S _, EmptyString => EmptyString
  | S n', String a s' => String a (take n' s')
  end.

Definition len (s : string) : Z := Z.of_nat (String.length s).

(** One character of [str.lower()].  Below U+0100 the cased letters are
    [A]..[Z] and [U+00C0]..[U+00DE] without the sign [U+00D7]; each has its
    lower-case letter 32 places on, and no character there lower-cases to
    more than one character or depends on its neighbours. *)
Definition lower_char (a : ascii) : ascii :=
  let n := nat_of_ascii a in
  if ((65 <=? n)%nat && (n <=? 90)%nat)
     || ((192 <=? n)%nat && (n <=? 222)%nat && negb (n =? 215)%nat)
  then ascii_of_nat (n + 32) else a.

(** [s.lower()] *)
Fixpoint lower (s : string) : string :=
  match s with
  | EmptyString => EmptyString
  | String a s' => String (lower_char a) (lower s')
  end.

(** [s.lstrip(c)] for a one-character argument. *)
Fixpoint lstrip (c : ascii) (s : string) : string :=
  match s with
  | EmptyString => EmptyString
  | String a s' => if Ascii.eqb a c then lstrip c s' else s
  end.

(** Truth value of a string: [not s] holds for the empty one only. *)
Definition is_empty (s : string) : bool :=
  match s with EmptyString => true | _ => false end.

(** [c in s] *)
Fixpoint mem (c : ascii) (s : string) : bool :=
  match s with
  | EmptyString => false
  | String a s' => Ascii.eqb a c || mem c s'
  end.

End Str.

(** ** Paths ([pathlib.PurePath]) *)

Abbreviation Path := (list string).

Definition dot : ascii := "."%char.

Module PurePath.

(** [p / s] *)
Definition joinpath (p : Path) (s : string) : Path := s :: p.

(** [p.name] *)
Definition name (p : Path) : string :=
  match p with
  | [] => ""
  | s :: _ => s
  end.

(** [p.parent] *)
Definition parent (p : Path) : Path := tail p.

Definition has_suffix (nm : string) : bool :=
  let i := Str.rfind dot nm in
  (0 <? i) && (i <? Str.len nm - 1).

(** [p.suffix] *)
Definition suffix (p : Path) : string :=
  let nm := name p in
  if has_suffix nm then Str.drop (Z.to_nat (Str.rfind dot nm)) nm else "".

(** [p.stem] *)
Definition stem (p : Path) : string :=
  let nm := name p in
  if has_suffix nm then Str.take (Z.to_nat (Str.rfind dot nm)) nm else nm.

End PurePath.

Notation "p // s" := (PurePath.joinpath p s) (at level 40, left associativity).

(** ** The extension key

    [copy_file], lines 79-83, and again [process_files], line 157:
    [source_file.suffix.lower().lstrip('.')], replaced by ['no_extension']
    when empty. *)

Definition classify (source_file : Path) : string :=
  let file_extension := Str.lstrip dot (Str.lower (PurePath.suffix source_file)) in
  if Str.is_empty file_extension then "no_extension" else file_extension.

(** [Path(key)] for a key, which holds no separator. *)
Definition Path_of_key (key : string) : Path := [key].

(** ** The world: file system, log sink, faults *)

Inductive node : Type :=
| File (content : list Byte.byte)
| Dir.

Inductive level : Type := DEBUG | INFO | WARNING | ERROR.

Definition level_rank (l : level) : nat :=
  match l with DEBUG => 10 | INFO => 20 | WARNING => 30 | ERROR => 40 end.

(** The exceptions the model tells apart; all are subclasses of
    [Exception], and [FileExistsError] is one of [OSError]. *)
Inductive exn : Type := FileExistsError | OSError | ValueError.

Definition is_OSError (e : exn) : bool :=
  match e with FileExistsError | OSError => true | ValueError => false end.

(** The log lines of the program, by the place that writes them. *)
Inductive message : Type :=
| MsgSourceMissing (p : Path)              (* read_folder, line 45 *)
| MsgNotAFolder (p : Path)                 (* read_folder, line 49 *)
| MsgFound (item : Path)                   (* read_folder, line 56 *)
| MsgFoundCount (n : nat) (p : Path)       (* read_folder, line 58 *)
| MsgReadError (p : Path) (e : exn)        (* read_folder, line 61 *)
| MsgCopied (source_file target_file : Path)  (* copy_file, line 109 *)
| MsgCopyError (source_file : Path) (e : exn) (* copy_file, line 113 *)
| MsgNoFiles                               (* process_files, line 134 *)
| MsgDone (successful failed : Z)          (* process_files, line 152 *)
| MsgFolders (n : nat)                     (* process_files, line 160 *)
| MsgExtensions (exts : list string)       (* process_files, line 161 *)
| MsgCritical (e : exn)                    (* process_files, line 164 *)
| MsgStart                                 (* main, line 222 *)
| MsgSourceIs (p : Path)                   (* main, line 223 *)
| MsgTargetIs (p : Path)                   (* main, line 224 *)
| MsgLimit (n : Z)                         (* main, line 225 *)
| MsgMainSourceMissing (p : Path)          (* main, line 229 *)
| MsgMainNotAFolder (p : Path)             (* main, line 233 *)
| MsgFinished.                             (* main, line 243 *)

Record World : Type := mkWorld {
  files : gmap Path node;
  log_level : level;
  log : list (level * message)
}.

Definition set_files (f : gmap Path node → gmap Path node) (w : World) : World :=
  mkWorld (f (files w)) (log_level w) (log w).

(** The primitive operations the environment can fail. *)
Inductive io_op : Type :=
| OpMkdir (p : Path)
| OpOpenRead (p : Path)
| OpOpenWrite (p : Path)
| OpRead (p : Path) (pos : nat)
| OpWrite (p : Path) (pos : nat)
| OpScan (item : Path)
| OpSkip (item : Path).

(** What a call does: return, raise, wait for ever on the semaphore, or
    use up the fuel of the model. *)
Inductive outcome (A : Type) : Type :=
| Ok (a : A)
| Raise (e : exn)
| Blocked
| OutOfFuel.
Arguments Ok {A} a.
Arguments Raise {A} e.
Arguments Blocked {A}.
Arguments OutOfFuel {A}.

Definition M (A : Type) : Type := World → outcome A * World.

Definition ret {A} (a : A) : M A := λ w, (Ok a, w).

Definition bind {A B} (m : M A) (k : A → M B) : M B := λ w,
  match m w with
  | (Ok a, w') => k a w'
  | (Raise e, w') => (Raise e, w')
  | (Blocked, w') => (Blocked, w')
  | (OutOfFuel, w') => (OutOfFuel, w')
  end.

Definition raise {A} (e : exn) : M A := λ w, (Raise e, w).

Definition out_of_fuel {A} : M A := λ w, (OutOfFuel, w).

Definition blocked {A} : M A := λ w, (Blocked, w).

(** [try: m  except Exception as e: h e] *)
Definition try_except {A} (m : M A) (h : exn → M A) : M A := λ w,
  match m w with
  | (Raise e, w') => h e w'
  | r => r
  end.

Definition get_world : M World := λ w, (Ok w, w).

Notation "'let*' x ':=' m 'in' k" := (bind m (λ x, k))
  (at level 10, x name, m at level 100, k at level 200, only parsing).
Notation "m ';;;' k" := (bind m (λ _, k))
  (at level 100, k at level 200, only parsing).

(** [logger.<lvl>(msg)]: a record below the logger's level is dropped. *)
Definition log_msg (lvl : level) (msg : message) : M unit := λ w,
  if (level_rank (log_level w) <=? level_rank lvl)%nat
  then (Ok tt, mkWorld (files w) (log_level w) (log w ++ [(lvl, msg)]))
  else (Ok tt, w).


(** *** [os.path] *)

Definition lookup_node (w : World) (p : Path) : option node :=
  match p with
  | [] => Some Dir
  | _ => files w !! p
  end.

Definition exists_ (w : World) (p : Path) : bool :=
  match lookup_node w p with Some _ => true | None => false end.

Definition isdir (w : World) (p : Path) : bool :=
  match lookup_node w p with Some Dir => true | _ => false end.

Definition isfile (w : World) (p : Path) : bool :=
  match lookup_node w p with Some (File _) => true | _ => false end.

(** ** The program *)

Section Program.

(** [fault op] holds when the environment fails the operation [op]. *)
Variable fault : io_op → bool.

(** *** File-system primitives ([aiofiles.os], [aiofiles.open]) *)

(** [os.mkdir(p)] *)
Definition mkdir (p : Path) : M unit := λ w,
  if fault (OpMkdir p) then (Raise OSError, w)
  else if negb (isdir w (PurePath.parent p)) then (Raise OSError, w)
  else if exists_ w p then (Raise FileExistsError, w)
  else (Ok tt, set_files (insert p Dir) w).

(** [os.makedirs(name, exist_ok=True)]: the missing ancestors first, then
    the directory itself; an [OSError] of the last [mkdir] is dropped when
    the directory is there. *)
Fixpoint makedirs (name : Path) : M unit :=
  (match name with
   | _ :: ((_ :: _) as head) =>
       let* w := get_world in
       if exists_ w head then ret tt
       else try_except (makedirs head)
              (λ e, match e with FileExistsError => ret tt | _ => raise e end)
   | _ => ret tt
   end) ;;;
  try_except (mkdir name)
    (λ e, if is_OSError e
          then let* w := get_world in
               if isdir w name then ret tt else raise e
          else raise e).

(** [open(p, 'rb')] *)
Definition open_rb (p : Path) : M unit := λ w,
  if fault (OpOpenRead p) then (Raise OSError, w)
  else if isfile w p then (Ok tt, w)
  else (Raise OSError, w).

(** [open(p, 'wb')]: creates the file, or truncates the one that is there. *)
Definition open_wb (p : Path) : M unit := λ w,
  if fault (OpOpenWrite p) then (Raise OSError, w)
  else if negb (isdir w (PurePath.parent p)) then (Raise OSError, w)
  else if isdir w p then (Raise OSError, w)
  else (Ok tt, set_files (insert p (File [])) w).

(** [src.read(n)] with the handle at offset [pos]. *)
Definition read (src : Path) (pos n : nat) : M (list Byte.byte) := λ w,
  if fault (OpRead src pos) then (Raise OSError, w)
  else match lookup_node w src with
       | Some (File content) => (Ok (take n (drop pos content)), w)
       | _ => (Raise OSError, w)
       end.

(** [dst.write(chunk)]: the handle is at the end of what it wrote. *)
Definition write (dst : Path) (chunk : list Byte.byte) : M unit := λ w,
  match lookup_node w dst with
  | Some (File content) =>
      if fault (OpWrite dst (length content)) then (Raise OSError, w)
      else (Ok tt, set_files (insert dst (File (content ++ chunk))) w)
  | _ => (Raise OSError, w)
  end.

(** *** [copy_file] *)

Definition CHUNK : nat := Z.to_nat 8192.

(** Lines 95-101: the [while] that looks for an unused name, as a function
    of the existence test. *)
Fixpoint resolve_target (exists_p : Path → bool) (fuel : nat)
    (target_subfolder original_target : Path) (counter : nat)
    (target_file : Path) : option Path :=
  match fuel with
  | O => None
  | S fuel' =>
      if exists_p target_file then
        let stem := PurePath.stem original_target in
        let suffix := PurePath.suffix original_target in
        resolve_target exists_p fuel' target_subfolder original_target
          (counter + 1)
          (target_subfolder // (stem +:+ "_" +:+ pretty counter +:+ suffix))
      else Some target_file
  end.

(** Lines 106-107: [while chunk := await src.read(8192): await dst.write(chunk)] *)
Fixpoint copy_loop (fuel : nat) (src dst : Path) (pos : nat) : M unit :=
  match fuel with
  | O => out_of_fuel
  | S fuel' =>
      let* chunk := read src pos CHUNK in
      match chunk with
      | [] => ret tt
      | _ => write dst chunk ;;; copy_loop fuel' src dst (pos + length chunk)
      end
  end.

(** Lines 78-110: the body of the [try]. *)
Definition copy_file_try (fuel : nat) (source_file output_folder : Path) : M bool :=
  let file_extension := classify source_file in
  let target_subfolder := output_folder // file_extension in
  makedirs target_subfolder ;;;
  let target_file := target_subfolder // PurePath.name source_file in
  let original_target := target_file in
  let* w := get_world in
  match resolve_target (exists_ w) fuel target_subfolder original_target 1
          target_file with
  | None => out_of_fuel
  | Some target_file =>
      open_rb source_file ;;;
      open_wb target_file ;;;
      copy_loop fuel source_file target_file 0 ;;;
      log_msg INFO (MsgCopied source_file target_file) ;;;
      ret true
  end.

(** Lines 112-114: every exception becomes [False]. *)
Definition copy_file (fuel : nat) (source_file output_folder : Path) : M bool :=
  try_except (copy_file_try fuel source_file output_folder)
    (λ e, log_msg ERROR (MsgCopyError source_file e) ;;; ret false).

(** *** [read_folder] *)

(** [source_path.rglob('*')]: every path below [source_path], in the order
    the file system lists them. *)
Definition rglob (w : World) (source_path : Path) : list Path :=
  filter (λ p, source_path `suffix_of` p ∧ p ≠ source_path)
         (map fst (map_to_list (files w))).

(** Lines 53-56.  [OpScan item] says that the walk fails when it comes to
    [item], and [OpSkip item] that [rglob] swallows that failure and goes
    on without the item: [pathlib] does so for a [PermissionError], so that
    what lies in a directory it may not read is left out of the walk.  Any
    other exception of the walk leaves the loop, for line 60, with the
    files found so far. *)
Fixpoint read_folder_loop (items files_found : list Path)
    : M (list Path * option exn) :=
  match items with
  | [] => ret (files_found, None)
  | item :: items' =>
      if fault (OpScan item) then
        if fault (OpSkip item) then read_folder_loop items' files_found
        else ret (files_found, Some OSError)
      else
        let* w := get_world in
        if isfile w item
        then log_msg DEBUG (MsgFound item) ;;;
             read_folder_loop items' (files_found ++ [item])
        else read_folder_loop items' files_found
  end.

Definition read_folder (source_path : Path) : M (list Path) :=
  let* w := get_world in
  if negb (exists_ w source_path)
  then log_msg ERROR (MsgSourceMissing source_path) ;;; ret []
  else if negb (isdir w source_path)
  then log_msg ERROR (MsgNotAFolder source_path) ;;; ret []
  else
    let* r := read_folder_loop (rglob w source_path) [] in
    match r with
    | (files_found, None) =>
        log_msg INFO (MsgFoundCount (length files_found) source_path) ;;;
        ret files_found
    | (files_found, Some e) =>
        log_msg ERROR (MsgReadError source_path e) ;;;
        ret files_found
    end.

(** *** [process_files] *)

(** An entry of [asyncio.gather(..., return_exceptions=True)]. *)
Inductive task_result : Type :=
| Returned (b : bool)
| Raised (e : exn).

(** [asyncio.Semaphore(value)] *)
Definition Semaphore (value : Z) : M Z :=
  if value <? 0 then raise ValueError else ret value.

(** Lines 140-142.  [async with semaphore] takes a permit, waits for ever
    when there is none, and gives the permit back however the body ends. *)
Definition copy_with_semaphore (fuel : nat) (output_folder : Path)
    (semaphore : Z) (file_path : Path) : M bool :=
  if semaphore <=? 0 then blocked
  else copy_file fuel file_path output_folder.

(** Line 146, for the schedule that runs the tasks one after the other in
    the order of the list: each task finds the semaphore as it was made. *)
Fixpoint gather (fuel : nat) (output_folder : Path) (semaphore : Z)
    (tasks : list Path) : M (list task_result) :=
  match tasks with
  | [] => ret []
  | file_path :: tasks' => λ w,
      match copy_with_semaphore fuel output_folder semaphore file_path w with
      | (Ok b, w') =>
          (let* rs := gather fuel output_folder semaphore tasks' in
           ret (Returned b :: rs)) w'
      | (Raise e, w') =>
          (let* rs := gather fuel output_folder semaphore tasks' in
           ret (Raised e :: rs)) w'
      | (Blocked, w') => (Blocked, w')
      | (OutOfFuel, w') => (OutOfFuel, w')
      end
  end.

(** [result is True] *)
Definition is_True (r : task_result) : bool :=
  match r with Returned true => true | _ => false end.

(** Lines 149-150. *)
Definition successful_of (results : list task_result) : Z :=
  Z.of_nat (length (filter (λ r, is_True r = true) results)).

Definition failed_of (results : list task_result) : Z :=
  Z.of_nat (length results) - successful_of results.

(** Lines 155-158. *)
Definition extensions_of (files_found : list Path) : gset string :=
  list_to_set (map classify files_found).

Definition process_files (fuel : nat) (source_folder output_folder : Path)
    (max_concurrent : Z) : M unit :=
  try_except
    (makedirs output_folder ;;;
     let* files_found := read_folder source_folder in
     match files_found with
     | [] => log_msg WARNING MsgNoFiles
     | _ =>
         let* semaphore := Semaphore max_concurrent in
         let* results := gather fuel output_folder semaphore files_found in
         let successful := successful_of results in
         let failed := failed_of results in
         log_msg INFO (MsgDone successful failed) ;;;
         let extensions := extensions_of files_found in
         log_msg INFO (MsgFolders (size extensions)) ;;;
         log_msg INFO (MsgExtensions (merge_sort String.le (elements extensions)))
     end)
    (λ e, log_msg ERROR (MsgCritical e)).

(** *** [main] *)



End Program.

(** ** The scheduler under every interleaving

    [process_files], lines 138-146: one task per file, each running
    [async with semaphore: return await copy_file(...)].  A task waits for
    a permit, holds it while [copy_file] runs (first without, then with the
    source file open), and gives it back when [copy_file] ends, with a
    result or with an exception.  [asyncio.Semaphore] hands out a permit
    only while its value is positive.  A schedule is the list of the events
    in the order the event loop runs them; what [copy_file] does to the
    file system plays no part here. *)

Module Sched.

Inductive phase : Type :=
| Waiting                       (* before [semaphore.acquire()] returns *)
| Acquired                      (* in [copy_file], source not open yet *)
| Streaming                     (* in [copy_file], inside [async with ... as src] *)
| Finished (r : task_result).   (* permit released, entry of [results] *)

Record state : Type := mkState {
  value : Z;                    (* [semaphore._value] *)
  tasks : list phase
}.

Inductive event : Type :=
| EvAcquire (i : nat)           (* task [i] enters [async with semaphore] *)
| EvOpen (i : nat)              (* task [i] opens its source file *)
| EvEarly (i : nat) (r : task_result)  (* [copy_file] ends before the open *)
| EvClose (i : nat) (r : task_result). (* [copy_file] ends after the open *)

(** [gather] starts from one waiting task per file. *)
Definition init (max_concurrent : Z) (files_found : list Path) : state :=
  mkState max_concurrent (map (λ _, Waiting) files_found).

Definition phase_eqb (p q : phase) : bool :=
  match p, q with
  | Waiting, Waiting | Acquired, Acquired | Streaming, Streaming => true
  | _, _ => false
  end.

Definition step (s : state) (ev : event) : option state :=
  match ev with
  | EvAcquire i =>
      match tasks s !! i with
      | Some Waiting =>
          if 0 <? value s
          then Some (mkState (value s - 1) (<[i := Acquired]> (tasks s)))
          else None
      | _ => None
      end
  | EvOpen i =>
      match tasks s !! i with
      | Some Acquired => Some (mkState (value s) (<[i := Streaming]> (tasks s)))
      | _ => None
      end
  | EvEarly i r =>
      match tasks s !! i with
      | Some Acquired =>
          Some (mkState (value s + 1) (<[i := Finished r]> (tasks s)))
      | _ => None
      end
  | EvClose i r =>
      match tasks s !! i with
      | Some Streaming =>
          Some (mkState (value s + 1) (<[i := Finished r]> (tasks s)))
      | _ => None
      end
  end.

(** The state after a schedule; [None] when an event is not enabled. *)
Fixpoint run (s : state) (schedule : list event) : option state :=
  match schedule with
  | [] => Some s
  | ev :: schedule' =>
      match step s ev with
      | Some s' => run s' schedule'
      | None => None
      end
  end.

Definition holds_permit (p : phase) : bool :=
  match p with Acquired | Streaming => true | _ => false end.

Definition holds_source (p : phase) : bool :=
  match p with Streaming => true | _ => false end.

Definition count (f : phase → bool) (l : list phase) : Z :=
  Z.of_nat (length (filter (λ p, f p = true) l)).

(** Copy operations in flight, and those with the source file open. *)
Definition in_flight (s : state) : Z := count holds_permit (tasks s).
Definition open_sources (s : state) : Z := count holds_source (tasks s).

Definition is_finished (p : phase) : bool :=
  match p with Finished _ => true | _ => false end.

(** The permits that are out and the permits that are left add up to the
    value the semaphore was made with, and none is owed. *)
Definition balanced (N : Z) (s : state) : Prop :=
  value s + in_flight s = N ∧ 0 ≤ value s.

(** The events a task still has before it: acquire, open, end. *)
Definition weight (p : phase) : nat :=
  match p with
  | Waiting => 3
  | Acquired => 2
  | Streaming => 1
  | Finished _ => 0
  end.

Definition remaining (s : state) : nat := sum_list (weight <$> tasks s).

(** The entries of [results] that are there. *)
Definition results (s : state) : list task_result :=
  omap (λ p, match p with Finished r => Some r | _ => None end) (tasks s).

End Sched.

(** ** The names the spec lists for the namer

    The candidate sequence in the words of the spec: the desired name, then
    [{stem}_{counter}{ext}] for [counter = 1, 2, 3, ...]. *)

Definition candidate (target_dir : Path) (desired_name : string) (k : nat) : Path :=
  match k with
  | O => target_dir // desired_name
  | S _ =>
      target_dir //
        (PurePath.stem (target_dir // desired_name) +:+ "_" +:+ pretty k
         +:+ PurePath.suffix (target_dir // desired_name))
  end.

(** The [j]-th path the loop of [resolve_target] examines when it starts at
    [target_file] with the counter at [counter]. *)
Definition examined (target_subfolder original_target : Path) (counter : nat)
    (target_file : Path) (j : nat) : Path :=
  match j with
  | O => target_file
  | S j' =>
      target_subfolder //
        (PurePath.stem original_target +:+ "_" +:+ pretty (counter + j')%nat
         +:+ PurePath.suffix original_target)
  end.

(** ** Sample worlds *)

(** An environment that fails nothing. *)
Definition no_fault : io_op → bool := λ _, false.

Definition bytes_abc : list Byte.byte := [Byte.x61; Byte.x62; Byte.x63].

(** [src/] holds [a.txt], [b.TXT], [c] and [.bashrc]; [out/txt/a.txt] is
    already there. *)
Definition sample_files : gmap Path node :=
  <[ ["a.txt"; "txt"; "out"] := File [Byte.x7a] ]>
  (<[ ["txt"; "out"] := Dir ]>
  (<[ ["out"] := Dir ]>
  (<[ [".bashrc"; "src"] := File [Byte.x23] ]>
  (<[ ["c"; "src"] := File [] ]>
  (<[ ["b.TXT"; "src"] := File bytes_abc ]>
  (<[ ["a.txt"; "src"] := File bytes_abc ]>
  (<[ ["src"] := Dir ]> ∅))))))).

Definition sample_world : World := mkWorld sample_files INFO [].

(** ** Faults of one copy

    The operations of the copy of [source_file] into [output_folder]: the
    [mkdir] of its subfolder, the open and the reads of the source, and the
    open and the writes of the candidate names of its own target.

    A fault in the middle of the stream: the read at the start of some
    chunk of the content fails, or the write at the start of some chunk
    does, whichever candidate name the target has. *)
Definition midstream_fault (fault : io_op → bool)
    (output_folder source_file : Path) (content : list Byte.byte) : Prop :=
  ∃ k,
    ((k * CHUNK ≤ length content)%nat
     ∧ fault (OpRead source_file (k * CHUNK)) = true)
    ∨ ((k * CHUNK < length content)%nat
       ∧ ∀ j, fault (OpWrite
                       (candidate (output_folder // classify source_file)
                          (PurePath.name source_file) j)
                       (k * CHUNK)) = true).

(** The faults that end the copy of a file that is in [w], whatever else
    the file system holds: the source does not open, its first read fails,
    its target does not open under any of its candidate names, or the
    stream breaks. *)
Definition always_faulted (fault : io_op → bool)
    (output_folder source_file : Path) (w : World) : Prop :=
  fault (OpOpenRead source_file) = true
  ∨ fault (OpRead source_file 0) = true
  ∨ (∀ j, fault (OpOpenWrite
                   (candidate (output_folder // classify source_file)
                      (PurePath.name source_file) j)) = true)
  ∨ (∃ content, files w !! source_file = Some (File content)
                ∧ midstream_fault fault output_folder source_file content).

(** Those, and the failure to make a subfolder that is missing. *)
Definition copy_faulted (fault : io_op → bool) (output_folder source_file : Path)
    (w : World) : Prop :=
  always_faulted fault output_folder source_file w
  ∨ (fault (OpMkdir (output_folder // classify source_file)) = true
     ∧ isdir w (output_folder // classify source_file) = false).

(** None of the operations of the copy of [source_file] is failed. *)
Definition unfaulted (fault : io_op → bool)
    (output_folder source_file : Path) : Prop :=
  fault (OpMkdir (output_folder // classify source_file)) = false
  ∧ fault (OpOpenRead source_file) = false
  ∧ (∀ pos, fault (OpRead source_file pos) = false)
  ∧ (∀ j, fault (OpOpenWrite
                   (candidate (output_folder // classify source_file)
                      (PurePath.name source_file) j)) = false)
  ∧ (∀ j pos, fault (OpWrite
                       (candidate (output_folder // classify source_file)
                          (PurePath.name source_file) j) pos) = false).

(** The target of a copy that starts in [w] is the first candidate name
    that [w] does not have.  Its open fails, or the write at the start of
    some chunk of the content does. *)
Definition target_faulted (fault : io_op → bool)
    (output_folder source_file : Path) (w : World) : Prop :=
  ∃ k,
    let target_file :=
      candidate (output_folder // classify source_file)
        (PurePath.name source_file) k in
    exists_ w target_file = false
    ∧ (∀ i, (i < k)%nat →
         exists_ w (candidate (output_folder // classify source_file)
                      (PurePath.name source_file) i) = true)
    ∧ (fault (OpOpenWrite target_file) = true
       ∨ ∃ content j,
           lookup_node w source_file = Some (File content)
           ∧ (j * CHUNK < length content)%nat
           ∧ fault (OpWrite target_file (j * CHUNK)) = true).


(** A source whose open fails, and nothing else. *)
Definition unreadable (source_file : Path) : io_op → bool := λ op,
  match op with
  | OpOpenRead p => bool_decide (p = source_file)
  | _ => false
  end.

(** A disk that fails the read at offset 8192 of every file. *)
Definition bad_second_chunk : io_op → bool := λ op,
  match op with
  | OpRead _ pos => bool_decide (pos = CHUNK)
  | _ => false
  end.

(** A file of 20000 bytes, more than two chunks, alone in [src/]. *)
Definition long_content : list Byte.byte := replicate (Z.to_nat 20000) Byte.x41.

Definition long_world : World :=
  mkWorld (<[ ["big.bin"; "src"] := File long_content ]>
           (<[ ["src"] := Dir ]> ∅)) INFO [].

(** ** What the log and the walk yield *)

(** The records of a list that a logger at level [lvl0] lets through. *)
Definition emitted (lvl0 : level) (records : list (level * message))
    : list (level * message) :=
  filter (λ r, (level_rank lvl0 ≤ level_rank r.1)%nat) records.

(** The regular files below [source_path], in the order of the walk. *)
Definition regular_files (w : World) (source_path : Path) : list Path :=
  filter (λ p, isfile w p = true) (rglob w source_path).

(** A walk that fails when it comes to [item]. *)
Definition scan_fails_at (item : Path) : io_op → bool := λ op,
  match op with
  | OpScan p => bool_decide (p = item)
  | _ => false
  end.

(** A walk that fails at [item] with an error [rglob] swallows. *)
Definition scan_skips (item : Path) : io_op → bool := λ op,
  match op with
  | OpScan p | OpSkip p => bool_decide (p = item)
  | _ => false
  end.

(** Two folders below [src/] that each hold an [x.txt], and an output
    folder that is there and empty. *)
Definition twin_files : gmap Path node :=
  <[ ["out"] := Dir ]>
  (<[ ["x.txt"; "b"; "src"] := File [Byte.x62] ]>
  (<[ ["b"; "src"] := Dir ]>
  (<[ ["x.txt"; "a"; "src"] := File [Byte.x61] ]>
  (<[ ["a"; "src"] := Dir ]>
  (<[ ["src"] := Dir ]> ∅))))).

Definition twin_world : World := mkWorld twin_files INFO [].

(** ** Two copies in flight at once

    [copy_file] gives control back to the event loop at every [await].
    It is cut here at the end of the [while] of lines 96-101, where the
    target path is chosen and not yet opened. *)

(** Lines 78-101: the key, the subfolder, the [while]; the result is the
    target path the loop ends on. *)
Definition choose_target (fault : io_op → bool) (fuel : nat)
    (source_file output_folder : Path) : M Path :=
  let file_extension := classify source_file in
  let target_subfolder := output_folder // file_extension in
  makedirs fault target_subfolder ;;;
  let target_file := target_subfolder // PurePath.name source_file in
  let original_target := target_file in
  let* w := get_world in
  match resolve_target (exists_ w) fuel target_subfolder original_target 1
          target_file with
  | None => out_of_fuel
  | Some target_file => ret target_file
  end.

(** Lines 104-110: the two opens, the loop, the line of the log. *)
Definition stream_to (fault : io_op → bool) (fuel : nat)
    (source_file target_file : Path) : M bool :=
  open_rb fault source_file ;;;
  open_wb fault target_file ;;;
  copy_loop fault fuel source_file target_file 0 ;;;
  log_msg INFO (MsgCopied source_file target_file) ;;;
  ret true.

(** Lines 112-114. *)
Definition on_copy_error (source_file : Path) (e : exn) : M bool :=
  log_msg ERROR (MsgCopyError source_file e) ;;; ret false.

(** A call of [copy_file] that has come to line 104, or has ended before. *)
Inductive suspended : Type :=
| Ended (b : bool)
| AtOpen (target_file : Path).

Definition copy_file_until_open (fault : io_op → bool) (fuel : nat)
    (source_file output_folder : Path) : M suspended :=
  try_except
    (let* target_file := choose_target fault fuel source_file output_folder in
     ret (AtOpen target_file))
    (λ e, let* b := on_copy_error source_file e in ret (Ended b)).

Definition copy_file_from_open (fault : io_op → bool) (fuel : nat)
    (source_file : Path) (s : suspended) : M bool :=
  match s with
  | Ended b => ret b
  | AtOpen target_file =>
      try_except (stream_to fault fuel source_file target_file)
                 (on_copy_error source_file)
  end.

(** Two calls of [copy_file] that both come to line 104 before either
    opens its target; then the first runs to its end, then the second. *)
Definition raced_copies (fault : io_op → bool) (fuel : nat)
    (first second output_folder : Path) : M (bool * bool) :=
  let* s1 := copy_file_until_open fault fuel first output_folder in
  let* s2 := copy_file_until_open fault fuel second output_folder in
  let* b1 := copy_file_from_open fault fuel first s1 in
  let* b2 := copy_file_from_open fault fuel second s2 in
  ret (b1, b2).

(** The same interleaving for the scheduler: both tasks hold a permit
    before either opens its source. *)
Definition race_schedule : list Sched.event :=
  [Sched.EvAcquire 0; Sched.EvAcquire 1;
   Sched.EvOpen 0; Sched.EvClose 0 (Returned true);
   Sched.EvOpen 1; Sched.EvClose 1 (Returned true)].

(** A target that does not open for writing, and nothing else. *)
Definition unwritable (target_file : Path) : io_op → bool := λ op,
  match op with
  | OpOpenWrite p => bool_decide (p = target_file)
  | _ => false
  end.

(** A disk that cannot make the directory [d]. *)
Definition mkdir_fails_at (d : Path) : io_op → bool := λ op,
  match op with
  | OpMkdir p => bool_decide (p = d)
  | _ => false
  end.

(** ** The log file

    Lines 18-25: besides the console, every record that passes the level
    goes to [file_sorter.log] in the working directory, through a handler
    that is opened for appending when the module is loaded.  The working
    directory is the directory the relative paths start from.

    [files] holds every file but this one, and the program of this model
    never opens it; what it holds is the records of [log], which count what
    the file held before the run as records too.  [on_disk] puts the two
    together. *)
Definition log_file : Path := ["file_sorter.log"].

Section LogFile.

(** A record in the format of line 20, encoded; the handler ends the line
    with a newline. *)
Variable formatted : level * message → list Byte.byte.

Definition log_line (r : level * message) : list Byte.byte :=
  (formatted r ++ [Byte.x0a])%list.

Definition log_bytes (records : list (level * message)) : list Byte.byte :=
  mjoin (log_line <$> records).

(** The file system with the log file in it. *)
Definition on_disk (w : World) : gmap Path node :=
  <[log_file := File (log_bytes (log w))]> (files w).

End LogFile.

(** A working directory that holds [a.txt], and a log still empty. *)
Definition cwd_world : World :=
  mkWorld (<[ ["a.txt"] := File bytes_abc ]> ∅) INFO [].

(** * Properties *)

(** ** Strings *)

Module StrFacts.
Import Str.

Lemma rfind_range c s : -1 ≤ rfind c s < len s.
Proof.
  unfold len. induction s as [|a s IH]; simpl; [lia|].
  destruct (Z.leb_spec 0 (rfind c s)); [lia|].
  destruct (Ascii.eqb a c); lia.
Qed.

Lemma rfind_absent c s : mem c s = false → rfind c s = -1.
Proof.
  induction s as [|a s IH]; simpl; [done|].
  intros [Ha Hs]%orb_false_elim. rewrite (IH Hs), Ha. done.
Qed.

(** From the last occurrence on, the string is [c] and then no [c]. *)
Lemma rfind_drop c s :
  0 ≤ rfind c s →
  ∃ rest, drop (Z.to_nat (rfind c s)) s = String c rest ∧ mem c rest = false.
Proof.
  induction s as [|a s IH]; simpl; [lia|].
  destruct (Z.leb_spec 0 (rfind c s)) as [Hpos|Hneg].
  - intros _. destruct (IH Hpos) as (rest & Hd & Hm).
    exists rest. split; [|done].
    replace (Z.to_nat (rfind c s + 1)) with (S (Z.to_nat (rfind c s))) by lia.
    done.
  - destruct (Ascii.eqb_spec a c) as [->|Hne]; [|lia].
    intros _. exists s. split; [done|].
    clear IH. induction s as [|b s IHs]; simpl in *; [done|].
    destruct (Z.leb_spec 0 (rfind c s)); [lia|].
    destruct (Ascii.eqb_spec b c); [lia|]. apply IHs. lia.
Qed.

Lemma app_cons a s t : String a s +:+ t = String a (s +:+ t).
Proof. reflexivity. Qed.

Lemma app_nil_l t : "" +:+ t = t.
Proof. reflexivity. Qed.

Lemma app_nil_r s : s +:+ "" = s.
Proof. induction s as [|a s IH]; [done|]. by rewrite app_cons, IH. Qed.

Lemma take_drop n s : take n s +:+ drop n s = s.
Proof.
  revert s. induction n as [|n IH]; intros [|a s]; simpl; try done.
  by rewrite app_cons, IH.
Qed.

Lemma length_app s t :
  String.length (s +:+ t) = (String.length s + String.length t)%nat.
Proof.
  induction s as [|a s IH]; [done|]. rewrite app_cons. simpl. by rewrite IH.
Qed.

Lemma app_inv_tail s t u : s +:+ u = t +:+ u → s = t.
Proof.
  revert t. induction s as [|a s IH]; intros [|b t] H.
  - done.
  - apply (f_equal String.length) in H. rewrite !length_app in H.
    simpl in H. lia.
  - apply (f_equal String.length) in H. rewrite !length_app in H.
    simpl in H. lia.
  - rewrite !app_cons in H. injection H as -> H. f_equal. by apply IH.
Qed.

Lemma lower_char_dot a : lower_char a = dot → a = dot.
Proof.
  destruct a as [[] [] [] [] [] [] [] []]; vm_compute; congruence.
Qed.

Lemma lower_char_idemp a : lower_char (lower_char a) = lower_char a.
Proof. destruct a as [[] [] [] [] [] [] [] []]; reflexivity. Qed.

Lemma mem_lower_dot s : mem dot s = false → mem dot (lower s) = false.
Proof.
  induction s as [|a s IH]; simpl; [done|].
  intros [Ha Hs]%orb_false_elim. rewrite (IH Hs), orb_false_r.
  destruct (Ascii.eqb_spec (lower_char a) dot) as [Hd|]; [|done].
  apply lower_char_dot in Hd. subst a. by rewrite Ascii.eqb_refl in Ha.
Qed.

Lemma lstrip_absent c s : mem c s = false → lstrip c s = s.
Proof. destruct s as [|a s]; simpl; [done|]. by intros [-> _]%orb_false_elim. Qed.

Lemma lower_idemp s : lower (lower s) = lower s.
Proof.
  induction s as [|a s IH]; simpl; [done|].
  by rewrite lower_char_idemp, IH.
Qed.

(** What [lstrip] leaves of a lower-cased string is lower-cased. *)
Lemma lower_lstrip c s : lower s = s → lower (lstrip c s) = lstrip c s.
Proof.
  induction s as [|a s IH]; simpl; [done|].
  intros H. injection H as Ha Hs.
  destruct (Ascii.eqb a c); [by apply IH|]. simpl. by rewrite Ha, Hs.
Qed.

End StrFacts.

(** ** [pathlib] and the extension key *)

Lemma stem_suffix_name p : PurePath.stem p +:+ PurePath.suffix p = PurePath.name p.
Proof.
  unfold PurePath.stem, PurePath.suffix.
  destruct (PurePath.has_suffix _); [apply StrFacts.take_drop|].
  apply StrFacts.app_nil_r.
Qed.

(** A suffix is a dot followed by characters that are no dot. *)
Lemma suffix_shape p :
  PurePath.suffix p = "" ∨
  ∃ rest, PurePath.suffix p = String dot rest ∧ Str.mem dot rest = false.
Proof.
  unfold PurePath.suffix, PurePath.has_suffix.
  destruct (Z.ltb_spec 0 (Str.rfind dot (PurePath.name p))) as [Hpos|]; simpl;
    [|by left].
  destruct (_ <? _); [|by left]. right.
  apply StrFacts.rfind_drop. lia.
Qed.

(** A name without a dot has no suffix. *)
Lemma suffix_no_dot dir nm : Str.mem dot nm = false → PurePath.suffix (dir // nm) = "".
Proof.
  intros H. unfold PurePath.suffix, PurePath.has_suffix. simpl.
  by rewrite (StrFacts.rfind_absent _ _ H).
Qed.

(** The key is either the sentinel or the lower-cased suffix without its
    dot; it holds no dot. *)
Lemma classify_shape p :
  classify p = "no_extension" ∨
  ∃ rest, PurePath.suffix p = String dot rest ∧ Str.mem dot rest = false
          ∧ classify p = Str.lower rest.
Proof.
  unfold classify. destruct (suffix_shape p) as [->|(rest & -> & Hm)]; [by left|].
  simpl.
  rewrite (StrFacts.lstrip_absent _ _ (StrFacts.mem_lower_dot _ Hm)).
  destruct (Str.lower rest) eqn:E; simpl; [by left|].
  right. exists rest. by rewrite E.
Qed.

Lemma classify_no_dot p : Str.mem dot (classify p) = false.
Proof.
  destruct (classify_shape p) as [->|(rest & _ & Hm & ->)]; [done|].
  by apply StrFacts.mem_lower_dot.
Qed.

Lemma classify_lower p : Str.lower (classify p) = classify p.
Proof.
  destruct (classify_shape p) as [->|(rest & _ & _ & ->)]; [done|].
  apply StrFacts.lower_idemp.
Qed.

Lemma classify_of_key p : classify (Path_of_key (classify p)) = "no_extension".
Proof.
  unfold Path_of_key. unfold classify at 1.
  change [classify p] with ([] // classify p).
  by rewrite (suffix_no_dot _ _ (classify_no_dot p)).
Qed.

(** ** The namer *)

Section Namer.

Variable exists_p : Path → bool.
Variables target_subfolder original_target : Path.

Lemma examined_step counter target_file j :
  examined target_subfolder original_target (counter + 1)
    (target_subfolder //
       (PurePath.stem original_target +:+ "_" +:+ pretty counter
        +:+ PurePath.suffix original_target)) j
  = examined target_subfolder original_target counter target_file (S j).
Proof.
  destruct j as [|j]; simpl.
  - by rewrite Nat.add_0_r.
  - by replace (counter + 1 + j)%nat with (counter + S j)%nat by lia.
Qed.

(** With fuel beyond the first unused position the loop returns it. *)
Lemma resolve_target_first_free j : ∀ fuel counter target_file,
  (j < fuel)%nat →
  exists_p (examined target_subfolder original_target counter target_file j) = false →
  (∀ i, (i < j)%nat →
     exists_p (examined target_subfolder original_target counter target_file i) = true) →
  resolve_target exists_p fuel target_subfolder original_target counter target_file
  = Some (examined target_subfolder original_target counter target_file j).
Proof.
  induction j as [|j IH]; intros fuel counter target_file Hfuel Hfree Hbusy;
    (destruct fuel as [|fuel]; [lia|]); cbn [resolve_target].
  - simpl in Hfree. by rewrite Hfree.
  - pose proof (Hbusy 0%nat ltac:(lia)) as H0. simpl in H0. rewrite H0.
    rewrite <- (examined_step counter target_file j). apply IH; [lia| |].
    + by rewrite (examined_step counter target_file).
    + intros i Hi. rewrite (examined_step counter target_file). apply Hbusy. lia.
Qed.

(** What the loop returns is the first unused position. *)
Lemma resolve_target_sound : ∀ fuel counter target_file t,
  resolve_target exists_p fuel target_subfolder original_target counter target_file
  = Some t →
  ∃ j, (j < fuel)%nat
       ∧ t = examined target_subfolder original_target counter target_file j
       ∧ exists_p t = false
       ∧ ∀ i, (i < j)%nat →
           exists_p (examined target_subfolder original_target counter target_file i)
           = true.
Proof.
  induction fuel as [|fuel IH]; intros counter target_file t;
    cbn [resolve_target]; [done|].
  destruct (exists_p target_file) eqn:E.
  - intros (j & Hj & -> & Hfree & Hbusy)%IH.
    exists (S j). rewrite !(examined_step counter target_file) in *.
    split_and!; [lia|done|done|].
    intros [|i] Hi; [done|]. rewrite <- examined_step. apply Hbusy. lia.
  - intros [= <-]. exists 0%nat. split_and!; [lia|done|done|]. intros; lia.
Qed.

(** Below a free position there is a first free one. *)
Lemma first_free (f : nat → Path) k :
  exists_p (f k) = false →
  ∃ j, (j ≤ k)%nat ∧ exists_p (f j) = false
       ∧ ∀ i, (i < j)%nat → exists_p (f i) = true.
Proof.
  assert (Hsearch : ∀ n,
    (∃ j, (j < n)%nat ∧ exists_p (f j) = false
          ∧ ∀ i, (i < j)%nat → exists_p (f i) = true)
    ∨ ∀ i, (i < n)%nat → exists_p (f i) = true).
  { induction n as [|n [(j & Hj & Hf & Hb)|Hall]].
    - right. intros; lia.
    - left. exists j. split_and!; [lia|done|done].
    - destruct (exists_p (f n)) eqn:E.
      + right. intros i Hi. destruct (decide (i = n)) as [->|]; [done|].
        apply Hall. lia.
      + left. exists n. split_and!; [lia|done|done]. }
  intros Hk. destruct (Hsearch (S k)) as [(j & Hj & Hf & Hb)|Hall].
  - exists j. split_and!; [lia|done|done].
  - rewrite Hall in Hk by lia. done.
Qed.

End Namer.

Lemma examined_candidate target_dir desired_name j :
  examined target_dir (target_dir // desired_name) 1 (target_dir // desired_name) j
  = candidate target_dir desired_name j.
Proof. by destruct j. Qed.

(** The candidates are pairwise distinct. *)
Lemma candidate_inj target_dir desired_name i j :
  candidate target_dir desired_name i = candidate target_dir desired_name j → i = j.
Proof.
  set (p := target_dir // desired_name).
  assert (Hzero : ∀ k,
    desired_name ≠ PurePath.stem p +:+ "_" +:+ pretty (S k) +:+ PurePath.suffix p).
  { intros k H. apply (f_equal String.length) in H.
    assert (Hn : PurePath.stem p +:+ PurePath.suffix p = desired_name)
      by apply (stem_suffix_name p).
    rewrite <- Hn in H at 1.
    rewrite !StrFacts.length_app in H. simpl in H. lia. }
  destruct i as [|i], j as [|j]; simpl; fold p; intros H; [done|..];
    injection H as H.
  - by apply Hzero in H.
  - symmetry in H. by apply Hzero in H.
  - apply (inj (String.app _)) in H.
    rewrite !(StrFacts.app_cons "_") in H. injection H as H.
    rewrite !StrFacts.app_nil_l in H.
    apply StrFacts.app_inv_tail in H. by apply (inj pretty) in H.
Qed.

(** C3.  For every target directory, desired name and existence test under
    which some candidate is unused, the loop of lines 95-101 ends: from
    some amount of fuel on it returns one and the same path, which the test
    reports as unused.  That path is the first unused one of the sequence
    desired name, [{stem}_1{ext}], [{stem}_2{ext}], ..., and the members of
    the sequence are pairwise distinct. *)
Theorem namer_terminates_on_unused
    (exists_p : Path → bool) (target_dir : Path) (desired_name : string) (k : nat) :
  exists_p (candidate target_dir desired_name k) = false →
  ∃ fuel0 t,
    (∀ fuel, (fuel0 ≤ fuel)%nat →
       resolve_target exists_p fuel target_dir (target_dir // desired_name) 1
         (target_dir // desired_name) = Some t)
    ∧ exists_p t = false
    ∧ (∃ j, (j ≤ k)%nat ∧ t = candidate target_dir desired_name j
            ∧ ∀ i, (i < j)%nat →
                exists_p (candidate target_dir desired_name i) = true)
    ∧ (∀ i j, candidate target_dir desired_name i
              = candidate target_dir desired_name j → i = j).
Proof.
  intros Hk.
  destruct (first_free exists_p (candidate target_dir desired_name) k Hk)
    as (j & Hj & Hfree & Hbusy).
  exists (S j), (candidate target_dir desired_name j). split_and!.
  - intros fuel Hfuel. rewrite <- examined_candidate.
    apply resolve_target_first_free; [lia|..].
    + by rewrite examined_candidate.
    + intros i Hi. rewrite examined_candidate. by apply Hbusy.
  - done.
  - by exists j.
  - apply candidate_inj.
Qed.

Lemma namer_terminates_on_unused_witness :
  ∃ fuel0 t,
    (∀ fuel, (fuel0 ≤ fuel)%nat →
       resolve_target (exists_ sample_world) fuel ["txt"; "out"]
         (["txt"; "out"] // "a.txt") 1 (["txt"; "out"] // "a.txt") = Some t)
    ∧ exists_ sample_world t = false
    ∧ (∃ j, (j ≤ 1)%nat ∧ t = candidate ["txt"; "out"] "a.txt" j
            ∧ ∀ i, (i < j)%nat →
                exists_ sample_world (candidate ["txt"; "out"] "a.txt" i) = true)
    ∧ (∀ i j, candidate ["txt"; "out"] "a.txt" i
              = candidate ["txt"; "out"] "a.txt" j → i = j).
Proof.
  apply (namer_terminates_on_unused (exists_ sample_world) ["txt"; "out"] "a.txt" 1).
  vm_compute. reflexivity.
Defined.

(** ** The semaphore bounds the copies in flight *)

Module SchedFacts.
Import Sched.

Lemma count_nil f : count f [] = 0.
Proof. done. Qed.

Lemma count_cons f p l : count f (p :: l) = Z.b2z (f p) + count f l.
Proof.
  unfold count. rewrite filter_cons.
  destruct (decide (f p = true)) as [->|Hf]; simpl length.
  - simpl. lia.
  - apply not_true_is_false in Hf. rewrite Hf. simpl. lia.
Qed.

Lemma count_nonneg f l : 0 ≤ count f l.
Proof. unfold count. lia. Qed.

(** Replacing the phase of one task moves the count by that task only. *)
Lemma count_insert f l i p q :
  l !! i = Some p →
  count f (<[i := q]> l) = count f l - Z.b2z (f p) + Z.b2z (f q).
Proof.
  revert i. induction l as [|x l IH]; intros [|i] H; simpl in *; try done.
  - injection H as ->. rewrite !count_cons. lia.
  - rewrite !count_cons, (IH i H). lia.
Qed.

Lemma count_le f g l :
  (∀ p, f p = true → g p = true) → count f l ≤ count g l.
Proof.
  intros Hfg. induction l as [|x l IH]; [done|]. rewrite !count_cons.
  destruct (f x) eqn:Hf.
  - rewrite (Hfg x Hf). lia.
  - destruct (g x); simpl; lia.
Qed.

Lemma count_init f max_concurrent files_found :
  f Waiting = false → count f (tasks (init max_concurrent files_found)) = 0.
Proof.
  intros Hf. simpl. induction files_found as [|x l IH]; [done|].
  simpl map. rewrite count_cons, Hf, IH. done.
Qed.

Lemma step_balanced N s ev s' :
  balanced N s → step s ev = Some s' → balanced N s'.
Proof.
  unfold balanced, in_flight. intros [Hsum Hval].
  destruct ev as [i|i|i r|i r]; simpl;
    destruct (tasks s !! i) as [[]|] eqn:Hi; try done.
  - destruct (Z.ltb_spec 0 (value s)); [|done].
    intros [= <-]. simpl. rewrite (count_insert _ _ _ _ _ Hi). simpl. lia.
  - intros [= <-]. simpl. rewrite (count_insert _ _ _ _ _ Hi). simpl. lia.
  - intros [= <-]. simpl. rewrite (count_insert _ _ _ _ _ Hi). simpl. lia.
  - intros [= <-]. simpl. rewrite (count_insert _ _ _ _ _ Hi). simpl.
    pose proof (count_nonneg holds_permit (tasks s)). lia.
Qed.

Lemma run_balanced N schedule : ∀ s s',
  balanced N s → run s schedule = Some s' → balanced N s'.
Proof.
  induction schedule as [|ev schedule IH]; intros s s' Hb; simpl.
  - by intros [= <-].
  - destruct (step s ev) as [s1|] eqn:Hstep; [|done].
    apply IH. by eapply step_balanced.
Qed.

Lemma init_balanced N files_found : 0 ≤ N → balanced N (init N files_found).
Proof.
  intros HN. split; [|done]. unfold in_flight.
  rewrite count_init by done. simpl. lia.
Qed.

(** No event adds or drops a task: [results] has one entry per file. *)
Lemma step_length s ev s' :
  step s ev = Some s' → length (tasks s') = length (tasks s).
Proof.
  destruct ev as [i|i|i r|i r]; simpl;
    destruct (tasks s !! i) as [[]|]; try done;
    try (destruct (0 <? value s); [|done]);
    intros [= <-]; simpl; apply length_insert.
Qed.

Lemma run_length schedule : ∀ s s',
  run s schedule = Some s' → length (tasks s') = length (tasks s).
Proof.
  induction schedule as [|ev schedule IH]; intros s s'; simpl.
  - by intros [= <-].
  - destruct (step s ev) as [s1|] eqn:Hstep; [|done].
    intros ->%IH. by eapply step_length.
Qed.

(** With a positive limit a run that is not over can go on: some task can
    take a permit, open its source, or end. *)
Lemma progress N s :
  0 < N → balanced N s →
  (∃ i p, tasks s !! i = Some p ∧ is_finished p = false) →
  ∃ ev s', step s ev = Some s'.
Proof.
  intros HN [Hsum Hval] (i & p & Hi & Hp).
  destruct (decide (in_flight s = 0)) as [Hz|Hnz].
  - destruct p as [| | |r]; try done.
    + exists (EvAcquire i). simpl. rewrite Hi.
      destruct (Z.ltb_spec 0 (value s)); [eauto|lia].
    + exists (EvOpen i). simpl. rewrite Hi. eauto.
    + exists (EvClose i (Returned true)). simpl. rewrite Hi. eauto.
  - assert (Hex : ∃ j q, tasks s !! j = Some q ∧ holds_permit q = true).
    { unfold in_flight in Hnz. clear -Hnz.
      induction (tasks s) as [|x l IH]; [done|].
      rewrite count_cons in Hnz. destruct (holds_permit x) eqn:Hx.
      - by exists 0%nat, x.
      - destruct IH as (j & q & Hj & Hq); [simpl in Hnz; lia|].
        by exists (S j), q. }
    destruct Hex as (j & [| | |r] & Hj & Hq); try done.
    + exists (EvOpen j). simpl. rewrite Hj. eauto.
    + exists (EvClose j (Returned true)). simpl. rewrite Hj. eauto.
Qed.

End SchedFacts.

(** C4.  For every positive limit, every list of files and every schedule
    of the tasks that [process_files] starts, the state reached has at most
    [max_concurrent] copy operations in flight, and the copies that hold
    their source file open are among those. *)
Theorem semaphore_bounds_in_flight
    (max_concurrent : Z) (files_found : list Path)
    (schedule : list Sched.event) (s : Sched.state) :
  0 < max_concurrent →
  Sched.run (Sched.init max_concurrent files_found) schedule = Some s →
  Sched.in_flight s ≤ max_concurrent
  ∧ 0 ≤ Sched.open_sources s ≤ Sched.in_flight s.
Proof.
  intros HN Hrun.
  assert (Hinit : Sched.balanced max_concurrent
                    (Sched.init max_concurrent files_found))
    by (apply SchedFacts.init_balanced; lia).
  destruct (SchedFacts.run_balanced _ _ _ _ Hinit Hrun) as [Hsum Hval].
  pose proof (SchedFacts.count_nonneg Sched.holds_permit (Sched.tasks s)).
  unfold Sched.in_flight in *.
  split_and!; [lia|apply SchedFacts.count_nonneg|].
  apply SchedFacts.count_le. by intros [].
Qed.

Lemma semaphore_bounds_in_flight_witness :
  let files_found := [["a.txt"; "src"]; ["b.TXT"; "src"]; ["c"; "src"]] in
  let schedule :=
    [Sched.EvAcquire 2; Sched.EvAcquire 0; Sched.EvOpen 0;
     Sched.EvClose 0 (Returned true); Sched.EvAcquire 1] in
  ∃ s, Sched.run (Sched.init 2 files_found) schedule = Some s
       ∧ Sched.in_flight s = 2
       ∧ Sched.in_flight s ≤ 2
       ∧ 0 ≤ Sched.open_sources s ≤ Sched.in_flight s.
Proof.
  simpl. eexists. split; [reflexivity|]. split; [reflexivity|].
  apply (semaphore_bounds_in_flight 2
           [["a.txt"; "src"]; ["b.TXT"; "src"]; ["c"; "src"]]
           [Sched.EvAcquire 2; Sched.EvAcquire 0; Sched.EvOpen 0;
            Sched.EvClose 0 (Returned true); Sched.EvAcquire 1]);
    [lia|reflexivity].
Defined.

(** ** Every schedule ends, with one result per file *)

Module SchedEnd.
Import Sched.

Lemma weight_insert l i p q :
  l !! i = Some p →
  (sum_list (weight <$> <[i := q]> l) + weight p
   = sum_list (weight <$> l) + weight q)%nat.
Proof.
  revert i. induction l as [|x l IH]; intros [|i] H; try done.
  - injection H as ->. simpl. lia.
  - change (<[S i := q]> (x :: l)) with (x :: <[i := q]> l).
    rewrite !fmap_cons. cbn [sum_list]. specialize (IH i H). lia.
Qed.

(** Each event uses up at least one of the events that remain. *)
Lemma step_remaining s ev s' :
  step s ev = Some s' → (remaining s' < remaining s)%nat.
Proof.
  unfold remaining.
  destruct ev as [i|i|i r|i r]; simpl;
    destruct (tasks s !! i) as [[]|] eqn:Hi; try done.
  - destruct (0 <? value s); [|done]. intros [= <-]. simpl.
    pose proof (weight_insert _ _ _ Acquired Hi). simpl in *. lia.
  - intros [= <-]. simpl.
    pose proof (weight_insert _ _ _ Streaming Hi). simpl in *. lia.
  - intros [= <-]. simpl.
    pose proof (weight_insert _ _ _ (Finished r) Hi). simpl in *. lia.
  - intros [= <-]. simpl.
    pose proof (weight_insert _ _ _ (Finished r) Hi). simpl in *. lia.
Qed.

(** A schedule of the tasks of [n] files has at most [3 * n] events. *)
Lemma run_remaining schedule : ∀ s s',
  run s schedule = Some s' →
  (length schedule + remaining s' ≤ remaining s)%nat.
Proof.
  induction schedule as [|ev schedule IH]; intros s s'; simpl.
  - intros [= <-]. lia.
  - destruct (step s ev) as [s1|] eqn:Hstep; [|done].
    intros H%IH. apply step_remaining in Hstep. lia.
Qed.

Lemma remaining_init max_concurrent files_found :
  remaining (init max_concurrent files_found) = (3 * length files_found)%nat.
Proof.
  unfold remaining, init. cbn [tasks].
  induction files_found as [|x l IH]; [done|].
  rewrite map_cons, fmap_cons. cbn [sum_list weight]. rewrite IH.
  simpl length. unfold id. lia.
Qed.

Lemma results_all_finished l :
  (∀ i p, l !! i = Some p → is_finished p = true) →
  length (omap (λ p, match p with Finished r => Some r | _ => None end) l)
  = length l.
Proof.
  induction l as [|x l IH]; intros Hall; [done|].
  pose proof (Hall 0%nat x eq_refl) as Hx. destruct x; try done.
  simpl. f_equal. apply IH. intros i p Hp. by apply (Hall (S i)).
Qed.

(** With a positive limit, a schedule after which no event is enabled has
    filled [results]: one entry per file, in whatever order the tasks ran. *)
Lemma complete_schedule_one_result_per_file
    max_concurrent files_found schedule s :
  0 < max_concurrent →
  run (init max_concurrent files_found) schedule = Some s →
  (∀ ev, step s ev = None) →
  length (results s) = length files_found
  ∧ (length schedule ≤ 3 * length files_found)%nat.
Proof.
  intros HN Hrun Hstuck.
  assert (Hbal : balanced max_concurrent s).
  { eapply SchedFacts.run_balanced; [|done].
    apply SchedFacts.init_balanced. lia. }
  assert (Hall : ∀ i p, tasks s !! i = Some p → is_finished p = true).
  { intros i p Hi. destruct (is_finished p) eqn:Hp; [done|].
    destruct (SchedFacts.progress max_concurrent s HN Hbal) as (ev & s' & Hev);
      [by exists i, p|].
    by rewrite Hstuck in Hev. }
  assert (Hzero : remaining s = 0%nat).
  { unfold remaining. clear -Hall. induction (tasks s) as [|x l IH]; [done|].
    pose proof (Hall 0%nat x eq_refl) as Hx. destruct x; try done.
    simpl. apply IH. intros i p Hp. by apply (Hall (S i)). }
  split.
  - unfold results. rewrite results_all_finished by done.
    rewrite (SchedFacts.run_length _ _ _ Hrun). simpl. by rewrite length_map.
  - apply run_remaining in Hrun. rewrite remaining_init in Hrun. lia.
Qed.

End SchedEnd.

(** ** The file system *)

Section FileSystem.

Variable fault : io_op → bool.

Lemma lookup_node_cons w s p : lookup_node w (s :: p) = files w !! (s :: p).
Proof. done. Qed.

Lemma lookup_node_insert_ne w p q n :
  p ≠ q → lookup_node (set_files (insert p n) w) q = lookup_node w q.
Proof.
  intros Hne. destruct q as [|s q]; [done|].
  simpl. by rewrite lookup_insert_ne.
Qed.

Lemma lookup_node_insert_eq w s p n :
  lookup_node (set_files (insert (s :: p) n) w) (s :: p) = Some n.
Proof. simpl. by rewrite lookup_insert_eq. Qed.

Lemma exists_false_lookup w p : exists_ w p = false → files w !! p = None.
Proof.
  unfold exists_, lookup_node. destruct p as [|s p]; [done|].
  destruct (files w !! (s :: p)); simpl; done.
Qed.

Lemma exists_false_nonempty w p : exists_ w p = false → p ≠ [].
Proof. by destruct p. Qed.

Lemma isfile_lookup w p :
  isfile w p = true → ∃ c, files w !! p = Some (File c) ∧ p ≠ [].
Proof.
  unfold isfile, lookup_node. destruct p as [|s p]; [done|].
  destruct (files w !! (s :: p)) as [[c|]|]; simpl; try done. by exists c.
Qed.

(** Two worlds with the same entry at [p] answer alike there. *)
Lemma exists_agree w w' p :
  files w' !! p = files w !! p → exists_ w' p = exists_ w p.
Proof.
  unfold exists_, lookup_node. destruct p as [|s p]; [done|]. by intros ->.
Qed.

(** *** [mkdir] and [makedirs] *)

Lemma mkdir_cases p w r w' :
  mkdir fault p w = (r, w') →
  (r = Ok tt ∧ w' = set_files (insert p Dir) w ∧ exists_ w p = false)
  ∨ (∃ e, r = Raise e ∧ w' = w).
Proof.
  unfold mkdir.
  destruct (fault _); [intros [= <- <-]; eauto|].
  destruct (negb _); [intros [= <- <-]; eauto|].
  destruct (exists_ w p) eqn:E; intros [= <- <-]; eauto.
Qed.

(** The last step of [makedirs]: [mkdir], forgiving the error when the
    directory is there. *)
Lemma mkdir_exist_ok_spec name w r w' :
  (try_except (mkdir fault name)
     (λ e, if is_OSError e
           then let* w := get_world in
                if isdir w name then ret tt else raise e
           else raise e)) w = (r, w') →
  log w' = log w ∧ log_level w' = log_level w
  ∧ files w ⊆ files w'
  ∧ (∀ p, (length name < length p)%nat → files w' !! p = files w !! p)
  ∧ (∀ p, files w' !! p = files w !! p ∨ files w' !! p = Some Dir)
  ∧ ((r = Ok tt ∧ isdir w' name = true) ∨ ∃ e, r = Raise e).
Proof.
  unfold try_except.
  destruct (mkdir fault name w) as [r1 w1] eqn:Hmk.
  apply mkdir_cases in Hmk as [(-> & -> & Hex)|(e & -> & ->)].
  - intros [= <- <-]. split_and!; try done.
    + simpl. apply insert_subseteq. by apply exists_false_lookup.
    + intros p Hp. simpl. apply lookup_insert_ne. intros ->. lia.
    + intros p. simpl. destruct (decide (name = p)) as [->|Hp].
      * right. apply lookup_insert_eq.
      * left. by apply lookup_insert_ne.
    + left. split; [done|]. unfold isdir.
      destruct name as [|s name]; [done|]. by rewrite lookup_node_insert_eq.
  - destruct (is_OSError e); [|intros [= <- <-]; split_and!; eauto].
    unfold bind, get_world. destruct (isdir w name) eqn:Hd;
      intros [= <- <-]; split_and!; eauto.
Qed.

(** What [makedirs] leaves: the log as it was, every entry that was there,
    nothing new at a path longer than [name], and on return a directory at
    [name]. *)
Lemma makedirs_spec name : ∀ w r w',
  makedirs fault name w = (r, w') →
  log w' = log w ∧ log_level w' = log_level w
  ∧ files w ⊆ files w'
  ∧ (∀ p, (length name < length p)%nat → files w' !! p = files w !! p)
  ∧ (∀ p, files w' !! p = files w !! p ∨ files w' !! p = Some Dir)
  ∧ ((r = Ok tt ∧ isdir w' name = true) ∨ ∃ e, r = Raise e).
Proof.
  induction name as [|tl head IH]; intros w r w'; cbn [makedirs].
  { unfold bind at 1. unfold ret at 1. apply mkdir_exist_ok_spec. }
  destruct head as [|hd head'].
  { unfold bind at 1. unfold ret at 1. apply mkdir_exist_ok_spec. }
  unfold bind at 1. unfold bind at 1. unfold get_world at 1.
  destruct (exists_ w (hd :: head')) eqn:Hex.
  { unfold ret at 1. apply mkdir_exist_ok_spec. }
  unfold try_except at 1.
  destruct (makedirs fault (hd :: head') w) as [r1 w1] eqn:Hrec.
  apply IH in Hrec as (Hl1 & Hv1 & Hs1 & Hf1 & Hn1 & Hr1).
  assert (Hgo : ∀ r w',
    (try_except (mkdir fault (tl :: hd :: head'))
       (λ e, if is_OSError e
             then let* w := get_world in
                  if isdir w (tl :: hd :: head') then ret tt else raise e
             else raise e)) w1 = (r, w') →
    log w' = log w ∧ log_level w' = log_level w
    ∧ files w ⊆ files w'
    ∧ (∀ p, (length (tl :: hd :: head') < length p)%nat →
         files w' !! p = files w !! p)
    ∧ (∀ p, files w' !! p = files w !! p ∨ files w' !! p = Some Dir)
    ∧ ((r = Ok tt ∧ isdir w' (tl :: hd :: head') = true) ∨ ∃ e, r = Raise e)).
  { intros r2 w2 (Hl2 & Hv2 & Hs2 & Hf2 & Hn2 & Hr2)%mkdir_exist_ok_spec.
    split_and!.
    - congruence.
    - congruence.
    - by etrans.
    - intros p Hp. rewrite Hf2 by done. apply Hf1. simpl in *. lia.
    - intros p. destruct (Hn2 p) as [->|]; [apply Hn1|by right].
    - done. }
  destruct Hr1 as [[-> _]|[e ->]].
  - apply Hgo.
  - destruct e; unfold ret, raise.
    + apply Hgo.
    + intros [= <- <-]. split_and!; try done.
      * intros p Hp. apply Hf1. simpl in *. lia.
      * eauto.
    + intros [= <- <-]. split_and!; try done.
      * intros p Hp. apply Hf1. simpl in *. lia.
      * eauto.
Qed.

(** *** The copy loop *)

Lemma take_nil_inv {A} n (l : list A) : take n l = [] → n = 0%nat ∨ l = [].
Proof. destruct n, l; simpl; intros; try done; eauto. Qed.

Lemma CHUNK_pos : (0 < CHUNK)%nat.
Proof. unfold CHUNK. lia. Qed.

(** What was written and the next chunk make a longer prefix of the source. *)
Lemma chunk_append {A} (c : list A) pos m :
  (take pos c ++ take m (drop pos c))%list
  = take (pos + length (take m (drop pos c))) c.
Proof.
  rewrite <- take_take_drop. f_equal.
  rewrite length_take.
  destruct (le_lt_dec m (length (drop pos c))).
  - by rewrite Nat.min_l.
  - rewrite Nat.min_r by lia. by rewrite !take_ge by lia.
Qed.

(** One turn of the loop, spelled out. *)
Lemma copy_loop_unfold fuel src dst pos w :
  copy_loop fault (S fuel) src dst pos w
  = match read fault src pos CHUNK w with
    | (Ok [], w1) => (Ok tt, w1)
    | (Ok chunk, w1) =>
        match write fault dst chunk w1 with
        | (Ok _, w2) => copy_loop fault fuel src dst (pos + length chunk) w2
        | (Raise e, w2) => (Raise e, w2)
        | (Blocked, w2) => (Blocked, w2)
        | (OutOfFuel, w2) => (OutOfFuel, w2)
        end
    | (Raise e, w1) => (Raise e, w1)
    | (Blocked, w1) => (Blocked, w1)
    | (OutOfFuel, w1) => (OutOfFuel, w1)
    end.
Proof.
  cbn [copy_loop]. unfold bind at 1.
  destruct (read fault src pos CHUNK w) as [[[|b chunk]|e| |] w1]; try done.
Qed.

Lemma read_file src pos n w c :
  lookup_node w src = Some (File c) →
  read fault src pos n w
  = if fault (OpRead src pos) then (Raise OSError, w)
    else (Ok (take n (drop pos c)), w).
Proof. intros H. unfold read. by rewrite H. Qed.

Lemma write_file dst chunk w d :
  lookup_node w dst = Some (File d) →
  write fault dst chunk w
  = if fault (OpWrite dst (length d)) then (Raise OSError, w)
    else (Ok tt, set_files (insert dst (File (d ++ chunk))) w).
Proof. intros H. unfold write. by rewrite H. Qed.

Lemma lookup_file_nonempty w p c : lookup_node w p = Some (File c) → p ≠ [].
Proof. by destruct p. Qed.

(** Whatever the fuel: the loop touches [dst] only, and when it returns
    [dst] holds the bytes of [src]. *)
Lemma copy_loop_sound src dst c :
  src ≠ dst →
  ∀ fuel pos w r w',
    lookup_node w src = Some (File c) →
    lookup_node w dst = Some (File (take pos c)) →
    copy_loop fault fuel src dst pos w = (r, w') →
    log w' = log w ∧ log_level w' = log_level w
    ∧ (∀ p, p ≠ dst → files w' !! p = files w !! p)
    ∧ (∃ d, lookup_node w' dst = Some (File d))
    ∧ (r = Ok tt → lookup_node w' dst = Some (File c))
    ∧ (r = Ok tt ∨ (∃ e, r = Raise e) ∨ r = OutOfFuel).
Proof.
  intros Hne. induction fuel as [|fuel IH]; intros pos w r w' Hsrc Hdst.
  { intros [= <- <-]. split_and!; eauto. done. }
  rewrite copy_loop_unfold, (read_file _ _ _ _ _ Hsrc).
  destruct (fault (OpRead src pos)).
  { intros [= <- <-]. split_and!; eauto. done. }
  destruct (take CHUNK (drop pos c)) as [|b chunk] eqn:Hchunk.
  { intros [= <- <-]. split_and!; eauto. intros _.
    apply take_nil_inv in Hchunk as [H0|Hnil]; [pose proof CHUNK_pos; lia|].
    apply drop_nil_inv in Hnil. by rewrite take_ge in Hdst. }
  rewrite (write_file _ _ _ _ Hdst).
  destruct (fault (OpWrite dst _)).
  { intros [= <- <-]. split_and!; eauto. done. }
  intros Hloop.
  pose proof (lookup_file_nonempty _ _ _ Hdst) as Hd.
  destruct dst as [|s dst]; [done|].
  apply IH in Hloop as (Hl & Hv & Hfr & Hex & Hok & Hr).
  - split_and!; try done.
    intros p Hp. rewrite (Hfr p Hp). simpl. by rewrite lookup_insert_ne.
  - by rewrite lookup_node_insert_ne.
  - rewrite lookup_node_insert_eq, <- Hchunk. f_equal. f_equal.
    apply chunk_append.
Qed.

(** With fuel beyond the length of what is left to read, the loop ends, and
    always in the same way; without faults it returns. *)
Lemma copy_loop_total src dst c :
  src ≠ dst →
  ∀ n pos w,
    lookup_node w src = Some (File c) →
    lookup_node w dst = Some (File (take pos c)) →
    (length c - pos ≤ n)%nat →
    ∃ r w',
      (∀ fuel, (n < fuel)%nat → copy_loop fault fuel src dst pos w = (r, w'))
      ∧ r ≠ OutOfFuel
      ∧ ((∀ q, fault (OpRead src q) = false) →
         (∀ q, fault (OpWrite dst q) = false) → r = Ok tt).
Proof.
  intros Hne. induction n as [n IH] using lt_wf_ind. intros pos w Hsrc Hdst Hn.
  destruct (fault (OpRead src pos)) eqn:Hfr.
  { exists (Raise OSError), w. split_and!; [|done|].
    - intros [|fuel] Hf; [lia|].
      by rewrite copy_loop_unfold, (read_file _ _ _ _ _ Hsrc), Hfr.
    - intros Hr _. by rewrite Hr in Hfr. }
  destruct (take CHUNK (drop pos c)) as [|b chunk] eqn:Hchunk.
  { exists (Ok tt), w. split_and!; [|done|done].
    intros [|fuel] Hf; [lia|].
    by rewrite copy_loop_unfold, (read_file _ _ _ _ _ Hsrc), Hfr, Hchunk. }
  destruct (fault (OpWrite dst (length (take pos c)))) eqn:Hfw.
  { exists (Raise OSError), w. split_and!; [|done|].
    - intros [|fuel] Hf; [lia|].
      by rewrite copy_loop_unfold, (read_file _ _ _ _ _ Hsrc), Hfr, Hchunk,
        (write_file _ _ _ _ Hdst), Hfw.
    - intros _ Hw. by rewrite Hw in Hfw. }
  pose proof (lookup_file_nonempty _ _ _ Hdst) as Hd.
  destruct dst as [|s dst]; [done|].
  assert (Hlen : (pos < length c)%nat).
  { destruct (le_lt_dec (length c) pos) as [Hle|]; [|done].
    by rewrite drop_ge in Hchunk by done. }
  destruct (IH (n - 1)%nat ltac:(lia) (pos + length (b :: chunk))%nat
              (set_files (insert (s :: dst) (File (take pos c ++ b :: chunk))) w))
    as (r & w' & Hstable & Hr & Hlive).
  - by rewrite lookup_node_insert_ne.
  - rewrite lookup_node_insert_eq, <- Hchunk. f_equal. f_equal.
    apply chunk_append.
  - simpl. lia.
  - exists r, w'. split_and!; [|done|done].
    intros [|fuel] Hf; [lia|].
    rewrite copy_loop_unfold, (read_file _ _ _ _ _ Hsrc), Hfr, Hchunk,
      (write_file _ _ _ _ Hdst), Hfw.
    apply Hstable. lia.
Qed.

(** *** Opening files, logging *)

Lemma open_rb_cases p w r w' :
  open_rb fault p w = (r, w') →
  w' = w ∧ ((r = Ok tt ∧ isfile w p = true) ∨ ∃ e, r = Raise e).
Proof.
  unfold open_rb. destruct (fault _); [intros [= <- <-]; eauto|].
  destruct (isfile w p); intros [= <- <-]; eauto.
Qed.

Lemma open_wb_cases p w r w' :
  open_wb fault p w = (r, w') →
  (r = Ok tt ∧ w' = set_files (insert p (File [])) w
   ∧ isdir w (PurePath.parent p) = true ∧ isdir w p = false)
  ∨ (∃ e, r = Raise e ∧ w' = w).
Proof.
  unfold open_wb. destruct (fault _); [intros [= <- <-]; eauto|].
  destruct (isdir w (PurePath.parent p)); simpl; [|intros [= <- <-]; eauto].
  destruct (isdir w p); intros [= <- <-]; eauto.
Qed.

Lemma log_msg_spec lvl msg w :
  ∃ w', log_msg lvl msg w = (Ok tt, w')
        ∧ files w' = files w ∧ log_level w' = log_level w
        ∧ log w' = (log w ++
                    if (level_rank (log_level w) <=? level_rank lvl)%nat
                    then [(lvl, msg)] else [])%list.
Proof.
  unfold log_msg. destruct (_ <=? _)%nat; eexists; split_and!; try done.
  simpl. by rewrite app_nil_r.
Qed.

(** *** A finite file system has an unused candidate *)

Lemma free_candidate (m : gmap Path node) target_dir desired_name :
  ∃ k, (k ≤ size m)%nat ∧ m !! candidate target_dir desired_name k = None.
Proof.
  assert (Hsearch : ∀ n,
    (∃ k, (k < n)%nat ∧ m !! candidate target_dir desired_name k = None)
    ∨ ∀ k, (k < n)%nat → is_Some (m !! candidate target_dir desired_name k)).
  { induction n as [|n [(k & Hk & Hf)|Hall]].
    - right. intros; lia.
    - left. exists k. split; [lia|done].
    - destruct (m !! candidate target_dir desired_name n) eqn:E.
      + right. intros k Hk. destruct (decide (k = n)) as [->|]; [by rewrite E|].
        apply Hall. lia.
      + left. exists n. split; [lia|done]. }
  destruct (Hsearch (S (size m))) as [(k & Hk & Hf)|Hall].
  { exists k. split; [lia|done]. }
  exfalso.
  set (l := candidate target_dir desired_name <$> seq 0 (S (size m))).
  assert (Hnd : NoDup l).
  { apply NoDup_fmap_2; [|apply NoDup_seq].
    intros i j. apply candidate_inj. }
  assert (Hsub : (list_to_set l : gset Path) ⊆ dom m).
  { intros p [k [-> Hk]]%elem_of_list_to_set%list_elem_of_fmap.
    apply elem_of_seq in Hk. apply elem_of_dom, Hall. lia. }
  apply subseteq_size in Hsub.
  rewrite size_list_to_set, size_dom in Hsub by done.
  unfold l in Hsub. rewrite length_fmap, length_seq in Hsub. lia.
Qed.

(** *** [copy_file] *)

(** Whatever the fuel and the faults: [copy_file_try] keeps every entry of
    the file system, and when it returns, a path that was unused holds the
    bytes the source file holds; that path is the first unused candidate in
    the subfolder of the file's key. *)
Lemma copy_file_try_sound fuel source_file output_folder w r w' :
  copy_file_try fault fuel source_file output_folder w = (r, w') →
  files w ⊆ files w' ∧ log_level w' = log_level w ∧ r ≠ Blocked
  ∧ (∀ b, r = Ok b →
       b = true ∧
       ∃ k c,
         let target_file :=
           candidate (output_folder // classify source_file)
             (PurePath.name source_file) k in
         lookup_node w source_file = Some (File c)
         ∧ files w' !! target_file = Some (File c)
         ∧ exists_ w target_file = false
         ∧ (∀ i, (i < k)%nat →
              exists_ w (candidate (output_folder // classify source_file)
                           (PurePath.name source_file) i) = true)
         ∧ log w' = (log w ++
                     if (level_rank (log_level w) <=? level_rank INFO)%nat
                     then [(INFO, MsgCopied source_file target_file)]
                     else [])%list).
Proof.
  unfold copy_file_try. unfold bind at 1.
  destruct (makedirs fault _ w) as [r1 w1] eqn:Hmk.
  apply makedirs_spec in Hmk
    as (Hl1 & Hv1 & Hs1 & Hf1 & Hn1 & [[-> Hdir]|[e ->]]);
    [|intros [= <- <-]; split_and!; done].
  unfold bind at 1. unfold get_world at 1.
  destruct (resolve_target _ _ _ _ _ _) as [t|] eqn:Hres;
    [|intros [= <- <-]; split_and!; done].
  apply resolve_target_sound in Hres as (k & Hk & Ht & Hfree & Hbusy).
  rewrite examined_candidate in Ht.
  unfold bind at 1.
  destruct (open_rb fault source_file w1) as [r2 w2] eqn:Hrb.
  apply open_rb_cases in Hrb as [-> [[-> Hfile]|[e ->]]];
    [|intros [= <- <-]; split_and!; done].
  apply isfile_lookup in Hfile as (c & Hc & Hsrc).
  unfold bind at 1.
  destruct (open_wb fault t w1) as [r3 w3] eqn:Hwb.
  apply open_wb_cases in Hwb as [(-> & -> & _ & _)|(e & -> & ->)];
    [|intros [= <- <-]; split_and!; done].
  pose proof (exists_false_lookup _ _ Hfree) as Hnone.
  assert (Hne : source_file ≠ t) by congruence.
  assert (Ht0 : t ≠ []) by (by rewrite Ht; destruct k).
  destruct t as [|s t]; [done|].
  unfold bind at 1.
  destruct (copy_loop fault fuel source_file (s :: t) 0 _) as [r4 w4] eqn:Hloop.
  apply (copy_loop_sound _ _ c Hne) in Hloop
    as (Hl4 & Hv4 & Hfr4 & _ & Hok4 & Hr4).
  2:{ rewrite lookup_node_insert_ne by done.
      destruct source_file; [done|]. by rewrite lookup_node_cons. }
  2:{ by rewrite lookup_node_insert_eq. }
  assert (Hframe : files w ⊆ files w4).
  { apply map_subseteq_spec. intros p n Hp.
    assert (Hp1 : files w1 !! p = Some n)
      by (by eapply lookup_weaken; [apply Hp|]).
    assert (p ≠ s :: t) by congruence.
    rewrite Hfr4 by done. simpl. by rewrite lookup_insert_ne. }
  destruct Hr4 as [->|[[e ->]| ->]];
    [|intros [= <- <-]; split_and!; [done|simpl in *; congruence|done|done]..].
  unfold bind at 1.
  destruct (log_msg_spec INFO (MsgCopied source_file (s :: t)) w4)
    as (w5 & -> & Hf5 & Hv5 & Hl5).
  unfold ret. intros [= <- <-]. split_and!.
  - by rewrite Hf5.
  - simpl in *. congruence.
  - done.
  - intros b [= <-]. split; [done|]. exists k, c. simpl.
    rewrite <- Ht. split_and!.
    + destruct source_file as [|x source_file]; [done|].
      rewrite lookup_node_cons.
      destruct (Hn1 (x :: source_file)) as [Heq|Hd]; congruence.
    + rewrite Hf5. specialize (Hok4 eq_refl). by rewrite lookup_node_cons in Hok4.
    + rewrite <- Hfree. symmetry. apply exists_agree, Hf1.
      rewrite Ht. destruct k; simpl; lia.
    + intros i Hi. rewrite <- (Hbusy i Hi), examined_candidate.
      symmetry. apply exists_agree, Hf1. destruct i; simpl; lia.
    + rewrite Hl5, Hl4. simpl. rewrite Hv4. simpl. by rewrite Hl1, Hv1.
Qed.

Lemma isfile_weaken w w' p :
  files w ⊆ files w' → isfile w p = true → isfile w' p = true.
Proof.
  intros Hsub (c & Hc & Hp)%isfile_lookup.
  unfold isfile. destruct p as [|s p]; [done|]. rewrite lookup_node_cons.
  by rewrite (lookup_weaken _ _ _ _ Hc Hsub).
Qed.

Lemma exists_not_file_isdir w p :
  exists_ w p = true → isfile w p = false → isdir w p = true.
Proof.
  unfold exists_, isfile, isdir. by destruct (lookup_node w p) as [[]|].
Qed.

Lemma not_exists_not_dir w p : exists_ w p = false → isdir w p = false.
Proof. unfold exists_, isdir. by destruct (lookup_node w p) as [[]|]. Qed.

Lemma mkdir_exist_ok_live name w :
  fault (OpMkdir name) = false →
  isdir w (PurePath.parent name) = true →
  isfile w name = false →
  ∃ w',
    (try_except (mkdir fault name)
       (λ e, if is_OSError e
             then let* w := get_world in
                  if isdir w name then ret tt else raise e
             else raise e)) w = (Ok tt, w').
Proof.
  intros Hf Hpar Hnf. unfold try_except, mkdir. rewrite Hf, Hpar. simpl.
  destruct (exists_ w name) eqn:E; [|eauto].
  cbn [is_OSError]. unfold bind, get_world. rewrite (exists_not_file_isdir _ _ E Hnf). eauto.
Qed.

(** Without faults [makedirs] makes a directory below an existing one. *)
Lemma makedirs_live name w :
  fault (OpMkdir name) = false →
  isdir w (PurePath.parent name) = true →
  isfile w name = false →
  ∃ w', makedirs fault name w = (Ok tt, w').
Proof.
  intros Hf Hpar Hnf.
  destruct name as [|tl [|hd head']]; cbn [makedirs]; unfold bind at 1.
  - unfold ret at 1. by apply mkdir_exist_ok_live.
  - unfold ret at 1. by apply mkdir_exist_ok_live.
  - unfold bind at 1. unfold get_world at 1.
    assert (Hex : exists_ w (hd :: head') = true).
    { simpl in Hpar. unfold isdir in Hpar. unfold exists_.
      by destruct (lookup_node w (hd :: head')). }
    rewrite Hex. unfold ret at 1. by apply mkdir_exist_ok_live.
Qed.

Lemma candidate_parent target_dir desired_name k :
  PurePath.parent (candidate target_dir desired_name k) = target_dir.
Proof. by destruct k. Qed.

Lemma candidate_free w target_dir desired_name k :
  files w !! candidate target_dir desired_name k = None →
  exists_ w (candidate target_dir desired_name k) = false.
Proof.
  unfold exists_, candidate, PurePath.joinpath.
  destruct k; cbn [lookup_node]; by intros ->.
Qed.

(** From some fuel on [copy_file_try] ends, and always in the same way;
    without faults, with the output folder in place and the source a file, it
    returns [True]. *)
Lemma copy_file_try_total source_file output_folder w :
  ∃ N r w',
    (∀ fuel, (N ≤ fuel)%nat →
       copy_file_try fault fuel source_file output_folder w = (r, w'))
    ∧ r ≠ OutOfFuel
    ∧ (unfaulted fault output_folder source_file →
       isdir w output_folder = true →
       isfile w (output_folder // classify source_file) = false →
       isfile w source_file = true →
       r = Ok true).
Proof.
  unfold unfaulted.
  set (dir := output_folder // classify source_file).
  set (nm := PurePath.name source_file).
  destruct (makedirs fault dir w) as [r1 w1] eqn:Hmk.
  pose proof (makedirs_spec _ _ _ _ Hmk)
    as (Hl1 & Hv1 & Hs1 & Hf1 & Hn1 & Hr1).
  assert (Hlive1 : fault (OpMkdir dir) = false →
                   isdir w output_folder = true →
                   isfile w dir = false → r1 = Ok tt).
  { intros Hnf Hout Hnotfile.
    destruct (makedirs_live dir w) as [w'' Hmk']; [done..|]. congruence. }
  destruct Hr1 as [[-> Hdir]|[e ->]].
  2:{ exists 0%nat, (Raise e), w1. split_and!; [|done|].
      - intros fuel _. unfold copy_file_try. fold dir. unfold bind at 1.
        by rewrite Hmk.
      - intros (Hnf & _) ???.
        by specialize (Hlive1 ltac:(done) ltac:(done) ltac:(done)). }
  clear Hlive1.
  destruct (free_candidate (files w1) dir nm) as (k0 & _ & Hk0).
  destruct (first_free (exists_ w1) (candidate dir nm) k0)
    as (j & _ & Hfree & Hbusy).
  { by apply candidate_free. }
  set (t := candidate dir nm j) in *.
  assert (Hres : ∀ fuel, (j < fuel)%nat →
    resolve_target (exists_ w1) fuel dir (dir // nm) 1 (dir // nm) = Some t).
  { intros fuel Hfuel. unfold t. rewrite <- examined_candidate.
    apply resolve_target_first_free; [lia|..].
    - by rewrite examined_candidate.
    - intros i Hi. rewrite examined_candidate. by apply Hbusy. }
  assert (Hprefix : ∀ fuel, (j < fuel)%nat →
    copy_file_try fault fuel source_file output_folder w
    = (open_rb fault source_file ;;;
       open_wb fault t ;;;
       copy_loop fault fuel source_file t 0 ;;;
       log_msg INFO (MsgCopied source_file t) ;;;
       ret true) w1).
  { intros fuel Hfuel. unfold copy_file_try. fold dir nm. unfold bind at 1.
    rewrite Hmk. unfold bind at 1. unfold get_world at 1.
    by rewrite (Hres fuel Hfuel). }
  destruct (open_rb fault source_file w1) as [r2 w2] eqn:Hrb.
  pose proof (open_rb_cases _ _ _ _ Hrb) as [-> [[-> Hfile]|[e ->]]].
  2:{ exists (S j), (Raise e), w1. split_and!; [|done|].
      - intros fuel Hfuel. rewrite Hprefix by lia. unfold bind at 1.
        by rewrite Hrb.
      - intros (_ & Hnf & _) _ _ Hsrc. unfold open_rb in Hrb.
        by rewrite Hnf, (isfile_weaken _ _ _ Hs1 Hsrc) in Hrb. }
  destruct (open_wb fault t w1) as [r3 w3] eqn:Hwb.
  pose proof (open_wb_cases _ _ _ _ Hwb)
    as [(-> & -> & _ & _)|(e & -> & ->)].
  2:{ exists (S j), (Raise e), w1. split_and!; [|done|].
      - intros fuel Hfuel. rewrite Hprefix by lia. unfold bind at 1.
        rewrite Hrb. unfold bind at 1. by rewrite Hwb.
      - intros (_ & _ & _ & Hnf & _) _ _ _. unfold open_wb in Hwb.
        rewrite (Hnf j : fault (OpOpenWrite t) = false) in Hwb.
        unfold t in Hwb at 1.
        rewrite candidate_parent, Hdir in Hwb. simpl in Hwb.
        by rewrite (not_exists_not_dir _ _ Hfree) in Hwb. }
  assert (Hwrites : (∀ j pos, fault (OpWrite (candidate dir nm j) pos) = false) →
                    ∀ q, fault (OpWrite t q) = false).
  { intros Hnf q. apply Hnf. }
  destruct (isfile_lookup _ _ Hfile) as (c & Hc & Hsrc).
  pose proof (exists_false_lookup _ _ Hfree) as Hnone.
  assert (Hne : source_file ≠ t) by congruence.
  assert (Ht0 : t ≠ []) by (unfold t; by destruct j).
  destruct t as [|s t']; [done|].
  set (w2 := set_files (insert (s :: t') (File [])) w1) in *.
  assert (Hsrc2 : lookup_node w2 source_file = Some (File c)).
  { unfold w2. rewrite lookup_node_insert_ne by done.
    destruct source_file; [done|]. by rewrite lookup_node_cons. }
  assert (Hdst2 : lookup_node w2 (s :: t') = Some (File (take 0 c))).
  { unfold w2. by rewrite lookup_node_insert_eq. }
  destruct (copy_loop_total source_file (s :: t') c Hne (length c) 0%nat w2
              Hsrc2 Hdst2 ltac:(lia))
    as (r4 & w4 & Hstable & Hr4 & Hlive4).
  pose proof (copy_loop_sound _ _ c Hne _ _ _ _ _ Hsrc2 Hdst2
                (Hstable (S (length c)) ltac:(lia)))
    as (_ & _ & _ & _ & _ & Hcases).
  destruct (log_msg_spec INFO (MsgCopied source_file (s :: t')) w4)
    as (w5 & Hlog & _).
  destruct Hcases as [->|[[e ->]| ->]]; [| |done].
  - exists (S (j + length c)), (Ok true), w5. split_and!; [|done|done].
    intros fuel Hfuel. rewrite Hprefix by lia. unfold bind at 1.
    rewrite Hrb. unfold bind at 1. rewrite Hwb. unfold bind at 1.
    fold w2. rewrite Hstable by lia. unfold bind at 1. by rewrite Hlog.
  - exists (S (j + length c)), (Raise e), w4. split_and!; [|done|].
    + intros fuel Hfuel. rewrite Hprefix by lia. unfold bind at 1.
      rewrite Hrb. unfold bind at 1. rewrite Hwb. unfold bind at 1.
      fold w2. by rewrite Hstable by lia.
    + intros (_ & _ & Hreads & _ & Hnf) _ _ _.
      by specialize (Hlive4 Hreads (Hwrites Hnf)).
Qed.

(** [copy_file] as a whole: it keeps every entry, never raises, and [True]
    means the bytes are at the first unused candidate. *)
Lemma copy_file_sound fuel source_file output_folder w r w' :
  copy_file fault fuel source_file output_folder w = (r, w') →
  files w ⊆ files w' ∧ log_level w' = log_level w
  ∧ (r = Ok true ∨ r = Ok false ∨ r = OutOfFuel)
  ∧ (r = Ok true →
       ∃ k c,
         let target_file :=
           candidate (output_folder // classify source_file)
             (PurePath.name source_file) k in
         lookup_node w source_file = Some (File c)
         ∧ files w' !! target_file = Some (File c)
         ∧ exists_ w target_file = false
         ∧ (∀ i, (i < k)%nat →
              exists_ w (candidate (output_folder // classify source_file)
                           (PurePath.name source_file) i) = true)
         ∧ log w' = (log w ++
                     if (level_rank (log_level w) <=? level_rank INFO)%nat
                     then [(INFO, MsgCopied source_file target_file)]
                     else [])%list).
Proof.
  unfold copy_file, try_except.
  destruct (copy_file_try fault fuel source_file output_folder w)
    as [r1 w1] eqn:Htry.
  apply copy_file_try_sound in Htry as (Hs & Hv & Hb & Hok).
  destruct r1 as [b|e| |]; [| |done|].
  - intros [= <- <-]. destruct (Hok b eq_refl) as [-> Hfacts].
    split_and!; eauto.
  - unfold bind at 1.
    destruct (log_msg_spec ERROR (MsgCopyError source_file e) w1)
      as (w2 & -> & Hf2 & Hv2 & _).
    unfold ret. intros [= <- <-]. split_and!; eauto.
    + by rewrite Hf2.
    + congruence.
    + done.
  - intros [= <- <-]. split_and!; eauto. done.
Qed.

(** From some fuel on [copy_file] returns a boolean, always the same. *)
Lemma copy_file_total source_file output_folder w :
  ∃ N b w',
    (∀ fuel, (N ≤ fuel)%nat →
       copy_file fault fuel source_file output_folder w = (Ok b, w'))
    ∧ ((∀ op, fault op = false) →
       isdir w output_folder = true →
       isfile w (output_folder // classify source_file) = false →
       isfile w source_file = true →
       b = true).
Proof.
  destruct (copy_file_try_total source_file output_folder w)
    as (N & r & w1 & Hstable & Hr & Hlive).
  pose proof (copy_file_try_sound _ _ _ _ _ _ (Hstable N ltac:(lia)))
    as (_ & _ & Hb & Hok).
  destruct r as [b|e| |]; [| |done..].
  - exists N, b, w1. split.
    + intros fuel Hfuel. unfold copy_file, try_except. by rewrite Hstable.
    + by destruct (Hok b eq_refl) as [-> _].
  - destruct (log_msg_spec ERROR (MsgCopyError source_file e) w1)
      as (w2 & Hlog & _).
    exists N, false, w2. split.
    + intros fuel Hfuel. unfold copy_file, try_except. rewrite Hstable by done.
      unfold bind. by rewrite Hlog.
    + intros Hnf ???.
      by specialize (Hlive ltac:(by split_and!; intros) ltac:(done)
                       ltac:(done) ltac:(done)).
Qed.

(** A copy none of whose operations is failed returns [True], whatever is
    failed for other files. *)
Lemma copy_file_live source_file output_folder w :
  unfaulted fault output_folder source_file →
  isdir w output_folder = true →
  isfile w (output_folder // classify source_file) = false →
  isfile w source_file = true →
  ∃ N w',
    ∀ fuel, (N ≤ fuel)%nat →
      copy_file fault fuel source_file output_folder w = (Ok true, w').
Proof.
  intros Hun Hout Hkey Hsrc.
  destruct (copy_file_try_total source_file output_folder w)
    as (N & r & w1 & Hstable & _ & Hlive).
  rewrite (Hlive Hun Hout Hkey Hsrc) in Hstable.
  exists N, w1. intros fuel Hfuel. unfold copy_file, try_except.
  by rewrite Hstable.
Qed.

End FileSystem.

(** ** Faults end a copy with [False] *)

Section Faults.

Variable fault : io_op → bool.

Lemma isdir_agree w w' p :
  files w' !! p = files w !! p → isdir w' p = isdir w p.
Proof.
  unfold isdir, lookup_node. destruct p as [|s p]; [done|]. by intros ->.
Qed.

Lemma mkdir_exist_ok_ok name w w' :
  (try_except (mkdir fault name)
     (λ e, if is_OSError e
           then let* w := get_world in
                if isdir w name then ret tt else raise e
           else raise e)) w = (Ok tt, w') →
  fault (OpMkdir name) = false ∨ isdir w name = true.
Proof.
  unfold try_except, mkdir. destruct (fault (OpMkdir name)); [|by left].
  cbn [is_OSError]. unfold bind, get_world.
  destruct (isdir w name); [by right|done].
Qed.

(** When [makedirs] returns, [mkdir] did not fail on the directory or the
    directory was there. *)
Lemma makedirs_ok name w w' :
  makedirs fault name w = (Ok tt, w') →
  fault (OpMkdir name) = false ∨ isdir w name = true.
Proof.
  destruct name as [|tl head]; cbn [makedirs]; [|destruct head as [|hd head']];
    unfold bind at 1.
  - unfold ret at 1. apply mkdir_exist_ok_ok.
  - unfold ret at 1. apply mkdir_exist_ok_ok.
  - unfold bind at 1. unfold get_world at 1.
    destruct (exists_ w (hd :: head')).
    { unfold ret at 1. apply mkdir_exist_ok_ok. }
    unfold try_except at 1.
    destruct (makedirs fault (hd :: head') w) as [r1 w1] eqn:Hrec.
    apply makedirs_spec in Hrec as (_ & _ & _ & Hf1 & _ & _).
    assert (Hsame : isdir w1 (tl :: hd :: head') = isdir w (tl :: hd :: head')).
    { apply isdir_agree, Hf1. simpl. lia. }
    destruct r1 as [[]|[]| |]; unfold ret, raise; try done.
    + intros H%mkdir_exist_ok_ok. by rewrite <- Hsame.
    + intros H%mkdir_exist_ok_ok. by rewrite <- Hsame.
Qed.

Lemma copy_loop_ok fuel src dst pos w w' :
  copy_loop fault fuel src dst pos w = (Ok tt, w') →
  fault (OpRead src pos) = false.
Proof.
  destruct fuel as [|fuel]; [done|]. rewrite copy_loop_unfold. unfold read.
  by destruct (fault (OpRead src pos)).
Qed.

(** The file is copied only if none of these operations failed. *)
Lemma copy_file_try_ok_no_fault fuel source_file output_folder w b w' :
  copy_file_try fault fuel source_file output_folder w = (Ok b, w') →
  fault (OpOpenRead source_file) = false
  ∧ fault (OpRead source_file 0) = false
  ∧ (∃ k, fault (OpOpenWrite
                   (candidate (output_folder // classify source_file)
                      (PurePath.name source_file) k)) = false)
  ∧ (fault (OpMkdir (output_folder // classify source_file)) = false
     ∨ isdir w (output_folder // classify source_file) = true).
Proof.
  unfold copy_file_try. unfold bind at 1.
  destruct (makedirs fault _ w) as [[[]|e| |] w1] eqn:Hmk; try done.
  apply makedirs_ok in Hmk.
  unfold bind at 1. unfold get_world at 1.
  destruct (resolve_target _ _ _ _ _ _) as [t|] eqn:Hres; [|done].
  apply resolve_target_sound in Hres as (k & _ & Ht & _ & _).
  rewrite examined_candidate in Ht.
  unfold bind at 1. unfold open_rb at 1.
  destruct (fault (OpOpenRead source_file)); [done|].
  destruct (isfile w1 source_file); [|done].
  unfold bind at 1. unfold open_wb at 1.
  destruct (fault (OpOpenWrite t)) eqn:Hwb; [done|].
  destruct (negb _); [done|]. destruct (isdir w1 t); [done|].
  unfold bind at 1.
  destruct (copy_loop _ _ _ _ _ _) as [[[]|e| |] w4] eqn:Hloop; try done.
  apply copy_loop_ok in Hloop. intros _.
  split_and!; try done. exists k. by rewrite <- Ht.
Qed.

(** When the loop returns, no read at the start of a chunk has failed, the
    one that finds the end included, and no write has. *)
Lemma copy_loop_reads src dst c :
  src ≠ dst →
  ∀ fuel pos w w',
    lookup_node w src = Some (File c) →
    lookup_node w dst = Some (File (take pos c)) →
    copy_loop fault fuel src dst pos w = (Ok tt, w') →
    ∀ k,
      ((pos + k * CHUNK ≤ length c)%nat →
       fault (OpRead src (pos + k * CHUNK)) = false)
      ∧ ((pos + k * CHUNK < length c)%nat →
         fault (OpWrite dst (pos + k * CHUNK)) = false).
Proof.
  intros Hne. pose proof CHUNK_pos as Hpos.
  induction fuel as [|fuel IH]; intros pos w w' Hsrc Hdst; [done|].
  rewrite copy_loop_unfold, (read_file _ _ _ _ _ _ Hsrc).
  destruct (fault (OpRead src pos)) eqn:Hfr; [done|].
  destruct (take CHUNK (drop pos c)) as [|b chunk] eqn:Hchunk.
  { intros _ k.
    apply take_nil_inv in Hchunk as [H0|Hnil]; [lia|].
    apply drop_nil_inv in Hnil.
    destruct k as [|k]; [rewrite Nat.add_0_r; split; [done|lia]|].
    split; intros; nia. }
  rewrite (write_file _ _ _ _ _ Hdst).
  assert (Hlt : (pos < length c)%nat).
  { destruct (le_lt_dec (length c) pos) as [Hle|]; [|done].
    by rewrite drop_ge in Hchunk by done. }
  rewrite length_take, Nat.min_l by lia.
  destruct (fault (OpWrite dst pos)) eqn:Hfw; [done|].
  pose proof (lookup_file_nonempty _ _ _ Hdst) as Hd.
  destruct dst as [|s dst]; [done|].
  intros Hloop k.
  destruct k as [|k]; [rewrite Nat.add_0_r; by split|].
  assert (Hlen : length (b :: chunk)
                 = (CHUNK `min` (length c - pos))%nat).
  { by rewrite <- Hchunk, length_take, length_drop. }
  destruct (le_lt_dec CHUNK (length c - pos)) as [Hfull|Hlast].
  2:{ split; intros; nia. }
  rewrite Nat.min_l in Hlen by done.
  replace (pos + S k * CHUNK)%nat with (pos + length (b :: chunk) + k * CHUNK)%nat
    by (rewrite Hlen; lia).
  eapply IH; [| |exact Hloop].
  - by rewrite lookup_node_insert_ne.
  - rewrite lookup_node_insert_eq, <- Hchunk. f_equal. f_equal.
    apply chunk_append.
Qed.

(** The file is copied only if the stream did not break. *)
Lemma copy_file_try_ok_stream fuel source_file output_folder w b w' c :
  copy_file_try fault fuel source_file output_folder w = (Ok b, w') →
  files w !! source_file = Some (File c) →
  ∃ j, ∀ k,
    ((k * CHUNK ≤ length c)%nat →
     fault (OpRead source_file (k * CHUNK)) = false)
    ∧ ((k * CHUNK < length c)%nat →
       fault (OpWrite (candidate (output_folder // classify source_file)
                         (PurePath.name source_file) j)
                      (k * CHUNK)) = false).
Proof.
  intros Hcopy Hc0. revert Hcopy.
  unfold copy_file_try. unfold bind at 1.
  destruct (makedirs fault _ w) as [r1 w1] eqn:Hmk.
  apply makedirs_spec in Hmk as (_ & _ & Hs1 & _ & _ & [[-> _]|[e ->]]);
    [|done].
  unfold bind at 1. unfold get_world at 1.
  destruct (resolve_target _ _ _ _ _ _) as [t|] eqn:Hres; [|done].
  apply resolve_target_sound in Hres as (k0 & _ & Ht & Hfree & _).
  rewrite examined_candidate in Ht.
  unfold bind at 1.
  destruct (open_rb fault source_file w1) as [r2 w2] eqn:Hrb.
  apply open_rb_cases in Hrb as [-> [[-> Hfile]|[e ->]]]; [|done].
  apply isfile_lookup in Hfile as (c' & Hc' & Hsrc).
  pose proof (lookup_weaken _ _ _ _ Hc0 Hs1) as Hc.
  unfold bind at 1.
  destruct (open_wb fault t w1) as [r3 w3] eqn:Hwb.
  apply open_wb_cases in Hwb as [(-> & -> & _ & _)|(e & -> & ->)]; [|done].
  pose proof (exists_false_lookup _ _ Hfree) as Hnone.
  assert (Hne : source_file ≠ t) by congruence.
  assert (Ht0 : t ≠ []) by (by rewrite Ht; destruct k0).
  destruct t as [|s t]; [done|].
  unfold bind at 1.
  destruct (copy_loop fault fuel source_file (s :: t) 0 _)
    as [[[]|e| |] w4] eqn:Hloop; try done.
  intros _. exists k0. rewrite <- Ht. intros k.
  apply (copy_loop_reads _ _ c Hne _ _ _ _) with (k := k) in Hloop; [done|..].
  - rewrite lookup_node_insert_ne by done.
    destruct source_file; [done|]. by rewrite lookup_node_cons.
  - by rewrite lookup_node_insert_eq.
Qed.

Lemma copy_file_faulted fuel source_file output_folder w r w' :
  copy_file fault fuel source_file output_folder w = (r, w') →
  copy_faulted fault output_folder source_file w →
  r = Ok false ∨ r = OutOfFuel.
Proof.
  intros Hcopy Hfault.
  destruct (copy_file_sound _ _ _ _ _ _ _ Hcopy) as (_ & _ & [->|[->| ->]] & _);
    [|by left|by right].
  exfalso. unfold copy_file, try_except in Hcopy.
  destruct (copy_file_try _ _ _ _ _) as [[b|e| |] w1] eqn:Htry.
  - pose proof (copy_file_try_ok_no_fault _ _ _ _ _ _ Htry)
      as (H1 & H2 & [k H3] & H4).
    destruct Hfault as [[Hf|[Hf|[Hf|(c & Hc & k' & Hmid)]]]|[Hf Hd]];
      try congruence.
    + destruct (copy_file_try_ok_stream _ _ _ _ _ _ _ Htry Hc) as (dst & Hok).
      destruct (Hok k') as [Hr Hw].
      destruct Hmid as [[Hle Hf]|[Hlt Hf]].
      * by rewrite (Hr Hle) in Hf.
      * specialize (Hf dst). by rewrite (Hw Hlt) in Hf.
    + destruct H4; congruence.
  - unfold bind, ret in Hcopy.
    destruct (log_msg _ _ _) as [[[]|?| |] ?]; congruence.
  - done.
  - done.
Qed.

End Faults.

(** ** The batch *)

Section Batch.

Variable fault : io_op → bool.

Lemma successful_of_cons r results :
  successful_of (r :: results)
  = (if is_True r then 1 else 0) + successful_of results.
Proof.
  unfold successful_of. rewrite filter_cons.
  destruct (decide (is_True r = true)) as [->|Hf]; simpl length.
  - lia.
  - apply not_true_is_false in Hf. rewrite Hf. lia.
Qed.

Lemma successful_of_range results :
  0 ≤ successful_of results ≤ Z.of_nat (length results).
Proof.
  induction results as [|r results IH]; [done|].
  rewrite successful_of_cons. simpl length. destruct (is_True r); lia.
Qed.

(** The two counts of lines 149-150 add up to the number of results. *)
Lemma tally_total results :
  successful_of results + failed_of results = Z.of_nat (length results)
  ∧ 0 ≤ successful_of results ∧ 0 ≤ failed_of results.
Proof.
  pose proof (successful_of_range results). unfold failed_of. lia.
Qed.

(** Whatever the fuel: when [gather] returns, it returns one entry per
    task, none of them an exception, and every entry of the file system is
    still there. *)
Lemma gather_sound fuel output_folder semaphore : ∀ tasks w r w',
  gather fault fuel output_folder semaphore tasks w = (r, w') →
  files w ⊆ files w' ∧ log_level w' = log_level w
  ∧ (∀ e, r ≠ Raise e)
  ∧ (∀ results, r = Ok results →
       length results = length tasks
       ∧ ∀ i x, results !! i = Some x → ∃ b, x = Returned b).
Proof.
  induction tasks as [|file_path tasks IH]; intros w r w'; cbn [gather].
  { intros [= <- <-]. split_and!; try done.
    intros results [= <-]. split; [done|]. by intros []. }
  unfold copy_with_semaphore. destruct (semaphore <=? 0).
  { intros [= <- <-]. split_and!; done. }
  destruct (copy_file fault fuel file_path output_folder w) as [r1 w1] eqn:Hcopy.
  apply copy_file_sound in Hcopy as (Hs1 & Hv1 & Hr1 & _).
  assert (Hgo : ∀ b,
    (let* rs := gather fault fuel output_folder semaphore tasks in
     ret (Returned b :: rs)) w1 = (r, w') →
    files w ⊆ files w' ∧ log_level w' = log_level w
    ∧ (∀ e, r ≠ Raise e)
    ∧ (∀ results, r = Ok results →
         length results = S (length tasks)
         ∧ ∀ i x, results !! i = Some x → ∃ b, x = Returned b)).
  { intros b. unfold bind.
    destruct (gather fault fuel output_folder semaphore tasks w1)
      as [r2 w2] eqn:Hrest.
    apply IH in Hrest as (Hs2 & Hv2 & Hr2 & Hok2).
    destruct r2 as [rs|e| |]; intros [= <- <-].
    - split_and!; [by etrans|congruence|done|].
      intros results [= <-]. destruct (Hok2 rs eq_refl) as [Hlen Hall].
      split; [simpl; by rewrite Hlen|].
      intros [|i] x; simpl; [intros [= <-]; eauto|apply Hall].
    - by destruct (Hr2 e).
    - split_and!; [by etrans|congruence|done|done].
    - split_and!; [by etrans|congruence|done|done]. }
  destruct Hr1 as [->|[->| ->]]; [apply Hgo..|].
  intros [= <- <-]. split_and!; done.
Qed.

Lemma always_faulted_weaken output_folder file_path w0 w :
  files w0 ⊆ files w →
  always_faulted fault output_folder file_path w0 →
  always_faulted fault output_folder file_path w.
Proof.
  intros Hsub [H|[H|[H|(c & Hc & Hmid)]]].
  - by left.
  - right. by left.
  - right. right. by left.
  - right. right. right. exists c. split; [|done]. by eapply lookup_weaken.
Qed.

(** With a positive limit the batch ends from some fuel on: every file
    gets a boolean, and [False] when its copy was faulted.  The faults are
    read off any file system [w0] that the batch started from or grew out
    of. *)
Lemma gather_total output_folder semaphore :
  0 < semaphore →
  ∀ tasks w0 w,
    files w0 ⊆ files w →
    ∃ N bs w',
      (∀ fuel, (N ≤ fuel)%nat →
         gather fault fuel output_folder semaphore tasks w
         = (Ok (Returned <$> bs), w'))
      ∧ length bs = length tasks
      ∧ (∀ i file_path, tasks !! i = Some file_path →
           always_faulted fault output_folder file_path w0 →
           bs !! i = Some false).
Proof.
  intros Hsem. induction tasks as [|file_path tasks IH]; intros w0 w Hsub.
  { exists 0%nat, [], w. split_and!; try done. }
  destruct (copy_file_total fault file_path output_folder w)
    as (N1 & b & w1 & H1 & _).
  pose proof (copy_file_sound _ _ _ _ _ _ _ (H1 N1 ltac:(lia))) as (Hs1 & _).
  destruct (IH w0 w1) as (N2 & bs & w2 & H2 & Hlen & Hfaulted); [by etrans|].
  exists (N1 `max` N2)%nat, (b :: bs), w2. split_and!.
  - intros fuel Hfuel. cbn [gather]. unfold copy_with_semaphore.
    destruct (Z.leb_spec semaphore 0); [lia|].
    rewrite H1 by lia. unfold bind. by rewrite H2 by lia.
  - simpl. by rewrite Hlen.
  - intros [|i] f; simpl.
    + intros [= <-] Hf.
      destruct (copy_file_faulted fault _ _ _ _ _ _ (H1 N1 ltac:(lia)))
        as [Hb|Hb]; [|by injection Hb as ->|done].
      left. by eapply always_faulted_weaken.
    + apply Hfaulted.
Qed.

(** *** [read_folder] *)

Lemma read_folder_loop_spec : ∀ items files_found w,
  ∃ r w',
    read_folder_loop fault items files_found w = (Ok r, w')
    ∧ files w' = files w ∧ log_level w' = log_level w.
Proof.
  induction items as [|item items IH]; intros files_found w;
    cbn [read_folder_loop].
  { by exists (files_found, None), w. }
  destruct (fault (OpScan item)).
  { destruct (fault (OpSkip item)); [apply IH|].
    by exists (files_found, Some OSError), w. }
  unfold bind at 1. unfold get_world at 1.
  destruct (isfile w item); [|apply IH].
  unfold bind at 1.
  destruct (log_msg_spec DEBUG (MsgFound item) w) as (w1 & -> & Hf & Hv & _).
  destruct (IH (files_found ++ [item])%list w1) as (r & w2 & -> & Hf2 & Hv2).
  exists r, w2. split_and!; congruence.
Qed.

(** [read_folder] returns a list and leaves the file system alone; the list
    is empty when the source folder is missing or no directory. *)
Lemma read_folder_spec source_path w :
  ∃ files_found w',
    read_folder fault source_path w = (Ok files_found, w')
    ∧ files w' = files w ∧ log_level w' = log_level w
    ∧ (isdir w source_path = false → files_found = []).
Proof.
  unfold read_folder. unfold bind at 1. unfold get_world at 1.
  destruct (exists_ w source_path) eqn:Hex; simpl.
  2:{ unfold bind.
      destruct (log_msg_spec ERROR (MsgSourceMissing source_path) w)
        as (w1 & -> & Hf & Hv & _).
      exists [], w1. by split_and!. }
  destruct (isdir w source_path) eqn:Hdir; simpl.
  2:{ unfold bind.
      destruct (log_msg_spec ERROR (MsgNotAFolder source_path) w)
        as (w1 & -> & Hf & Hv & _).
      exists [], w1. by split_and!. }
  unfold bind at 1.
  destruct (read_folder_loop_spec (rglob w source_path) [] w)
    as ([files_found [e|]] & w1 & -> & Hf1 & Hv1); unfold bind.
  - destruct (log_msg_spec ERROR (MsgReadError source_path e) w1)
      as (w2 & -> & Hf2 & Hv2 & _).
    exists files_found, w2. split_and!; [done|congruence|congruence|done].
  - destruct (log_msg_spec INFO
                (MsgFoundCount (length files_found) source_path) w1)
      as (w2 & -> & Hf2 & Hv2 & _).
    exists files_found, w2. split_and!; [done|congruence|congruence|done].
Qed.

(** *** [process_files] *)

(** After the copies [process_files] logs the two counts and the
    extensions, and returns. *)
Lemma process_files_reports fuel source_folder output_folder max_concurrent
    w w1 w2 w3 file_path files_found results :
  0 ≤ max_concurrent →
  makedirs fault output_folder w = (Ok tt, w1) →
  read_folder fault source_folder w1 = (Ok (file_path :: files_found), w2) →
  gather fault fuel output_folder max_concurrent (file_path :: files_found) w2
  = (Ok results, w3) →
  process_files fault fuel source_folder output_folder max_concurrent w
  = (log_msg INFO (MsgDone (successful_of results) (failed_of results)) ;;;
     log_msg INFO
       (MsgFolders (size (extensions_of (file_path :: files_found)))) ;;;
     log_msg INFO
       (MsgExtensions
          (merge_sort String.le
             (elements (extensions_of (file_path :: files_found)))))) w3.
Proof.
  intros Hmc Hmk Hread Hgather.
  unfold process_files, try_except. unfold bind at 1. rewrite Hmk.
  unfold bind at 1. rewrite Hread.
  unfold bind at 1. unfold Semaphore.
  destruct (Z.ltb_spec max_concurrent 0); [lia|]. unfold ret at 1.
  unfold bind at 1. rewrite Hgather.
  match goal with |- (let (o, w') := ?m in _) = ?m' => change m' with m end.
  destruct (log_msg_spec INFO
              (MsgDone (successful_of results) (failed_of results)) w3)
    as (w4 & H4 & _).
  destruct (log_msg_spec INFO
              (MsgFolders (size (extensions_of (file_path :: files_found)))) w4)
    as (w5 & H5 & _).
  destruct (log_msg_spec INFO
              (MsgExtensions
                 (merge_sort String.le
                    (elements (extensions_of (file_path :: files_found))))) w5)
    as (w6 & H6 & _).
  unfold bind. by rewrite H4, H5, H6.
Qed.

(** With a positive limit [process_files] returns from some fuel on,
    whatever fails, and drops no entry of the file system. *)
Lemma process_files_total source_folder output_folder max_concurrent w :
  0 < max_concurrent →
  ∃ N w',
    (∀ fuel, (N ≤ fuel)%nat →
       process_files fault fuel source_folder output_folder max_concurrent w
       = (Ok tt, w'))
    ∧ files w ⊆ files w'.
Proof.
  intros Hmc.
  destruct (makedirs fault output_folder w) as [r1 w1] eqn:Hmk.
  pose proof (makedirs_spec _ _ _ _ _ Hmk) as (_ & _ & Hs1 & _ & _ & Hr1).
  destruct Hr1 as [[-> _]|[e ->]].
  2:{ destruct (log_msg_spec ERROR (MsgCritical e) w1) as (w2 & H2 & Hf2 & _).
      exists 0%nat, w2. split; [|by rewrite Hf2].
      intros fuel _. unfold process_files, try_except. unfold bind at 1.
      by rewrite Hmk. }
  destruct (read_folder_spec source_folder w1)
    as (files_found & w2 & Hread & Hf2 & _).
  destruct files_found as [|file_path files_found].
  { destruct (log_msg_spec WARNING MsgNoFiles w2) as (w3 & H3 & Hf3 & _).
    exists 0%nat, w3. split; [|by rewrite Hf3, Hf2].
    intros fuel _. unfold process_files, try_except. unfold bind at 1.
    rewrite Hmk. unfold bind at 1. by rewrite Hread, H3. }
  destruct (gather_total output_folder max_concurrent Hmc
              (file_path :: files_found) w2 w2 ltac:(done))
    as (N & bs & w3 & Hgather & _).
  pose proof (gather_sound _ _ _ _ _ _ _ (Hgather N ltac:(lia)))
    as (Hs3 & _).
  set (results := Returned <$> bs) in *.
  destruct (log_msg_spec INFO
              (MsgDone (successful_of results) (failed_of results)) w3)
    as (w4 & H4 & Hf4 & _).
  destruct (log_msg_spec INFO
              (MsgFolders (size (extensions_of (file_path :: files_found)))) w4)
    as (w5 & H5 & Hf5 & _).
  destruct (log_msg_spec INFO
              (MsgExtensions
                 (merge_sort String.le
                    (elements (extensions_of (file_path :: files_found))))) w5)
    as (w6 & H6 & Hf6 & _).
  exists N, w6. split.
  - intros fuel Hfuel.
    rewrite (process_files_reports fuel _ _ _ w w1 w2 w3 file_path files_found
               results); [|lia|done..|by apply Hgather].
    unfold bind. by rewrite H4, H5, H6.
  - rewrite Hf6, Hf5, Hf4. etrans; [apply Hs1|]. by rewrite <- Hf2.
Qed.

End Batch.

(** ** The claims about single copies *)

Example classify_upper_case : classify ["b.TXT"; "src"] = "txt".
Proof. reflexivity. Qed.

Example classify_trailing_dot : classify ["notes."] = "no_extension".
Proof. reflexivity. Qed.

(** [x.ÀB] has the key [àb]: the letter at U+00C0 goes to U+00E0. *)
Example classify_upper_case_latin1 :
  classify [String "x" (String "." (String (ascii_of_nat 192) "B"))]
  = String (ascii_of_nat 224) "b".
Proof. reflexivity. Qed.

Example stem_suffix_two_dots :
  (PurePath.stem ["a.b.txt"], PurePath.suffix ["a.b.txt"]) = ("a.b", ".txt").
Proof. reflexivity. Qed.

(** X20.  One call of [copy_file] that runs from its start to its end with
    no other call in between, as every call does when the limit is 1.
    Whenever it returns [True], a path that was unused in the subfolder of
    the file's key holds exactly the bytes of the source file, which the
    8192-byte reads and the writes of lines 106-107 moved there in order.
    The call ends from some fuel on whatever fails, and with no fault, the
    output folder in place and a regular source file it returns [True]. *)
Theorem copy_preserves_content
    (fault : io_op → bool) (source_file output_folder : Path) (w : World) :
  (∀ fuel w',
     copy_file fault fuel source_file output_folder w = (Ok true, w') →
     ∃ target_file content,
       lookup_node w source_file = Some (File content)
       ∧ files w' !! target_file = Some (File content)
       ∧ exists_ w target_file = false
       ∧ PurePath.parent target_file = output_folder // classify source_file)
  ∧ (∃ N b w',
       (∀ fuel, (N ≤ fuel)%nat →
          copy_file fault fuel source_file output_folder w = (Ok b, w'))
       ∧ ((∀ op, fault op = false) →
          isdir w output_folder = true →
          isfile w (output_folder // classify source_file) = false →
          isfile w source_file = true →
          b = true)).
Proof.
  split; [|apply copy_file_total].
  intros fuel w' Hcopy.
  apply copy_file_sound in Hcopy as (_ & _ & _ & Hok).
  destruct (Hok eq_refl) as (k & c & Hsrc & Hdst & Hfree & _).
  eexists _, c. split_and!; [done..|]. apply candidate_parent.
Qed.

Lemma copy_preserves_content_witness :
  ∃ w',
    copy_file no_fault 3 ["a.txt"; "src"] ["out"] sample_world = (Ok true, w')
    ∧ ∃ target_file content,
        lookup_node sample_world ["a.txt"; "src"] = Some (File content)
        ∧ files w' !! target_file = Some (File content)
        ∧ exists_ sample_world target_file = false
        ∧ PurePath.parent target_file = ["out"] // classify ["a.txt"; "src"].
Proof.
  eexists. split; [vm_compute; reflexivity|].
  apply (proj1 (copy_preserves_content no_fault ["a.txt"; "src"] ["out"]
                  sample_world) 3%nat).
  vm_compute. reflexivity.
Defined.




(** C6, as the code has it.  The key is a function of the name alone, with
    [archive.tar.gz] going to [gz] and [README] to [no_extension].  A key
    holds no dot, so the key of a key is [no_extension]: applying [classify]
    twice gives the same as applying it once exactly when the key is
    [no_extension], and a third application changes nothing. *)
Theorem classify_twice (p : Path) :
  (∀ dir, classify (dir // "archive.tar.gz") = "gz")
  ∧ (∀ dir, classify (dir // "README") = "no_extension")
  ∧ classify (Path_of_key (classify p)) = "no_extension"
  ∧ (classify (Path_of_key (classify p)) = classify p
     ↔ classify p = "no_extension")
  ∧ classify (Path_of_key (classify (Path_of_key (classify p))))
    = classify (Path_of_key (classify p)).
Proof.
  split_and!; try done.
  - apply classify_of_key.
  - rewrite classify_of_key. split; congruence.
  - by rewrite !classify_of_key.
Qed.

(** C6 as stated fails: the key of [archive.tar.gz] is [gz], and the key of
    [gz] is [no_extension]. *)
Lemma classify_idempotent_counterexample :
  classify (Path_of_key (classify ["archive.tar.gz"]))
  ≠ classify ["archive.tar.gz"].
Proof. vm_compute. discriminate. Qed.



Example dotfile_copied :
  let r := copy_file no_fault 3 [".bashrc"; "src"] ["out"] sample_world in
  r.1 = Ok true
  ∧ files r.2 !! [".bashrc"; "no_extension"; "out"] = Some (File [Byte.x23]).
Proof. vm_compute. done. Qed.

(** ** The claims about the run *)

(** C2.  With a positive limit, whatever fails: from some fuel on [gather]
    returns, with one result per file; the two counts of lines 149-150 are
    not negative and add up to the number of files; and these two counts
    are what [process_files] logs once [gather] has returned.  Whenever
    [gather] returns, with any fuel, it returns one result per file. *)
Theorem one_outcome_per_file
    (fault : io_op → bool) (output_folder : Path) (max_concurrent : Z)
    (tasks : list Path) (w : World) :
  0 < max_concurrent →
  (∃ N results w',
     (∀ fuel, (N ≤ fuel)%nat →
        gather fault fuel output_folder max_concurrent tasks w
        = (Ok results, w'))
     ∧ length results = length tasks
     ∧ successful_of results + failed_of results = Z.of_nat (length tasks)
     ∧ 0 ≤ successful_of results ∧ 0 ≤ failed_of results)
  ∧ (∀ fuel results w',
       gather fault fuel output_folder max_concurrent tasks w
       = (Ok results, w') →
       length results = length tasks
       ∧ successful_of results + failed_of results = Z.of_nat (length tasks))
  ∧ (∀ fuel source_folder w0 w1 results w3,
       tasks ≠ [] →
       makedirs fault output_folder w0 = (Ok tt, w1) →
       read_folder fault source_folder w1 = (Ok tasks, w) →
       gather fault fuel output_folder max_concurrent tasks w
       = (Ok results, w3) →
       process_files fault fuel source_folder output_folder max_concurrent w0
       = (log_msg INFO (MsgDone (successful_of results) (failed_of results)) ;;;
          log_msg INFO (MsgFolders (size (extensions_of tasks))) ;;;
          log_msg INFO
            (MsgExtensions
               (merge_sort String.le (elements (extensions_of tasks))))) w3).
Proof.
  intros Hmc. split_and!.
  - destruct (gather_total fault output_folder max_concurrent Hmc tasks w w
                ltac:(done))
      as (N & bs & w' & Hgather & Hlen & _).
    exists N, (Returned <$> bs), w'.
    destruct (tally_total (Returned <$> bs)) as (Hsum & Hs & Hf).
    rewrite length_fmap in Hsum. rewrite length_fmap.
    split_and!; try done. by rewrite <- Hlen.
  - intros fuel results w' Hgather.
    apply gather_sound in Hgather as (_ & _ & _ & Hok).
    destruct (Hok results eq_refl) as [Hlen _].
    destruct (tally_total results) as (Hsum & _). split; [done|].
    by rewrite <- Hlen.
  - intros fuel source_folder w0 w1 results w3 Hne Hmk Hread Hgather.
    destruct tasks as [|file_path files_found]; [done|].
    by apply (process_files_reports fault fuel _ _ _ w0 w1 w w3);
      [lia|..].
Qed.

Lemma one_outcome_per_file_witness :
  let tasks := [["a.txt"; "src"]; ["b.TXT"; "src"]; ["c"; "src"]] in
  (0 < 2)
  ∧ (∃ N results w',
       (∀ fuel, (N ≤ fuel)%nat →
          gather (unreadable ["c"; "src"]) fuel ["out"] 2 tasks sample_world
          = (Ok results, w'))
       ∧ length results = length tasks
       ∧ successful_of results + failed_of results = Z.of_nat (length tasks)
       ∧ 0 ≤ successful_of results ∧ 0 ≤ failed_of results).
Proof.
  split; [lia|].
  apply (one_outcome_per_file (unreadable ["c"; "src"]) ["out"] 2
           [["a.txt"; "src"]; ["b.TXT"; "src"]; ["c"; "src"]] sample_world).
  lia.
Defined.

Example gather_sample :
  let r := gather (unreadable ["c"; "src"]) 3 ["out"] 2
             [["a.txt"; "src"]; ["b.TXT"; "src"]; ["c"; "src"]] sample_world in
  r.1 = Ok [Returned true; Returned true; Returned false]
  ∧ (successful_of [Returned true; Returned true; Returned false],
     failed_of [Returned true; Returned true; Returned false]) = (2, 1).
Proof. vm_compute. done. Qed.

Example gather_goes_on_after_fault :
  (gather (unreadable ["c"; "src"]) 3 ["out"] 2
     [["c"; "src"]; ["a.txt"; "src"]; ["b.TXT"; "src"]] sample_world).1
  = Ok [Returned false; Returned true; Returned true].
Proof. vm_compute. done. Qed.



(** [process_files] on its own makes the output folder before it looks at
    the source folder (lines 128 and 131); it is the check in [main] that
    keeps the file system untouched. *)
Example process_files_makes_output_first :
  let r := process_files no_fault 0 ["nowhere"] ["out2"] 10 sample_world in
  r.1 = Ok tt
  ∧ files r.2 !! ["out2"] = Some Dir
  ∧ log r.2 = [(ERROR, MsgSourceMissing ["nowhere"]); (WARNING, MsgNoFiles)].
Proof. vm_compute. done. Qed.

(** ** Sample runs with a long file *)

(** Three reads of 8192, 8192 and 3616 bytes and a fourth, empty one: with
    less fuel than four the loop is cut short. *)
Example copy_three_chunks :
  let r := copy_file no_fault 4 ["big.bin"; "src"] ["out"] long_world in
  r.1 = Ok true
  ∧ match files r.2 !! ["big.bin"; "bin"; "out"] with
    | Some (File content) => N.of_nat (length content)
    | _ => 0%N
    end = 20000%N
  ∧ (copy_file no_fault 3 ["big.bin"; "src"] ["out"] long_world).1 = OutOfFuel.
Proof. vm_compute. repeat split. Qed.

(** A read that fails at offset 8192 ends the copy with [False]; the first
    chunk stays in the destination. *)
Example copy_breaks_in_mid_stream :
  let r := copy_file bad_second_chunk 4 ["big.bin"; "src"] ["out"] long_world in
  r.1 = Ok false
  ∧ match files r.2 !! ["big.bin"; "bin"; "out"] with
    | Some (File content) => N.of_nat (length content)
    | _ => 0%N
    end = 8192%N
  ∧ log r.2 = [(ERROR, MsgCopyError ["big.bin"; "src"] OSError)].
Proof. vm_compute. repeat split. Qed.

Lemma bad_second_chunk_faulted :
  always_faulted bad_second_chunk ["out"] ["big.bin"; "src"] long_world.
Proof.
  right. right. right. exists long_content. split; [reflexivity|].
  exists 1%nat. left. split.
  - unfold long_content, CHUNK. rewrite length_replicate. lia.
  - apply bool_decide_eq_true. by rewrite Nat.mul_1_l.
Qed.

(** * Further properties *)

(** ** The log *)

Lemma emitted_singleton lvl0 lvl msg :
  emitted lvl0 [(lvl, msg)]
  = if (level_rank lvl0 <=? level_rank lvl)%nat then [(lvl, msg)] else [].
Proof.
  unfold emitted. rewrite filter_cons, filter_nil. simpl.
  destruct (Nat.leb_spec (level_rank lvl0) (level_rank lvl)).
  - by rewrite decide_True.
  - rewrite decide_False; [done|lia].
Qed.

Lemma emitted_app lvl0 l1 l2 :
  emitted lvl0 (l1 ++ l2) = (emitted lvl0 l1 ++ emitted lvl0 l2)%list.
Proof. apply filter_app. Qed.

Lemma log_msg_emitted lvl msg w :
  ∃ w', log_msg lvl msg w = (Ok tt, w')
        ∧ files w' = files w ∧ log_level w' = log_level w
        ∧ log w' = (log w ++ emitted (log_level w) [(lvl, msg)])%list.
Proof.
  destruct (log_msg_spec lvl msg w) as (w' & H & Hf & Hv & Hl).
  exists w'. split_and!; try done. by rewrite emitted_singleton.
Qed.

Lemma isfile_same_files w w' p : files w' = files w → isfile w' p = isfile w p.
Proof. intros H. unfold isfile, lookup_node. by rewrite H. Qed.


Lemma exists_same_files w w' p : files w' = files w → exists_ w' p = exists_ w p.
Proof. intros H. unfold exists_, lookup_node. by rewrite H. Qed.

(** ** [read_folder] *)

Section ReadFolder.

Variable fault : io_op → bool.

(** The loop of lines 53-56 in general: it stops at the first item the
    walk fails on, returns the regular files before it, and logs one
    [DEBUG] line for each. *)
Lemma read_folder_loop_result : ∀ items files_found w,
  ∃ found e w',
    read_folder_loop fault items files_found w
    = (Ok ((files_found ++ found)%list, e), w')
    ∧ files w' = files w ∧ log_level w' = log_level w
    ∧ log w' = (log w ++ emitted (log_level w)
                           ((λ p, (DEBUG, MsgFound p)) <$> found))%list
    ∧ found `sublist_of` filter (λ p, isfile w p = true) items
    ∧ (e = None ∨ e = Some OSError)
    ∧ ((∀ item, item ∈ items → fault (OpScan item) = false) →
       e = None ∧ found = filter (λ p, isfile w p = true) items)
    ∧ ((∀ item, item ∈ items → fault (OpSkip item) = false) →
       found `prefix_of` filter (λ p, isfile w p = true) items
       ∧ (e = None → found = filter (λ p, isfile w p = true) items)).
Proof.
  induction items as [|item items IH]; intros files_found w;
    cbn [read_folder_loop].
  { exists [], None, w. rewrite app_nil_r. split_and!; try done.
    - by rewrite app_nil_r.
    - by left. }
  destruct (fault (OpScan item)) eqn:Hscan.
  { destruct (fault (OpSkip item)) eqn:Hskip.
    - destruct (IH files_found w)
        as (found & e & w2 & -> & Hf2 & Hv2 & Hl2 & Hsub & He & _ & _).
      exists found, e, w2. split_and!; try done.
      + rewrite filter_cons. destruct (decide _); [by apply sublist_cons|done].
      + intros Hall. rewrite Hall in Hscan; [done|]. by left.
      + intros Hall. rewrite Hall in Hskip; [done|]. by left.
    - exists [], (Some OSError), w. rewrite app_nil_r. split_and!; try done.
      + by rewrite app_nil_r.
      + apply sublist_nil_l.
      + by right.
      + intros Hall. rewrite Hall in Hscan; [done|]. by left.
      + intros _. split; [apply prefix_nil|done]. }
  unfold bind at 1. unfold get_world at 1. rewrite filter_cons.
  destruct (isfile w item) eqn:Hfile.
  - rewrite decide_True by done. unfold bind at 1.
    destruct (log_msg_emitted DEBUG (MsgFound item) w)
      as (w1 & -> & Hf1 & Hv1 & Hl1).
    destruct (IH (files_found ++ [item])%list w1)
      as (found & e & w2 & -> & Hf2 & Hv2 & Hl2 & Hsub & He & Hall & Hnone).
    assert (Hsame : filter (λ p, isfile w1 p = true) items
                    = filter (λ p, isfile w p = true) items).
    { apply list_filter_iff. intros p. by rewrite (isfile_same_files w w1). }
    rewrite Hsame in *.
    exists (item :: found), e, w2. rewrite <- app_assoc. split_and!; try done.
    + congruence.
    + congruence.
    + rewrite Hl2, Hl1, Hv1, <- app_assoc, <- emitted_app. done.
    + by apply sublist_skip.
    + intros Hno. destruct Hall as [-> ->]; [|done].
      intros i Hi. apply Hno. by right.
    + intros Hno. destruct Hnone as [Hpre Hfull].
      { intros i Hi. apply Hno. by right. }
      split; [by apply prefix_cons|]. intros ->. by rewrite (Hfull eq_refl).
  - rewrite decide_False by done.
    destruct (IH files_found w)
      as (found & e & w2 & -> & Hf2 & Hv2 & Hl2 & Hsub & He & Hall & Hnone).
    exists found, e, w2. split_and!; try done.
    + intros Hno. apply Hall. intros i Hi. apply Hno. by right.
    + intros Hno. apply Hnone. intros i Hi. apply Hno. by right.
Qed.

Lemma regular_files_spec w source_path p :
  p ∈ regular_files w source_path
  ↔ isfile w p = true ∧ source_path `suffix_of` p ∧ p ≠ source_path.
Proof.
  unfold regular_files, rglob.
  rewrite !list_elem_of_filter, list_elem_of_fmap. split.
  - intros (Hf & Hbelow & _). done.
  - intros (Hf & Hbelow). split; [done|]. split; [done|].
    destruct (isfile_lookup _ _ Hf) as (c & Hc & _).
    exists (p, File c). split; [done|]. by apply elem_of_map_to_list.
Qed.

Lemma regular_files_NoDup w source_path : NoDup (regular_files w source_path).
Proof.
  unfold regular_files, rglob. do 2 apply NoDup_filter.
  apply NoDup_fst_map_to_list.
Qed.

End ReadFolder.

Lemma emitted_error lvl0 msg : emitted lvl0 [(ERROR, msg)] = [(ERROR, msg)].
Proof. rewrite emitted_singleton. by destruct lvl0. Qed.

Lemma read_folder_full
    (fault : io_op → bool) (source_path : Path) (w : World) :
  isdir w source_path = true →
  (∀ item, fault (OpScan item) = false) →
  ∃ w',
    read_folder fault source_path w = (Ok (regular_files w source_path), w')
    ∧ files w' = files w
    ∧ log w' =
        (log w ++ emitted (log_level w)
           (((λ p, (DEBUG, MsgFound p)) <$> regular_files w source_path)
            ++ [(INFO, MsgFoundCount (length (regular_files w source_path))
                         source_path)]))%list
    ∧ NoDup (regular_files w source_path)
    ∧ ∀ p, p ∈ regular_files w source_path
           ↔ isfile w p = true ∧ source_path `suffix_of` p ∧ p ≠ source_path.
Proof.
  intros Hdir Hscan. unfold read_folder.
  unfold bind at 1. unfold get_world at 1.
  assert (Hex : exists_ w source_path = true).
  { unfold isdir in Hdir. unfold exists_.
    by destruct (lookup_node w source_path). }
  rewrite Hex, Hdir. simpl. unfold bind at 1.
  destruct (read_folder_loop_result fault (rglob w source_path) [] w)
    as (found & e & w1 & -> & Hf1 & Hv1 & Hl1 & _ & _ & Hall & _).
  destruct Hall as [-> ->]; [by intros|]. simpl.
  fold (regular_files w source_path). unfold bind.
  destruct (log_msg_emitted INFO
              (MsgFoundCount (length (regular_files w source_path)) source_path)
              w1) as (w2 & -> & Hf2 & Hv2 & Hl2).
  exists w2. split_and!.
  - done.
  - congruence.
  - by rewrite Hl2, Hl1, Hv1, <- app_assoc, <- emitted_app.
  - apply regular_files_NoDup.
  - apply regular_files_spec.
Qed.



Example read_folder_sample :
  (read_folder no_fault ["src"] sample_world).1
  = Ok [["a.txt"; "src"]; ["c"; "src"]; [".bashrc"; "src"]; ["b.TXT"; "src"]]
  ∧ log (read_folder no_fault ["src"] sample_world).2
    = [(INFO, MsgFoundCount 4 ["src"])].
Proof. vm_compute. done. Qed.

(** X2.  When the source folder is missing or is no directory,
    [read_folder] returns the empty list whatever the environment fails,
    leaves the file system alone and logs one error line, which tells the
    two cases apart. *)
Theorem read_folder_rejects_bad_root
    (fault : io_op → bool) (source_path : Path) (w : World) :
  isdir w source_path = false →
  ∃ w',
    read_folder fault source_path w = (Ok [], w')
    ∧ files w' = files w
    ∧ log w' =
        (log w
         ++ [(ERROR, if exists_ w source_path
                     then MsgNotAFolder source_path
                     else MsgSourceMissing source_path)])%list.
Proof.
  intros Hdir. unfold read_folder.
  unfold bind at 1. unfold get_world at 1.
  destruct (exists_ w source_path); simpl; [rewrite Hdir; simpl|].
  - unfold bind.
    destruct (log_msg_emitted ERROR (MsgNotAFolder source_path) w)
      as (w1 & -> & Hf1 & _ & Hl1).
    exists w1. rewrite emitted_error in Hl1. by split_and!.
  - unfold bind.
    destruct (log_msg_emitted ERROR (MsgSourceMissing source_path) w)
      as (w1 & -> & Hf1 & _ & Hl1).
    exists w1. rewrite emitted_error in Hl1. by split_and!.
Qed.

Lemma read_folder_rejects_bad_root_witness :
  isdir sample_world ["a.txt"; "src"] = false
  ∧ ∃ w',
      read_folder no_fault ["a.txt"; "src"] sample_world = (Ok [], w')
      ∧ files w' = files sample_world
      ∧ log w' = [(ERROR, MsgNotAFolder ["a.txt"; "src"])].
Proof.
  split; [reflexivity|].
  apply (read_folder_rejects_bad_root no_fault ["a.txt"; "src"] sample_world).
  reflexivity.
Defined.

Lemma read_folder_sublist
    (fault : io_op → bool) (source_path : Path) (w : World) :
  ∃ files_found w',
    read_folder fault source_path w = (Ok files_found, w')
    ∧ files w' = files w
    ∧ files_found `sublist_of` regular_files w source_path
    ∧ ((∀ item, fault (OpSkip item) = false) →
       files_found `prefix_of` regular_files w source_path)
    ∧ ∀ p, p ∈ files_found →
           isfile w p = true ∧ source_path `suffix_of` p ∧ p ≠ source_path.
Proof.
  assert (Hgoal : ∃ files_found w',
    read_folder fault source_path w = (Ok files_found, w')
    ∧ files w' = files w
    ∧ files_found `sublist_of` regular_files w source_path
    ∧ ((∀ item, fault (OpSkip item) = false) →
       files_found `prefix_of` regular_files w source_path)).
  { unfold read_folder. unfold bind at 1. unfold get_world at 1.
    destruct (exists_ w source_path); simpl.
    2:{ unfold bind.
        destruct (log_msg_emitted ERROR (MsgSourceMissing source_path) w)
          as (w1 & -> & Hf1 & _).
        exists [], w1.
        split_and!; [done..|apply sublist_nil_l|intros; apply prefix_nil]. }
    destruct (isdir w source_path); simpl.
    2:{ unfold bind.
        destruct (log_msg_emitted ERROR (MsgNotAFolder source_path) w)
          as (w1 & -> & Hf1 & _).
        exists [], w1.
        split_and!; [done..|apply sublist_nil_l|intros; apply prefix_nil]. }
    unfold bind at 1.
    destruct (read_folder_loop_result fault (rglob w source_path) [] w)
      as (found & e & w1 & -> & Hf1 & _ & _ & Hsub & _ & _ & Hpre).
    assert (Hpre' : (∀ item, fault (OpSkip item) = false) →
                    found `prefix_of` regular_files w source_path).
    { intros Hno. by apply Hpre. }
    simpl. destruct e as [e|]; unfold bind.
    - destruct (log_msg_emitted ERROR (MsgReadError source_path e) w1)
        as (w2 & -> & Hf2 & _).
      exists found, w2. split_and!; [done|congruence|done|done].
    - destruct (log_msg_emitted INFO
                  (MsgFoundCount (length found) source_path) w1)
        as (w2 & -> & Hf2 & _).
      exists found, w2. split_and!; [done|congruence|done|done]. }
  destruct Hgoal as (files_found & w' & Hread & Hf & Hsub & Hpre).
  exists files_found, w'. split_and!; try done.
  intros p Hp. apply regular_files_spec. by eapply elem_of_sublist.
Qed.


Example read_folder_stops_at_fault :
  (read_folder (scan_fails_at [".bashrc"; "src"]) ["src"] sample_world).1
  = Ok [["a.txt"; "src"]; ["c"; "src"]]
  ∧ log (read_folder (scan_fails_at [".bashrc"; "src"]) ["src"] sample_world).2
    = [(ERROR, MsgReadError ["src"] OSError)].
Proof. vm_compute. done. Qed.

Example read_folder_goes_on_after_skip :
  (read_folder (scan_skips [".bashrc"; "src"]) ["src"] sample_world).1
  = Ok [["a.txt"; "src"]; ["c"; "src"]; ["b.TXT"; "src"]]
  ∧ log (read_folder (scan_skips [".bashrc"; "src"]) ["src"] sample_world).2
    = [(INFO, MsgFoundCount 3 ["src"])].
Proof. vm_compute. done. Qed.

(** ** What one copy changes *)

Section CopyChanges.

Variable fault : io_op → bool.

Lemma mkdir_exist_ok_changes name w r w' :
  (try_except (mkdir fault name)
     (λ e, if is_OSError e
           then let* w := get_world in
                if isdir w name then ret tt else raise e
           else raise e)) w = (r, w') →
  ∀ p, files w' !! p = files w !! p
       ∨ (files w !! p = None ∧ files w' !! p = Some Dir ∧ p = name
          ∧ fault (OpMkdir p) = false).
Proof.
  unfold try_except.
  destruct (mkdir fault name w) as [r1 w1] eqn:Hmk.
  assert (Hnf : r1 = Ok tt → fault (OpMkdir name) = false).
  { unfold mkdir in Hmk. by destruct (fault (OpMkdir name)); [injection Hmk as <- _|]. }
  apply mkdir_cases in Hmk as [(-> & -> & Hex)|(e & -> & ->)].
  - intros [= <- <-] p. simpl. destruct (decide (name = p)) as [<-|Hp].
    + right. rewrite lookup_insert_eq. split_and!; try done.
      * by apply exists_false_lookup.
      * by apply Hnf.
    + left. by apply lookup_insert_ne.
  - destruct (is_OSError e); [|intros [= <- <-]; by left].
    unfold bind, get_world. destruct (isdir w name);
      intros [= <- <-]; by left.
Qed.

(** [makedirs] adds directories at [name] and above it, where there was
    nothing, and changes nothing else. *)
Lemma makedirs_changes name : ∀ w r w',
  makedirs fault name w = (r, w') →
  ∀ p, files w' !! p = files w !! p
       ∨ (files w !! p = None ∧ files w' !! p = Some Dir ∧ p `suffix_of` name
          ∧ fault (OpMkdir p) = false).
Proof.
  assert (Hlast : ∀ name w r w',
    (try_except (mkdir fault name)
       (λ e, if is_OSError e
             then let* w := get_world in
                  if isdir w name then ret tt else raise e
             else raise e)) w = (r, w') →
    ∀ p, files w' !! p = files w !! p
         ∨ (files w !! p = None ∧ files w' !! p = Some Dir
            ∧ p `suffix_of` name ∧ fault (OpMkdir p) = false)).
  { intros nm w r w' H p.
    destruct (mkdir_exist_ok_changes _ _ _ _ H p) as [?|(? & ? & Hnm & ?)];
      [by left|right]. by rewrite <- Hnm. }
  induction name as [|tl head IH]; intros w r w'; cbn [makedirs].
  { unfold bind at 1. unfold ret at 1. apply Hlast. }
  destruct head as [|hd head'].
  { unfold bind at 1. unfold ret at 1. apply Hlast. }
  unfold bind at 1. unfold bind at 1. unfold get_world at 1.
  destruct (exists_ w (hd :: head')).
  { unfold ret at 1. apply Hlast. }
  unfold try_except at 1.
  destruct (makedirs fault (hd :: head') w) as [r1 w1] eqn:Hrec.
  pose proof (IH _ _ _ Hrec) as Hch1.
  assert (Hup : ∀ p,
    files w1 !! p = files w !! p
    ∨ (files w !! p = None ∧ files w1 !! p = Some Dir
       ∧ p `suffix_of` tl :: hd :: head' ∧ fault (OpMkdir p) = false)).
  { intros p. destruct (Hch1 p) as [?|(? & ? & ? & ?)]; [by left|right].
    split_and!; try done. by apply suffix_cons_r. }
  assert (Hgo : ∀ r w',
    (try_except (mkdir fault (tl :: hd :: head'))
       (λ e, if is_OSError e
             then let* w := get_world in
                  if isdir w (tl :: hd :: head') then ret tt else raise e
             else raise e)) w1 = (r, w') →
    ∀ p, files w' !! p = files w !! p
         ∨ (files w !! p = None ∧ files w' !! p = Some Dir
            ∧ p `suffix_of` tl :: hd :: head' ∧ fault (OpMkdir p) = false)).
  { intros r2 w2 H2 p.
    destruct (Hlast _ _ _ _ H2 p) as [Heq|(Hnone & Hdir & Hsuf & Hnf)].
    - rewrite Heq. apply Hup.
    - right. split_and!; try done.
      destruct (Hup p) as [<-|(? & ? & ?)]; done. }
  destruct r1 as [[]|[]| |]; unfold ret, raise;
    try apply Hgo; intros [= <- <-]; apply Hup.
Qed.

(** However the loop ends, [dst] holds a prefix of the source. *)
Lemma copy_loop_prefix src dst c :
  src ≠ dst →
  ∀ fuel pos w r w',
    lookup_node w src = Some (File c) →
    lookup_node w dst = Some (File (take pos c)) →
    copy_loop fault fuel src dst pos w = (r, w') →
    ∃ n, lookup_node w' dst = Some (File (take n c)).
Proof.
  intros Hne. induction fuel as [|fuel IH]; intros pos w r w' Hsrc Hdst.
  { intros [= <- <-]. eauto. }
  rewrite copy_loop_unfold, (read_file _ _ _ _ _ _ Hsrc).
  destruct (fault (OpRead src pos)); [intros [= <- <-]; eauto|].
  destruct (take CHUNK (drop pos c)) as [|b chunk] eqn:Hchunk;
    [intros [= <- <-]; eauto|].
  rewrite (write_file _ _ _ _ _ Hdst).
  destruct (fault (OpWrite dst _)); [intros [= <- <-]; eauto|].
  pose proof (lookup_file_nonempty _ _ _ Hdst) as Hd.
  destruct dst as [|s dst]; [done|].
  apply IH.
  - by rewrite lookup_node_insert_ne.
  - rewrite lookup_node_insert_eq, <- Hchunk. f_equal. f_equal.
    apply chunk_append.
Qed.

Lemma candidate_not_suffix target_dir desired_name k :
  ¬ candidate target_dir desired_name k `suffix_of` target_dir.
Proof.
  intros H%suffix_length. destruct k; simpl in H; lia.
Qed.

Lemma copy_file_try_changes fuel source_file output_folder w r w' :
  copy_file_try fault fuel source_file output_folder w = (r, w') →
  ∃ k,
    ∀ p,
      files w' !! p = files w !! p
      ∨ (files w !! p = None ∧ files w' !! p = Some Dir
         ∧ p `suffix_of` output_folder // classify source_file
         ∧ fault (OpMkdir p) = false)
      ∨ (p = candidate (output_folder // classify source_file)
               (PurePath.name source_file) k
         ∧ files w !! p = None
         ∧ (∀ i, (i < k)%nat →
              exists_ w (candidate (output_folder // classify source_file)
                           (PurePath.name source_file) i) = true)
         ∧ ∃ c n, lookup_node w source_file = Some (File c)
                  ∧ files w' !! p = Some (File (take n c))).
Proof.
  unfold copy_file_try. unfold bind at 1.
  destruct (makedirs fault _ w) as [r1 w1] eqn:Hmk.
  pose proof (makedirs_changes _ _ _ _ Hmk) as Hch1.
  assert (Hearly : ∃ k : nat, ∀ p,
    files w1 !! p = files w !! p
    ∨ (files w !! p = None ∧ files w1 !! p = Some Dir
       ∧ p `suffix_of` output_folder // classify source_file
       ∧ fault (OpMkdir p) = false)
    ∨ (p = candidate (output_folder // classify source_file)
             (PurePath.name source_file) k
       ∧ files w !! p = None
       ∧ (∀ i, (i < k)%nat →
            exists_ w (candidate (output_folder // classify source_file)
                         (PurePath.name source_file) i) = true)
       ∧ ∃ c n, lookup_node w source_file = Some (File c)
                ∧ files w1 !! p = Some (File (take n c)))).
  { exists 0%nat. intros p. destruct (Hch1 p) as [?|?]; [by left|by right; left]. }
  destruct r1 as [[]|e| |]; try (intros [= <- <-]; exact Hearly).
  unfold bind at 1. unfold get_world at 1.
  destruct (resolve_target _ _ _ _ _ _) as [t|] eqn:Hres;
    [|intros [= <- <-]; exact Hearly].
  apply resolve_target_sound in Hres as (k & _ & Ht & Hfree & Hbusy).
  rewrite examined_candidate in Ht.
  unfold bind at 1.
  destruct (open_rb fault source_file w1) as [r2 w2] eqn:Hrb.
  apply open_rb_cases in Hrb as [-> [[-> Hfile]|[e ->]]];
    [|intros [= <- <-]; exact Hearly].
  apply isfile_lookup in Hfile as (c & Hc & Hsrc).
  unfold bind at 1.
  destruct (open_wb fault t w1) as [r3 w3] eqn:Hwb.
  apply open_wb_cases in Hwb as [(-> & -> & _ & _)|(e & -> & ->)];
    [|intros [= <- <-]; exact Hearly].
  clear Hearly.
  pose proof (exists_false_lookup _ _ Hfree) as Hnone.
  assert (Hne : source_file ≠ t) by congruence.
  assert (Ht0 : t ≠ []) by (by rewrite Ht; destruct k).
  destruct t as [|s t]; [done|].
  assert (Hc0 : lookup_node w source_file = Some (File c)).
  { destruct source_file as [|x source_file]; [done|].
    rewrite lookup_node_cons.
    destruct (Hch1 (x :: source_file)) as [Heq|(_ & Hd & _)]; congruence. }
  unfold bind at 1.
  destruct (copy_loop fault fuel source_file (s :: t) 0 _) as [r4 w4] eqn:Hloop.
  assert (Hsrc2 : lookup_node (set_files (insert (s :: t) (File [])) w1)
                    source_file = Some (File c)).
  { rewrite lookup_node_insert_ne by done.
    destruct source_file; [done|]. by rewrite lookup_node_cons. }
  assert (Hdst2 : lookup_node (set_files (insert (s :: t) (File [])) w1) (s :: t)
                  = Some (File (take 0 c))).
  { by rewrite lookup_node_insert_eq. }
  pose proof (copy_loop_prefix _ _ c Hne _ _ _ _ _ Hsrc2 Hdst2 Hloop)
    as [n Hpre].
  pose proof (copy_loop_sound _ _ _ c Hne _ _ _ _ _ Hsrc2 Hdst2 Hloop)
    as (_ & _ & Hfr4 & _).
  assert (Hlate : ∀ w5, files w5 = files w4 → ∃ k : nat, ∀ p,
    files w5 !! p = files w !! p
    ∨ (files w !! p = None ∧ files w5 !! p = Some Dir
       ∧ p `suffix_of` output_folder // classify source_file
       ∧ fault (OpMkdir p) = false)
    ∨ (p = candidate (output_folder // classify source_file)
             (PurePath.name source_file) k
       ∧ files w !! p = None
       ∧ (∀ i, (i < k)%nat →
            exists_ w (candidate (output_folder // classify source_file)
                         (PurePath.name source_file) i) = true)
       ∧ ∃ c n, lookup_node w source_file = Some (File c)
                ∧ files w5 !! p = Some (File (take n c)))).
  { intros w5 ->. exists k. intros p.
    destruct (decide (p = s :: t)) as [->|Hp].
    - right. right. rewrite <- Ht. split_and!; [done| | |].
      + destruct (Hch1 (s :: t)) as [<-|(? & _)]; done.
      + intros i Hi. rewrite <- (Hbusy i Hi), examined_candidate.
        symmetry. apply exists_agree.
        destruct (Hch1 (candidate (output_folder // classify source_file)
                          (PurePath.name source_file) i))
          as [Heq|(_ & _ & Hsuf & _)]; [done|].
        by apply candidate_not_suffix in Hsuf.
      + exists c, n. split; [done|]. by rewrite lookup_node_cons in Hpre.
    - rewrite (Hfr4 p Hp). simpl. rewrite lookup_insert_ne by done.
      destruct (Hch1 p) as [?|?]; [by left|by right; left]. }
  destruct r4 as [[]|e| |]; try (intros [= <- <-]; by apply Hlate).
  unfold bind at 1.
  destruct (log_msg_spec INFO (MsgCopied source_file (s :: t)) w4)
    as (w5 & -> & Hf5 & _).
  unfold ret. intros [= <- <-]. by apply Hlate.
Qed.

Lemma copy_file_changes fuel source_file output_folder w r w' :
  copy_file fault fuel source_file output_folder w = (r, w') →
  ∃ k,
    ∀ p,
      files w' !! p = files w !! p
      ∨ (files w !! p = None ∧ files w' !! p = Some Dir
         ∧ p `suffix_of` output_folder // classify source_file
         ∧ fault (OpMkdir p) = false)
      ∨ (p = candidate (output_folder // classify source_file)
               (PurePath.name source_file) k
         ∧ files w !! p = None
         ∧ (∀ i, (i < k)%nat →
              exists_ w (candidate (output_folder // classify source_file)
                           (PurePath.name source_file) i) = true)
         ∧ ∃ c n, lookup_node w source_file = Some (File c)
                  ∧ files w' !! p = Some (File (take n c))).
Proof.
  unfold copy_file, try_except.
  destruct (copy_file_try fault fuel source_file output_folder w)
    as [r1 w1] eqn:Htry.
  apply copy_file_try_changes in Htry as [k Hk].
  destruct r1 as [b|e| |]; try (intros [= <- <-]; by exists k).
  unfold bind at 1.
  destruct (log_msg_spec ERROR (MsgCopyError source_file e) w1)
    as (w2 & -> & Hf2 & _).
  unfold ret. intros [= <- <-]. exists k. by rewrite Hf2.
Qed.

End CopyChanges.


Lemma classify_by_name p q :
  PurePath.name p = PurePath.name q → classify p = classify q.
Proof. unfold classify, PurePath.suffix, PurePath.stem. by intros ->. Qed.

(** X5.  Two files of the same name, copied one after the other into an
    output folder where neither [name] nor [{stem}_1{ext}] is taken: the
    first lands at [key/name], the second at [key/{stem}_1{ext}], and both
    are there afterwards, each with its own bytes. *)
Theorem same_name_second_copy_is_numbered
    (fault1 fault2 : io_op → bool) (fuel1 fuel2 : nat)
    (first second output_folder : Path) (w w1 w2 : World) :
  PurePath.name second = PurePath.name first →
  exists_ w (candidate (output_folder // classify first)
               (PurePath.name first) 0) = false →
  exists_ w (candidate (output_folder // classify first)
               (PurePath.name first) 1) = false →
  copy_file fault1 fuel1 first output_folder w = (Ok true, w1) →
  copy_file fault2 fuel2 second output_folder w1 = (Ok true, w2) →
  ∃ c1 c2,
    lookup_node w first = Some (File c1)
    ∧ lookup_node w1 second = Some (File c2)
    ∧ files w2 !! candidate (output_folder // classify first)
                    (PurePath.name first) 0 = Some (File c1)
    ∧ files w2 !! candidate (output_folder // classify first)
                    (PurePath.name first) 1 = Some (File c2).
Proof.
  intros Hname Hfree0 Hfree1 Hcopy1 Hcopy2.
  set (dir := output_folder // classify first) in *.
  set (nm := PurePath.name first) in *.
  pose proof (copy_file_changes _ _ _ _ _ _ _ Hcopy1) as [k1' Hch1].
  pose proof (copy_file_sound _ _ _ _ _ _ _ Hcopy1) as (_ & _ & _ & Hok1).
  destruct (Hok1 eq_refl) as (k1 & c1 & Hsrc1 & Hdst1 & _ & Hbusy1 & _).
  fold dir nm in Hdst1, Hbusy1, Hch1.
  assert (k1 = 0%nat) as ->.
  { destruct k1 as [|k1]; [done|].
    specialize (Hbusy1 0%nat ltac:(lia)). congruence. }
  pose proof (copy_file_sound _ _ _ _ _ _ _ Hcopy2) as (Hsub2 & _ & _ & Hok2).
  destruct (Hok2 eq_refl) as (k2 & c2 & Hsrc2 & Hdst2 & Hfree2 & Hbusy2 & _).
  rewrite (classify_by_name second first Hname), Hname in Hdst2, Hfree2, Hbusy2.
  fold dir nm in Hdst2, Hfree2, Hbusy2.
  assert (Hone : exists_ w1 (candidate dir nm 1) = false).
  { rewrite <- Hfree1. apply exists_agree.
    destruct (Hch1 (candidate dir nm 1))
      as [Heq|[(_ & _ & Hsuf & _)|(Hk & _ & Hbusy & _)]]; [done|..].
    - by apply candidate_not_suffix in Hsuf.
    - apply candidate_inj in Hk as <-.
      specialize (Hbusy 0%nat ltac:(lia)). congruence. }
  assert (Hzero : exists_ w1 (candidate dir nm 0) = true).
  { unfold exists_. simpl. simpl in Hdst1. by rewrite Hdst1. }
  assert (k2 = 1%nat) as ->.
  { destruct k2 as [|[|k2]]; [congruence|done|].
    specialize (Hbusy2 1%nat ltac:(lia)). congruence. }
  exists c1, c2. split_and!; try done.
  by eapply lookup_weaken.
Qed.

Lemma same_name_second_copy_is_numbered_witness :
  ∃ w1 w2 c1 c2,
    copy_file no_fault 3 ["x.txt"; "a"; "src"] ["out"] twin_world = (Ok true, w1)
    ∧ copy_file no_fault 3 ["x.txt"; "b"; "src"] ["out"] w1 = (Ok true, w2)
    ∧ candidate (["out"] // classify ["x.txt"; "a"; "src"])
        (PurePath.name ["x.txt"; "a"; "src"]) 1 = ["x_1.txt"; "txt"; "out"]
    ∧ lookup_node twin_world ["x.txt"; "a"; "src"] = Some (File c1)
    ∧ lookup_node w1 ["x.txt"; "b"; "src"] = Some (File c2)
    ∧ files w2 !! candidate (["out"] // classify ["x.txt"; "a"; "src"])
                    (PurePath.name ["x.txt"; "a"; "src"]) 0 = Some (File c1)
    ∧ files w2 !! candidate (["out"] // classify ["x.txt"; "a"; "src"])
                    (PurePath.name ["x.txt"; "a"; "src"]) 1 = Some (File c2).
Proof.
  eexists _, _.
  assert (H1 : copy_file no_fault 3 ["x.txt"; "a"; "src"] ["out"] twin_world
               = (Ok true,
                  (copy_file no_fault 3 ["x.txt"; "a"; "src"] ["out"]
                     twin_world).2))
    by (vm_compute; reflexivity).
  assert (H2 : copy_file no_fault 3 ["x.txt"; "b"; "src"] ["out"]
                 (copy_file no_fault 3 ["x.txt"; "a"; "src"] ["out"]
                    twin_world).2
               = (Ok true,
                  (copy_file no_fault 3 ["x.txt"; "b"; "src"] ["out"]
                     (copy_file no_fault 3 ["x.txt"; "a"; "src"] ["out"]
                        twin_world).2).2))
    by (vm_compute; reflexivity).
  destruct (same_name_second_copy_is_numbered no_fault no_fault 3 3
              ["x.txt"; "a"; "src"] ["x.txt"; "b"; "src"] ["out"]
              twin_world _ _ eq_refl eq_refl eq_refl H1 H2)
    as (c1 & c2 & Ha & Hb & Hc & Hd).
  exists c1, c2. split_and!; done.
Defined.

(** ** Names *)

Module NameFacts.
Import Str.

Lemma app_assoc s t u : (s +:+ t) +:+ u = s +:+ (t +:+ u).
Proof.
  induction s as [|a s IH]; [done|].
  by rewrite !StrFacts.app_cons, IH.
Qed.

(** The last [c] of [a ++ c ++ rest], when [rest] holds none, is at [len a]. *)
Lemma rfind_app_last c a rest :
  mem c rest = false → rfind c (a +:+ String c rest) = len a.
Proof.
  intros Hrest. unfold len. induction a as [|x a IH].
  - rewrite StrFacts.app_nil_l. simpl.
    rewrite (StrFacts.rfind_absent _ _ Hrest). simpl.
    by rewrite Ascii.eqb_refl.
  - rewrite StrFacts.app_cons. cbn [rfind]. rewrite IH.
    destruct (Z.leb_spec 0 (Z.of_nat (String.length a))); [|lia].
    simpl String.length. lia.
Qed.

Lemma drop_app a s : drop (String.length a) (a +:+ s) = s.
Proof. induction a as [|x a IH]; [done|]. by rewrite StrFacts.app_cons. Qed.

Lemma length_drop n s :
  String.length (drop n s) = (String.length s - n)%nat.
Proof.
  revert s. induction n as [|n IH]; intros [|a s]; simpl; done.
Qed.

Lemma length_lower s : String.length (lower s) = String.length s.
Proof. induction s as [|a s IH]; [done|]. simpl. by rewrite IH. Qed.

Lemma lower_char_dot_iff a : Ascii.eqb (lower_char a) dot = Ascii.eqb a dot.
Proof. destruct a as [[] [] [] [] [] [] [] []]; reflexivity. Qed.

Lemma rfind_lower s : rfind dot (lower s) = rfind dot s.
Proof.
  induction s as [|a s IH]; [done|]. simpl.
  by rewrite IH, lower_char_dot_iff.
Qed.

Lemma drop_lower n s : drop n (lower s) = lower (drop n s).
Proof. revert s. induction n as [|n IH]; intros [|a s]; simpl; try done. Qed.

End NameFacts.

(** A suffix has a character after its dot. *)
Lemma has_suffix_shape nm :
  PurePath.has_suffix nm = true →
  ∃ a rest,
    Str.drop (Z.to_nat (Str.rfind dot nm)) nm = String dot (String a rest)
    ∧ Str.mem dot (String a rest) = false.
Proof.
  unfold PurePath.has_suffix. intros [Hpos Hlt]%andb_true_iff.
  apply Z.ltb_lt in Hpos, Hlt.
  destruct (StrFacts.rfind_drop dot nm ltac:(lia)) as (rest & Hdrop & Hmem).
  pose proof (NameFacts.length_drop (Z.to_nat (Str.rfind dot nm)) nm) as Hlen.
  rewrite Hdrop in Hlen. unfold Str.len in Hlt. simpl in Hlen.
  destruct rest as [|a rest]; [simpl in Hlen; lia|].
  by exists a, rest.
Qed.

(** X6.  A file that has an extension keeps it when it is renamed: every
    candidate [{stem}_{counter}{ext}] has the suffix of the desired name,
    so the key of the renamed file is the key of the original. *)
Theorem renamed_copy_keeps_extension
    (target_dir : Path) (desired_name : string) (k : nat) :
  PurePath.has_suffix desired_name = true →
  PurePath.suffix (candidate target_dir desired_name k)
  = PurePath.suffix (target_dir // desired_name)
  ∧ classify (candidate target_dir desired_name k)
    = classify (target_dir // desired_name).
Proof.
  intros Hsuf.
  assert (Hgoal : PurePath.suffix (candidate target_dir desired_name k)
                  = PurePath.suffix (target_dir // desired_name)).
  { destruct k as [|k]; [done|].
    destruct (has_suffix_shape _ Hsuf) as (a & rest & Hdrop & Hmem).
    assert (Hs : PurePath.suffix (target_dir // desired_name)
                 = String dot (String a rest)).
    { unfold PurePath.suffix. simpl. by rewrite Hsuf. }
    unfold candidate. rewrite Hs.
    set (stem := PurePath.stem (target_dir // desired_name)).
    set (front := stem +:+ "_" +:+ pretty (S k)).
    assert (Hname : stem +:+ "_" +:+ pretty (S k) +:+ String dot (String a rest)
                    = front +:+ String dot (String a rest)).
    { unfold front. by rewrite !NameFacts.app_assoc. }
    rewrite Hname. unfold PurePath.suffix, PurePath.has_suffix. simpl.
    rewrite (NameFacts.rfind_app_last _ _ _ Hmem).
    assert (Hfront : (0 < String.length front)%nat).
    { unfold front. rewrite !StrFacts.length_app. simpl. lia. }
    unfold Str.len. rewrite StrFacts.length_app. simpl String.length.
    destruct (Z.ltb_spec 0 (Z.of_nat (String.length front))); [|lia].
    destruct (Z.ltb_spec (Z.of_nat (String.length front))
                (Z.of_nat (String.length front + S (S (String.length rest))) - 1));
      [|lia].
    simpl. rewrite Nat2Z.id. apply NameFacts.drop_app. }
  split; [done|]. unfold classify. by rewrite Hgoal.
Qed.

Lemma renamed_copy_keeps_extension_witness :
  PurePath.has_suffix "report.final.PDF" = true
  ∧ candidate ["pdf"; "out"] "report.final.PDF" 12
    = ["report.final_12.PDF"; "pdf"; "out"]
  ∧ PurePath.suffix (candidate ["pdf"; "out"] "report.final.PDF" 12)
    = PurePath.suffix (["pdf"; "out"] // "report.final.PDF")
  ∧ classify (candidate ["pdf"; "out"] "report.final.PDF" 12)
    = classify (["pdf"; "out"] // "report.final.PDF").
Proof.
  split; [reflexivity|]. split; [reflexivity|].
  apply (renamed_copy_keeps_extension ["pdf"; "out"] "report.final.PDF" 12).
  reflexivity.
Defined.

(** Without an extension the renamed file can get one: [notes.] becomes
    [notes._1], whose suffix is [._1]. *)
Example renamed_copy_without_extension :
  PurePath.suffix (["no_extension"; "out"] // "notes.") = ""
  ∧ candidate ["no_extension"; "out"] "notes." 1
    = ["notes._1"; "no_extension"; "out"]
  ∧ PurePath.suffix (candidate ["no_extension"; "out"] "notes." 1) = "._1".
Proof. vm_compute. done. Qed.

(** X7.  For names over the characters below U+0100, which are the names
    of this model: the key does not depend on letter case or on the folder.
    Two files whose names are equal once lower-cased get the same key,
    which is lower-cased, holds no dot and is not empty. *)
Theorem classify_ignores_case (p q : Path) :
  Str.lower (PurePath.name p) = Str.lower (PurePath.name q) →
  classify p = classify q
  ∧ Str.lower (classify p) = classify p
  ∧ Str.mem dot (classify p) = false
  ∧ classify p ≠ "".
Proof.
  intros Hlow.
  assert (Hkey : ∀ r, classify r = classify [Str.lower (PurePath.name r)]).
  { intros r. unfold classify, PurePath.suffix, PurePath.has_suffix. simpl.
    unfold Str.len.
    rewrite NameFacts.rfind_lower, NameFacts.length_lower.
    destruct (_ && _); [|done].
    by rewrite NameFacts.drop_lower, StrFacts.lower_idemp. }
  split_and!.
  - by rewrite (Hkey p), (Hkey q), Hlow.
  - apply classify_lower.
  - apply classify_no_dot.
  - unfold classify. by destruct (Str.lstrip dot _).
Qed.

Lemma classify_ignores_case_witness :
  Str.lower (PurePath.name ["Photo.JPG"; "a"])
  = Str.lower (PurePath.name ["photo.jpg"; "b"; "c"])
  ∧ classify ["Photo.JPG"; "a"] = classify ["photo.jpg"; "b"; "c"]
  ∧ Str.lower (classify ["Photo.JPG"; "a"]) = classify ["Photo.JPG"; "a"]
  ∧ Str.mem dot (classify ["Photo.JPG"; "a"]) = false
  ∧ classify ["Photo.JPG"; "a"] ≠ "".
Proof.
  split; [reflexivity|].
  apply (classify_ignores_case ["Photo.JPG"; "a"] ["photo.jpg"; "b"; "c"]).
  reflexivity.
Defined.

(** ** A batch without faults *)

Section FaultFree.

Variable fault : io_op → bool.
Hypothesis no_faults : ∀ op, fault op = false.

Lemma isdir_weaken w w' p :
  files w ⊆ files w' → isdir w p = true → isdir w' p = true.
Proof.
  intros Hsub. unfold isdir, lookup_node. destruct p as [|s p]; [done|].
  destruct (files w !! (s :: p)) as [[]|] eqn:E; try done.
  by rewrite (lookup_weaken _ _ _ _ E Hsub).
Qed.

(** A copy puts no regular file right inside the output folder. *)
Lemma copy_file_keeps_keys_free fuel source_file output_folder w r w' :
  copy_file fault fuel source_file output_folder w = (r, w') →
  (∀ key, isfile w (output_folder // key) = false) →
  ∀ key, isfile w' (output_folder // key) = false.
Proof.
  intros Hcopy Hfree key. apply copy_file_changes in Hcopy as [k Hch].
  specialize (Hfree key). unfold isfile in *.
  unfold PurePath.joinpath in *. rewrite lookup_node_cons in *.
  destruct (Hch (key :: output_folder)) as [->|[(_ & -> & _)|(Hk & _)]];
    [done|done|].
  apply (f_equal length) in Hk. destruct k; simpl in Hk; lia.
Qed.

(** Every task a regular file, the output folder a directory with no
    regular file right inside it: all the copies return [True], and each
    file's bytes are at a path that was unused, in the subfolder of its
    key. *)
Lemma gather_all_copied output_folder semaphore :
  0 < semaphore →
  ∀ tasks w,
    isdir w output_folder = true →
    (∀ key, isfile w (output_folder // key) = false) →
    (∀ file_path, file_path ∈ tasks → isfile w file_path = true) →
    ∃ N w',
      (∀ fuel, (N ≤ fuel)%nat →
         gather fault fuel output_folder semaphore tasks w
         = (Ok ((λ _, Returned true) <$> tasks), w'))
      ∧ files w ⊆ files w'
      ∧ ∀ file_path, file_path ∈ tasks →
          ∃ target_file content,
            files w !! file_path = Some (File content)
            ∧ files w !! target_file = None
            ∧ files w' !! target_file = Some (File content)
            ∧ PurePath.parent target_file
              = output_folder // classify file_path.
Proof.
  intros Hsem. induction tasks as [|f tasks IH]; intros w Hout Hkeys Hfiles.
  { exists 0%nat, w. split_and!; try done. intros f Hf. by apply elem_of_nil in Hf. }
  destruct (copy_file_total fault f output_folder w)
    as (N1 & b & w1 & H1 & Hlive).
  assert (b = true) as ->.
  { apply Hlive; [done..| |].
    - apply Hkeys.
    - apply Hfiles. by left. }
  pose proof (copy_file_sound _ _ _ _ _ _ _ (H1 N1 ltac:(lia)))
    as (Hsub1 & _ & _ & Hok1).
  destruct (Hok1 eq_refl) as (k & c & Hsrc & Hdst & Hfree & _).
  destruct (IH w1) as (N2 & w2 & H2 & Hsub2 & Hall2).
  - by eapply isdir_weaken.
  - by eapply copy_file_keeps_keys_free; [apply (H1 N1); lia|].
  - intros f' Hf'. eapply isfile_weaken; [done|]. apply Hfiles. by right.
  - exists (N1 `max` N2)%nat, w2. split_and!.
    + intros fuel Hfuel. cbn [gather]. unfold copy_with_semaphore.
      destruct (Z.leb_spec semaphore 0); [lia|].
      rewrite H1 by lia. unfold bind. by rewrite H2 by lia.
    + by etrans.
    + intros f' [->|Hf']%elem_of_cons.
      * exists (candidate (output_folder // classify f) (PurePath.name f) k), c.
        split_and!.
        -- destruct (isfile_lookup _ _ (Hfiles f ltac:(by left)))
             as (c' & Hc' & Hne).
           destruct f; [done|]. rewrite lookup_node_cons in Hsrc. done.
        -- by apply exists_false_lookup.
        -- by eapply lookup_weaken.
        -- apply candidate_parent.
      * destruct (Hall2 f' Hf') as (t & c' & Hf1 & Ht1 & Ht2 & Hpar).
        exists t, c'. split_and!; try done.
        -- destruct (isfile_lookup _ _ (Hfiles f' ltac:(by right)))
             as (c0 & Hc0 & _).
           pose proof (lookup_weaken _ _ _ _ Hc0 Hsub1). congruence.
        -- destruct (files w !! t) eqn:E; [|done].
           pose proof (lookup_weaken _ _ _ _ E Hsub1). congruence.
Qed.

End FaultFree.

(** X8.  The copies run one after the other in the order of the list, as
    [gather] has them (with a limit of 1 no other order is there).  In an
    environment that fails nothing, with a positive limit, when every task
    is a regular file and the output folder is a directory with no regular
    file right inside it: from some fuel on every copy of the batch returns
    [True], nothing that was there is lost, and the bytes of each file are
    at a path that was unused before, in the subfolder of the file's key. *)
Theorem fault_free_batch_copies_every_file
    (fault : io_op → bool) (output_folder : Path) (max_concurrent : Z)
    (tasks : list Path) (w : World) :
  (∀ op, fault op = false) →
  0 < max_concurrent →
  isdir w output_folder = true →
  (∀ key, isfile w (output_folder // key) = false) →
  (∀ file_path, file_path ∈ tasks → isfile w file_path = true) →
  ∃ N w',
    (∀ fuel, (N ≤ fuel)%nat →
       gather fault fuel output_folder max_concurrent tasks w
       = (Ok ((λ _, Returned true) <$> tasks), w'))
    ∧ files w ⊆ files w'
    ∧ ∀ file_path, file_path ∈ tasks →
        ∃ target_file content,
          files w !! file_path = Some (File content)
          ∧ files w !! target_file = None
          ∧ files w' !! target_file = Some (File content)
          ∧ PurePath.parent target_file = output_folder // classify file_path.
Proof. intros. by apply gather_all_copied. Qed.

Lemma fault_free_batch_copies_every_file_witness :
  let tasks := [["x.txt"; "a"; "src"]; ["x.txt"; "b"; "src"]] in
  ∃ N w',
    (∀ fuel, (N ≤ fuel)%nat →
       gather no_fault fuel ["out"] 1 tasks twin_world
       = (Ok ((λ _, Returned true) <$> tasks), w'))
    ∧ files twin_world ⊆ files w'
    ∧ ∀ file_path, file_path ∈ tasks →
        ∃ target_file content,
          files twin_world !! file_path = Some (File content)
          ∧ files twin_world !! target_file = None
          ∧ files w' !! target_file = Some (File content)
          ∧ PurePath.parent target_file = ["out"] // classify file_path.
Proof.
  apply (fault_free_batch_copies_every_file no_fault ["out"] 1
           [["x.txt"; "a"; "src"]; ["x.txt"; "b"; "src"]] twin_world).
  - by intros.
  - lia.
  - reflexivity.
  - intros key. unfold isfile, lookup_node, PurePath.joinpath.
    destruct (files twin_world !! [key; "out"]) as [[c|]|] eqn:E; [|done..].
    exfalso. revert E. unfold twin_world, twin_files. simpl.
    rewrite !lookup_insert_ne by done. by rewrite lookup_empty.
  - intros f [->|[->|H]%elem_of_cons]%elem_of_cons; [reflexivity..|].
    by apply elem_of_nil in H.
Defined.

Example twin_batch :
  let r := gather no_fault 3 ["out"] 1
             [["x.txt"; "a"; "src"]; ["x.txt"; "b"; "src"]] twin_world in
  r.1 = Ok [Returned true; Returned true]
  ∧ files r.2 !! ["x.txt"; "txt"; "out"] = Some (File [Byte.x61])
  ∧ files r.2 !! ["x_1.txt"; "txt"; "out"] = Some (File [Byte.x62]).
Proof. vm_compute. done. Qed.

(** ** [process_files] at its edges *)

Section ProcessEdges.

Variable fault : io_op → bool.

(** [makedirs] on a path that is a regular file raises and changes
    nothing. *)
Lemma makedirs_on_file name w :
  isfile w name = true →
  isdir w (PurePath.parent name) = true →
  ∃ e, makedirs fault name w = (Raise e, w) ∧ is_OSError e = true.
Proof.
  intros Hfile Hpar.
  assert (Hnd : isdir w name = false).
  { unfold isfile in Hfile. unfold isdir.
    by destruct (lookup_node w name) as [[]|]. }
  assert (Hex : exists_ w name = true).
  { unfold isfile in Hfile. unfold exists_.
    by destruct (lookup_node w name) as [[]|]. }
  assert (Hlast : ∃ e,
    (try_except (mkdir fault name)
       (λ e, if is_OSError e
             then let* w := get_world in
                  if isdir w name then ret tt else raise e
             else raise e)) w = (Raise e, w) ∧ is_OSError e = true).
  { unfold try_except, mkdir. destruct (fault (OpMkdir name)).
    - exists OSError. cbn [is_OSError]. unfold bind, get_world.
      by rewrite Hnd.
    - rewrite Hpar, Hex. simpl. exists FileExistsError.
      unfold bind, get_world. by rewrite Hnd. }
  destruct name as [|tl head]; cbn [makedirs]; [|destruct head as [|hd head']];
    unfold bind at 1.
  - unfold ret at 1. done.
  - unfold ret at 1. done.
  - unfold bind at 1. unfold get_world at 1.
    assert (Hhead : exists_ w (hd :: head') = true).
    { simpl in Hpar. unfold isdir in Hpar. unfold exists_.
      by destruct (lookup_node w (hd :: head')). }
    rewrite Hhead. unfold ret at 1. done.
Qed.

(** What [makedirs] and [read_folder] leave for the rest of
    [process_files]. *)
Lemma process_files_start source_folder output_folder w :
  ∃ r1 w1,
    makedirs fault output_folder w = (r1, w1)
    ∧ log w1 = log w ∧ log_level w1 = log_level w
    ∧ files w ⊆ files w1
    ∧ (∀ p, files w1 !! p = files w !! p
            ∨ (files w !! p = None ∧ files w1 !! p = Some Dir
               ∧ p `suffix_of` output_folder))
    ∧ ((∃ e, r1 = Raise e)
       ∨ (r1 = Ok tt
          ∧ ∃ tasks w2,
              read_folder fault source_folder w1 = (Ok tasks, w2)
              ∧ files w2 = files w1 ∧ log_level w2 = log_level w
              ∧ tasks `sublist_of` regular_files w1 source_folder
              ∧ (isdir w source_folder = true →
                 (∀ item, fault (OpScan item) = false) →
                 tasks = regular_files w1 source_folder))).
Proof.
  destruct (makedirs fault output_folder w) as [r1 w1] eqn:Hmk.
  pose proof (makedirs_spec _ _ _ _ _ Hmk) as (Hl1 & Hv1 & Hs1 & _ & _ & Hr1).
  assert (Hch1 : ∀ p, files w1 !! p = files w !! p
            ∨ (files w !! p = None ∧ files w1 !! p = Some Dir
               ∧ p `suffix_of` output_folder)).
  { intros p.
    destruct (makedirs_changes _ _ _ _ _ Hmk p) as [?|(? & ? & ? & _)]; auto. }
  exists r1, w1. split_and!; try done.
  destruct Hr1 as [[-> _]|[e ->]]; [right|left; eauto].
  split; [done|].
  destruct (read_folder_spec fault source_folder w1)
    as (tasks & w2 & Hread & Hf2 & Hv2 & _).
  destruct (read_folder_sublist fault source_folder w1)
    as (tasks' & w2' & Hread' & _ & Hpre & _).
  rewrite Hread in Hread'. injection Hread' as <- <-.
  exists tasks, w2. split_and!; try done; [congruence|].
  intros Hdir Hscan.
  destruct (read_folder_full fault source_folder w1) as (w3 & Hread3 & _);
    [by eapply isdir_weaken|done|].
  congruence.
Qed.



(** A regular file below the source folder, a walk that does not fail and
    an output folder that can be made: [read_folder] hands a list that is
    not empty to the rest of [process_files]. *)
Lemma process_files_with_files source_folder output_folder w file_path :
  (makedirs fault output_folder w).1 = Ok tt →
  isdir w source_folder = true →
  (∀ item, fault (OpScan item) = false) →
  isfile w file_path = true →
  source_folder `suffix_of` file_path →
  file_path ≠ source_folder →
  ∃ w1 task tasks w2,
    makedirs fault output_folder w = (Ok tt, w1)
    ∧ read_folder fault source_folder w1 = (Ok (task :: tasks), w2)
    ∧ files w2 = files w1 ∧ log_level w2 = log_level w.
Proof.
  intros Hok Hdir Hscan Hfile Hbelow Hne.
  destruct (process_files_start source_folder output_folder w)
    as (r1 & w1 & Hmk & Hl1 & Hv1 & Hs1 & Hch1 & Hrest).
  rewrite Hmk in Hok. simpl in Hok. subst r1.
  destruct Hrest as [[e ?]|(_ & tasks & w2 & Hread & Hf2 & Hv2 & _ & Hfull)];
    [done|].
  specialize (Hfull Hdir Hscan).
  assert (Hin : file_path ∈ tasks).
  { rewrite Hfull. apply regular_files_spec. split_and!; try done.
    by eapply isfile_weaken. }
  destruct tasks as [|task tasks]; [by apply elem_of_nil in Hin|].
  by exists w1, task, tasks, w2.
Qed.

End ProcessEdges.



Example empty_source_only_makes_output_folder :
  let r := process_files no_fault 0 ["out"] ["sorted"] 0 twin_world in
  r.1 = Ok tt
  ∧ files r.2 = <[ ["sorted"] := Dir ]> twin_files
  ∧ log r.2 = [(INFO, MsgFoundCount 0 ["out"]); (WARNING, MsgNoFiles)].
Proof. vm_compute. done. Qed.

(** X10.  When the output path is a regular file (and its parent a
    directory), [process_files] makes nothing and copies nothing: the
    [OSError] of [mkdir] is caught at line 163, the file system stays as it
    was, the log grows by the one line of line 164, and [process_files]
    returns, with any fuel and limit and whatever else the environment
    fails. *)
Theorem process_files_output_path_is_file
    (fault : io_op → bool) (fuel : nat) (source_folder output_folder : Path)
    (max_concurrent : Z) (w : World) :
  isfile w output_folder = true →
  isdir w (PurePath.parent output_folder) = true →
  ∃ e w',
    process_files fault fuel source_folder output_folder max_concurrent w
    = (Ok tt, w')
    ∧ is_OSError e = true
    ∧ files w' = files w
    ∧ log w' = (log w ++ [(ERROR, MsgCritical e)])%list.
Proof.
  intros Hfile Hpar.
  destruct (makedirs_on_file fault output_folder w Hfile Hpar) as (e & Hmk & He).
  unfold process_files, try_except. unfold bind at 1. rewrite Hmk.
  destruct (log_msg_emitted ERROR (MsgCritical e) w)
    as (w2 & -> & Hf2 & _ & Hl2).
  exists e, w2. rewrite emitted_error in Hl2. by split_and!.
Qed.

Lemma process_files_output_path_is_file_witness :
  ∃ e w',
    process_files no_fault 3 ["src"] ["c"; "src"] 2 sample_world = (Ok tt, w')
    ∧ is_OSError e = true
    ∧ files w' = files sample_world
    ∧ log w' = (log sample_world ++ [(ERROR, MsgCritical e)])%list.
Proof.
  apply (process_files_output_path_is_file no_fault 3 ["src"] ["c"; "src"] 2
           sample_world); reflexivity.
Defined.

(** X11.  A negative limit with at least one file found: [Semaphore]
    raises [ValueError] at line 138 before any copy starts, line 163
    catches it, and [process_files] returns with the output folder made,
    nothing else changed and the critical line last in the log. *)
Theorem negative_limit_copies_nothing
    (fault : io_op → bool) (fuel : nat) (source_folder output_folder : Path)
    (max_concurrent : Z) (w : World) (file_path : Path) :
  max_concurrent < 0 →
  (makedirs fault output_folder w).1 = Ok tt →
  isdir w source_folder = true →
  (∀ item, fault (OpScan item) = false) →
  isfile w file_path = true →
  source_folder `suffix_of` file_path →
  file_path ≠ source_folder →
  ∃ w',
    process_files fault fuel source_folder output_folder max_concurrent w
    = (Ok tt, w')
    ∧ files w' = files (makedirs fault output_folder w).2
    ∧ last (log w') = Some (ERROR, MsgCritical ValueError).
Proof.
  intros Hmc Hok Hdir Hscan Hfile Hbelow Hne.
  destruct (process_files_with_files fault source_folder output_folder w file_path)
    as (w1 & task & tasks & w2 & Hmk & Hread & Hf2 & Hv2); [done..|].
  unfold process_files, try_except. unfold bind at 1. rewrite Hmk.
  unfold bind at 1. rewrite Hread. unfold bind at 1. unfold Semaphore.
  destruct (Z.ltb_spec max_concurrent 0); [|lia]. unfold raise.
  destruct (log_msg_emitted ERROR (MsgCritical ValueError) w2)
    as (w3 & -> & Hf3 & _ & Hl3).
  exists w3. rewrite emitted_error in Hl3. split_and!; [done|simpl; congruence|].
  rewrite Hl3. apply last_snoc.
Qed.

Lemma negative_limit_copies_nothing_witness :
  ∃ w',
    process_files no_fault 3 ["src"] ["out"] (-1) twin_world = (Ok tt, w')
    ∧ files w' = files (makedirs no_fault ["out"] twin_world).2
    ∧ last (log w') = Some (ERROR, MsgCritical ValueError).
Proof.
  apply (negative_limit_copies_nothing no_fault 3 ["src"] ["out"] (-1)
           twin_world ["x.txt"; "a"; "src"]).
  - lia.
  - reflexivity.
  - reflexivity.
  - done.
  - reflexivity.
  - by exists ["x.txt"; "a"].
  - done.
Defined.

(** X12.  A limit of zero with at least one file found: no task ever gets
    a permit.  [process_files] does not return, whatever the fuel, and in
    the scheduler no event is enabled from the start, with a limit of zero
    or less. *)
Theorem zero_limit_never_returns
    (fault : io_op → bool) (source_folder output_folder : Path)
    (w : World) (file_path : Path) :
  (makedirs fault output_folder w).1 = Ok tt →
  isdir w source_folder = true →
  (∀ item, fault (OpScan item) = false) →
  isfile w file_path = true →
  source_folder `suffix_of` file_path →
  file_path ≠ source_folder →
  (∀ fuel,
     (process_files fault fuel source_folder output_folder 0 w).1 = Blocked)
  ∧ (∀ max_concurrent files_found ev,
       max_concurrent ≤ 0 →
       Sched.step (Sched.init max_concurrent files_found) ev = None).
Proof.
  intros Hok Hdir Hscan Hfile Hbelow Hne. split.
  - intros fuel.
    destruct (process_files_with_files fault source_folder output_folder w
                file_path)
      as (w1 & task & tasks & w2 & Hmk & Hread & Hf2 & Hv2); [done..|].
    unfold process_files, try_except. unfold bind at 1. rewrite Hmk.
    unfold bind at 1. by rewrite Hread.
  - intros max_concurrent files_found ev Hmc.
    assert (Hw : ∀ i p,
      Sched.tasks (Sched.init max_concurrent files_found) !! i = Some p →
      p = Sched.Waiting).
    { intros i p. simpl. rewrite list_lookup_fmap.
      destruct (files_found !! i); simpl; congruence. }
    destruct ev as [i|i|i r|i r]; simpl;
      destruct ((map (λ _, Sched.Waiting) files_found) !! i) as [p|] eqn:E;
      try done; apply Hw in E as ->; try done.
    destruct (Z.ltb_spec 0 max_concurrent); [lia|done].
Qed.

Lemma zero_limit_never_returns_witness :
  (∀ fuel, (process_files no_fault fuel ["src"] ["out"] 0 twin_world).1 = Blocked)
  ∧ (∀ max_concurrent files_found ev,
       max_concurrent ≤ 0 →
       Sched.step (Sched.init max_concurrent files_found) ev = None).
Proof.
  apply (zero_limit_never_returns no_fault ["src"] ["out"] twin_world
           ["x.txt"; "a"; "src"]).
  - reflexivity.
  - reflexivity.
  - done.
  - reflexivity.
  - by exists ["x.txt"; "a"].
  - done.
Defined.

(** ** [process_files] and [main] as a whole *)

Section Whole.

Variable fault : io_op → bool.




End Whole.





Example twin_run :
  let r := process_files no_fault 3 ["src"] ["sorted"] 1 twin_world in
  r.1 = Ok tt
  ∧ files r.2 !! ["x.txt"; "txt"; "sorted"] = Some (File [Byte.x62])
  ∧ files r.2 !! ["x_1.txt"; "txt"; "sorted"] = Some (File [Byte.x61])
  ∧ last (log r.2) = Some (INFO, MsgExtensions ["txt"]).
Proof. vm_compute. done. Qed.

(** ** The summary of lines 155-161 *)

Lemma size_extensions_of_le (files_found : list Path) :
  (size (extensions_of files_found) ≤ length files_found)%nat.
Proof.
  unfold extensions_of. induction files_found as [|f l IH].
  - change (size (∅ : gset string) ≤ 0)%nat. by rewrite size_empty.
  - cbn [map list_to_set length].
    rewrite size_union_alt, size_singleton.
    pose proof (subseteq_size
                  (list_to_set (map classify l) ∖ {[classify f]})
                  (list_to_set (map classify l) : gset string)
                  (subseteq_difference_l _ _ _ (reflexivity _))).
    lia.
Qed.

(** X15.  The list of extensions that line 161 logs is in ascending order
    and has no duplicates; it holds exactly the keys of the files found;
    its length is the number of folders of line 160, which is at most the
    number of files and at least one when a file was found. *)
Theorem extensions_listing_sorted (files_found : list Path) :
  let listing := merge_sort String.le (elements (extensions_of files_found)) in
  StronglySorted String.le listing
  ∧ NoDup listing
  ∧ (∀ key, key ∈ listing ↔ ∃ f, f ∈ files_found ∧ classify f = key)
  ∧ length listing = size (extensions_of files_found)
  ∧ (size (extensions_of files_found) ≤ length files_found)%nat
  ∧ (files_found ≠ [] → (0 < size (extensions_of files_found))%nat).
Proof.
  intros listing. unfold listing. split_and!.
  - apply StronglySorted_merge_sort; apply _.
  - rewrite merge_sort_Permutation. apply NoDup_elements.
  - intros key. rewrite merge_sort_Permutation, elem_of_elements.
    unfold extensions_of. rewrite elem_of_list_to_set.
    change (map classify files_found) with (classify <$> files_found).
    rewrite list_elem_of_fmap. split.
    + intros (f & -> & Hf). by exists f.
    + intros (f & Hf & <-). by exists f.
  - by rewrite merge_sort_Permutation.
  - apply size_extensions_of_le.
  - intros Hne. destruct files_found as [|f l]; [done|].
    assert (Hin : classify f ∈ extensions_of (f :: l)).
    { unfold extensions_of. cbn [map list_to_set].
      apply elem_of_union_l. by apply elem_of_singleton. }
    destruct (decide (size (extensions_of (f :: l)) = 0%nat)) as [Hz|Hnz]; [|lia].
    apply size_empty_inv in Hz. rewrite Hz in Hin.
    by apply elem_of_empty in Hin.
Qed.

Example extensions_of_sample :
  merge_sort String.le
    (elements (extensions_of
       [["b.TXT"; "src"]; [".bashrc"; "src"]; ["a.txt"; "src"];
        ["archive.tar.gz"; "src"]]))
  = ["gz"; "no_extension"; "txt"].
Proof. vm_compute. done. Qed.

(** ** The limit is reached, and the permits come back *)

Module SchedReach.
Import Sched.

Lemma count_replicate f p n :
  count f (replicate n p) = if f p then Z.of_nat n else 0.
Proof.
  induction n as [|n IH]; [by destruct (f p)|].
  cbn [replicate]. rewrite SchedFacts.count_cons, IH. destruct (f p); simpl; lia.
Qed.

Lemma count_app f l1 l2 : count f (l1 ++ l2) = count f l1 + count f l2.
Proof.
  induction l1 as [|x l1 IH]; [done|].
  simpl app. rewrite !SchedFacts.count_cons, IH. lia.
Qed.

Lemma init_replicate max_concurrent (files_found : list Path) :
  init max_concurrent files_found
  = mkState max_concurrent (replicate (length files_found) Waiting).
Proof.
  unfold init. f_equal. induction files_found as [|x l IH]; [done|].
  simpl. by rewrite IH.
Qed.

(** The first [j] waiting tasks take a permit one after the other. *)
Lemma acquire_many : ∀ (j k m : nat) (v : Z),
  (j ≤ m)%nat → Z.of_nat j ≤ v →
  run (mkState v (replicate k Acquired ++ replicate m Waiting))
      (EvAcquire <$> seq k j)
  = Some (mkState (v - Z.of_nat j)
            (replicate (k + j) Acquired ++ replicate (m - j) Waiting)).
Proof.
  induction j as [|j IH]; intros k m v Hm Hv.
  { simpl. by rewrite Z.sub_0_r, Nat.add_0_r, Nat.sub_0_r. }
  destruct m as [|m]; [lia|].
  cbn [seq fmap list_fmap run step tasks value].
  rewrite lookup_app_r by (rewrite length_replicate; lia).
  rewrite length_replicate, Nat.sub_diag. cbn [replicate lookup list_lookup].
  destruct (Z.ltb_spec 0 v); [|lia].
  replace (<[k:=Acquired]>
             (replicate k Acquired ++ Waiting :: replicate m Waiting)%list)
    with (replicate (S k) Acquired ++ replicate m Waiting)%list.
  2:{ rewrite insert_app_r_alt by (rewrite length_replicate; lia).
      rewrite length_replicate, Nat.sub_diag. cbn [insert list_insert].
      rewrite replicate_S_end, <- app_assoc. done. }
  rewrite (IH (S k) m (v - 1)) by lia.
  do 2 f_equal; [lia|]. f_equal; f_equal; lia.
Qed.

Lemma no_permit_finished s :
  (∀ i p, tasks s !! i = Some p → is_finished p = true) →
  in_flight s = 0 ∧ open_sources s = 0.
Proof.
  unfold in_flight, open_sources. induction (tasks s) as [|x l IH]; intros Hall.
  { done. }
  pose proof (Hall 0%nat x eq_refl) as Hx. destruct x; try done.
  rewrite !SchedFacts.count_cons. simpl.
  apply IH. intros i p Hp. by apply (Hall (S i)).
Qed.

End SchedReach.

(** X16.  The limit is reached: with at least as many files as permits,
    the schedule in which the first [max_concurrent] tasks enter
    [async with semaphore] one after the other has exactly
    [max_concurrent] copies in flight, the semaphore at zero, and every
    other task waiting. *)
Theorem limit_is_reached (n : nat) (files_found : list Path) :
  (n ≤ length files_found)%nat →
  ∃ s,
    Sched.run (Sched.init (Z.of_nat n) files_found)
              (Sched.EvAcquire <$> seq 0 n) = Some s
    ∧ Sched.in_flight s = Z.of_nat n
    ∧ Sched.value s = 0
    ∧ ∀ i, Sched.step s (Sched.EvAcquire i) = None.
Proof.
  intros Hn. rewrite SchedReach.init_replicate.
  pose proof (SchedReach.acquire_many n 0 (length files_found) (Z.of_nat n) Hn
                ltac:(lia)) as Hrun.
  simpl replicate in Hrun. simpl app in Hrun. rewrite Hrun.
  eexists. split; [done|]. split_and!.
  - unfold Sched.in_flight. cbn [Sched.tasks].
    rewrite SchedReach.count_app, !SchedReach.count_replicate. simpl. lia.
  - simpl. lia.
  - intros i. cbn [Sched.step Sched.tasks Sched.value]. rewrite Z.sub_diag.
    by destruct (_ !! i) as [[]|].
Qed.

Lemma limit_is_reached_witness :
  ∃ s,
    Sched.run (Sched.init (Z.of_nat 2)
                 [["a.txt"; "src"]; ["b.TXT"; "src"]; ["c"; "src"]])
              (Sched.EvAcquire <$> seq 0 2) = Some s
    ∧ Sched.in_flight s = Z.of_nat 2
    ∧ Sched.value s = 0
    ∧ ∀ i, Sched.step s (Sched.EvAcquire i) = None.
Proof.
  apply (limit_is_reached 2 [["a.txt"; "src"]; ["b.TXT"; "src"]; ["c"; "src"]]).
  simpl. lia.
Defined.

(** X17.  With a positive limit, when a schedule has run until no event is
    enabled, every permit is back: the semaphore has the value it was made
    with, no copy is in flight and no source file is open. *)
Theorem permits_all_returned
    (max_concurrent : Z) (files_found : list Path)
    (schedule : list Sched.event) (s : Sched.state) :
  0 < max_concurrent →
  Sched.run (Sched.init max_concurrent files_found) schedule = Some s →
  (∀ ev, Sched.step s ev = None) →
  Sched.value s = max_concurrent
  ∧ Sched.in_flight s = 0 ∧ Sched.open_sources s = 0.
Proof.
  intros HN Hrun Hstuck.
  assert (Hbal : Sched.balanced max_concurrent s).
  { eapply SchedFacts.run_balanced; [|done].
    apply SchedFacts.init_balanced. lia. }
  assert (Hall : ∀ i p, Sched.tasks s !! i = Some p →
                        Sched.is_finished p = true).
  { intros i p Hi. destruct (Sched.is_finished p) eqn:Hp; [done|].
    destruct (SchedFacts.progress max_concurrent s HN Hbal) as (ev & s' & Hev);
      [by exists i, p|].
    by rewrite Hstuck in Hev. }
  destruct (SchedReach.no_permit_finished s Hall) as [Hz Ho].
  destruct Hbal as [Hsum _]. split_and!; [lia|done|done].
Qed.

Lemma permits_all_returned_witness :
  let s := Sched.mkState 1 [Sched.Finished (Returned true);
                            Sched.Finished (Returned false)] in
  Sched.value s = 1 ∧ Sched.in_flight s = 0 ∧ Sched.open_sources s = 0.
Proof.
  apply (permits_all_returned 1 [["a.txt"; "src"]; ["c"; "src"]]
           [Sched.EvAcquire 0; Sched.EvOpen 0; Sched.EvClose 0 (Returned true);
            Sched.EvAcquire 1; Sched.EvEarly 1 (Returned false)]).
  - lia.
  - reflexivity.
  - intros [[|[|i]]|[|[|i]]|[|[|i]] r|[|[|i]] r]; reflexivity.
Defined.

(** ** Two copies in flight at once *)

Section Race.

Variable fault : io_op → bool.

(** Cutting [copy_file] at line 104 and running the two parts one after the
    other is [copy_file]. *)
Lemma copy_file_in_two_parts fuel source_file output_folder w :
  copy_file fault fuel source_file output_folder w
  = (let* s := copy_file_until_open fault fuel source_file output_folder in
     copy_file_from_open fault fuel source_file s) w.
Proof.
  unfold copy_file, copy_file_try, copy_file_until_open, copy_file_from_open,
    choose_target, stream_to, on_copy_error, try_except, bind, get_world, ret.
  destruct (makedirs fault (output_folder // classify source_file) w)
    as [[[]|e| |] w1]; try done.
  - destruct (resolve_target _ _ _ _ _ _) as [target_file|]; done.
  - by destruct (log_msg ERROR (MsgCopyError source_file e) w1)
      as [[[]|e'| |] w2].
Qed.

Hypothesis no_faults : ∀ op, fault op = false.

(** With no fault and the desired name unused, lines 78-101 make the
    subfolder and end on the desired name at the first test. *)
Lemma choose_target_free source_file output_folder w :
  isdir w output_folder = true →
  isfile w (output_folder // classify source_file) = false →
  files w !! (output_folder // classify source_file
              // PurePath.name source_file) = None →
  ∃ w1,
    (∀ fuel,
       choose_target fault (S fuel) source_file output_folder w
       = (Ok (output_folder // classify source_file
              // PurePath.name source_file), w1))
    ∧ files w ⊆ files w1
    ∧ log_level w1 = log_level w
    ∧ isdir w1 (output_folder // classify source_file) = true
    ∧ (∀ p, (length output_folder + 1 < length p)%nat →
            files w1 !! p = files w !! p)
    ∧ (∀ p, files w1 !! p = files w !! p ∨ files w1 !! p = Some Dir).
Proof.
  intros Hout Hkey Hfree.
  destruct (makedirs_live fault (output_folder // classify source_file) w)
    as [w1 Hmk]; [by intros|done|done|].
  pose proof (makedirs_spec _ _ _ _ _ Hmk)
    as (_ & Hv1 & Hs1 & Hdeep & Hch & Hr1).
  destruct Hr1 as [[_ Hsub]|[e ?]]; [|done].
  exists w1. split_and!; try done.
  - intros fuel. unfold choose_target. unfold bind at 1. rewrite Hmk.
    unfold bind at 1. unfold get_world at 1. cbn [resolve_target].
    assert (Hex : exists_ w1 (output_folder // classify source_file
                              // PurePath.name source_file) = false).
    { unfold exists_, PurePath.joinpath. rewrite lookup_node_cons.
      rewrite Hdeep by (simpl; lia). unfold PurePath.joinpath in Hfree.
      by rewrite Hfree. }
    by rewrite Hex.
  - intros p Hp. apply Hdeep. simpl. lia.
Qed.

(** With no fault, lines 104-110 leave the bytes of the source at the
    target, whatever was there. *)
Lemma stream_to_overwrites source_file target_file content w :
  lookup_node w source_file = Some (File content) →
  source_file ≠ target_file →
  isdir w (PurePath.parent target_file) = true →
  isdir w target_file = false →
  ∃ w',
    (∀ fuel, (length content < fuel)%nat →
       stream_to fault fuel source_file target_file w = (Ok true, w'))
    ∧ files w' = <[target_file := File content]> (files w)
    ∧ log_level w' = log_level w.
Proof.
  intros Hsrc' Hne Hpar Hnd.
  assert (Hdst_ne : target_file ≠ []) by (by intros ->).
  set (w1 := set_files (insert target_file (File [])) w).
  assert (H1 : lookup_node w1 source_file = Some (File content)).
  { unfold w1. by rewrite lookup_node_insert_ne. }
  assert (H2 : lookup_node w1 target_file = Some (File (take 0 content))).
  { unfold w1. destruct target_file; [done|]. by rewrite lookup_node_insert_eq. }
  destruct (copy_loop_total fault source_file target_file content Hne
              (length content) 0 w1 H1 H2 ltac:(lia))
    as (r & w2 & Hloop & _ & Hok).
  rewrite Hok in Hloop by (intros; apply no_faults).
  pose proof (copy_loop_sound fault source_file target_file content Hne
                _ _ _ _ _ H1 H2 (Hloop (S (length content)) ltac:(lia)))
    as (_ & Hv2 & Hrest & _ & Hdst & _).
  specialize (Hdst eq_refl).
  destruct (log_msg_spec INFO (MsgCopied source_file target_file) w2)
    as (w3 & H3 & Hf3 & Hv3 & _).
  exists w3. split_and!.
  - intros fuel Hfuel. unfold stream_to.
    unfold bind at 1. unfold open_rb. rewrite no_faults.
    assert (Hf : isfile w source_file = true) by (unfold isfile; by rewrite Hsrc').
    rewrite Hf. unfold bind at 1. unfold open_wb. rewrite no_faults, Hpar, Hnd.
    cbn [negb]. fold w1. unfold bind at 1. rewrite (Hloop fuel Hfuel).
    unfold bind. by rewrite H3.
  - rewrite Hf3. apply map_eq. intros p.
    destruct (decide (p = target_file)) as [->|Hp].
    + rewrite lookup_insert_eq. destruct target_file; [done|].
      by rewrite lookup_node_cons in Hdst.
    + rewrite lookup_insert_ne by done. rewrite (Hrest p Hp). unfold w1. simpl.
      by rewrite lookup_insert_ne.
  - rewrite Hv3, Hv2. done.
Qed.

End Race.

(** The interleaving of [race_schedule] is enabled exactly when the limit
    is 2 or more. *)
Lemma race_schedule_enabled max_concurrent (first second : Path) :
  is_Some (Sched.run (Sched.init max_concurrent [first; second]) race_schedule)
  ↔ 2 ≤ max_concurrent.
Proof.
  unfold race_schedule, Sched.init. cbn [map Sched.run Sched.step Sched.tasks
    Sched.value lookup list_lookup].
  destruct (Z.ltb_spec 0 max_concurrent) as [H1|H1].
  2:{ split; [by intros [? [=]]|lia]. }
  cbn [Sched.run Sched.step Sched.tasks Sched.value lookup list_lookup
       insert list_insert].
  destruct (Z.ltb_spec 0 (max_concurrent - 1)) as [H2|H2].
  2:{ split; [by intros [? [=]]|lia]. }
  cbn. split; [lia|eauto].
Qed.

(** X18.  Two files of the same name with two or more permits.  Cut at
    line 104, the two parts of [copy_file] run one after the other are
    [copy_file]; the interleaving in which both tasks hold a permit before
    either opens its source is enabled exactly when the limit is 2 or more;
    and when both calls come to line 104 before either opens its target,
    with nothing failing and the desired name unused, both end on the same
    target and both return [True]: the target holds the bytes of the call
    that streams last, and no other file is made, so the bytes of the other
    file are in no new file. *)
Theorem same_name_copies_in_flight_collide
    (fault : io_op → bool) (first second output_folder : Path)
    (content1 content2 : list Byte.byte) (w : World) :
  (∀ op, fault op = false) →
  isdir w output_folder = true →
  (∀ key, isfile w (output_folder // key) = false) →
  lookup_node w first = Some (File content1) →
  lookup_node w second = Some (File content2) →
  PurePath.name first = PurePath.name second →
  files w !! (output_folder // classify first // PurePath.name first) = None →
  (∀ fuel file_path w0,
     copy_file fault fuel file_path output_folder w0
     = (let* s := copy_file_until_open fault fuel file_path output_folder in
        copy_file_from_open fault fuel file_path s) w0)
  ∧ (∀ max_concurrent,
       is_Some (Sched.run (Sched.init max_concurrent [first; second])
                  race_schedule)
       ↔ 2 ≤ max_concurrent)
  ∧ ∃ N w',
      (∀ fuel, (N ≤ fuel)%nat →
         raced_copies fault fuel first second output_folder w
         = (Ok (true, true), w'))
      ∧ files w' !! (output_folder // classify first // PurePath.name first)
        = Some (File content2)
      ∧ (∀ p c, files w' !! p = Some (File c) →
                p = output_folder // classify first // PurePath.name first
                ∨ files w !! p = Some (File c)).
Proof.
  intros no_faults Hout Hkeys Hl1 Hl2 Hname Hfree.
  split; [intros; apply copy_file_in_two_parts|].
  split; [intros; apply race_schedule_enabled|].
  assert (Hc1 : files w !! first = Some (File content1) ∧ first ≠ []).
  { destruct first; [done|]. by rewrite lookup_node_cons in Hl1. }
  assert (Hc2 : files w !! second = Some (File content2) ∧ second ≠ []).
  { destruct second; [done|]. by rewrite lookup_node_cons in Hl2. }
  destruct Hc1 as [Hc1 Hn1]. destruct Hc2 as [Hc2 Hn2].
  assert (Hnode : ∀ w' p c, p ≠ [] → files w' !! p = Some (File c) →
                            lookup_node w' p = Some (File c)).
  { intros w' p c Hp H. destruct p; [done|]. by rewrite lookup_node_cons. }
  set (target_file := output_folder // classify first // PurePath.name first)
    in *.
  assert (Hkey2 : classify second = classify first)
    by (symmetry; by apply classify_by_name).
  assert (Ht2 : output_folder // classify second // PurePath.name second
                = target_file).
  { unfold target_file. by rewrite Hkey2, Hname. }
  assert (Hlen : (length output_folder + 1 < length target_file)%nat)
    by (unfold target_file; simpl; lia).
  destruct (choose_target_free fault no_faults first output_folder w Hout (Hkeys _) Hfree)
    as (w1 & Hch1 & Hs1 & Hv1 & Hd1 & Hdeep1 & Hnew1).
  assert (Hfree1 : files w1 !! target_file = None) by (by rewrite Hdeep1).
  assert (Hkeys1 : isfile w1 (output_folder // classify second) = false).
  { specialize (Hkeys (classify second)). unfold isfile in *.
    unfold PurePath.joinpath in *. rewrite lookup_node_cons in *.
    destruct (Hnew1 (classify second :: output_folder)) as [->| ->]; done. }
  destruct (choose_target_free fault no_faults second output_folder w1)
    as (w2 & Hch2 & Hs2 & Hv2 & Hd2 & Hdeep2 & Hnew2);
    [by eapply isdir_weaken|done|by rewrite Ht2|].
  rewrite Hkey2 in Hd2.
  assert (Hfree2 : files w2 !! target_file = None) by (by rewrite Hdeep2).
  assert (Hsub2 : files w ⊆ files w2) by (by etrans).
  assert (Hnd2 : isdir w2 target_file = false).
  { unfold isdir, target_file, PurePath.joinpath. rewrite lookup_node_cons.
    unfold target_file, PurePath.joinpath in Hfree2. by rewrite Hfree2. }
  destruct (stream_to_overwrites fault no_faults first target_file content1 w2)
    as (w3 & Hst3 & Hf3 & Hv3).
  { apply Hnode; [done|]. by eapply lookup_weaken. }
  { intros Heq. pose proof (lookup_weaken _ _ _ _ Hc1 Hsub2) as H.
    rewrite Heq in H. congruence. }
  { done. }
  { done. }
  destruct (stream_to_overwrites fault no_faults second target_file content2 w3)
    as (w4 & Hst4 & Hf4 & Hv4).
  { apply Hnode; [done|]. rewrite Hf3, lookup_insert_ne.
    - by eapply lookup_weaken.
    - intros Heq. pose proof (lookup_weaken _ _ _ _ Hc2 Hsub2) as H.
      rewrite <- Heq in H. congruence. }
  { intros Heq. pose proof (lookup_weaken _ _ _ _ Hc2 Hsub2) as H.
    rewrite Heq in H. congruence. }
  { rewrite <- Hd2. apply isdir_agree. rewrite Hf3.
    apply lookup_insert_ne. unfold target_file. intros H.
    apply (f_equal length) in H. simpl in H. lia. }
  { unfold isdir, target_file, PurePath.joinpath. rewrite lookup_node_cons.
    by rewrite Hf3, lookup_insert_eq. }
  exists (S (S (length content1 `max` length content2))), w4. split_and!.
  - intros fuel Hfuel. destruct fuel as [|fuel]; [lia|].
    specialize (Hch1 fuel). specialize (Hch2 fuel). rewrite Ht2 in Hch2.
    fold target_file in Hch1.
    unfold raced_copies, copy_file_until_open, try_except.
    unfold bind at 1. unfold bind at 1. rewrite Hch1. unfold ret at 1.
    unfold bind at 1. unfold bind at 1. rewrite Hch2. unfold ret at 1.
    unfold bind at 1. cbn [copy_file_from_open]. unfold try_except.
    rewrite (Hst3 (S fuel)) by lia.
    unfold bind at 1. rewrite (Hst4 (S fuel)) by lia. done.
  - by rewrite Hf4, lookup_insert_eq.
  - intros p c Hp. destruct (decide (p = target_file)) as [->|Hne]; [by left|].
    right. rewrite Hf4, lookup_insert_ne, Hf3, lookup_insert_ne in Hp by done.
    destruct (Hnew2 p) as [H2|H2]; [|congruence]. rewrite H2 in Hp.
    destruct (Hnew1 p) as [H1|H1]; [|congruence]. by rewrite H1 in Hp.
Qed.

Lemma same_name_copies_in_flight_collide_witness :
  let first := ["x.txt"; "a"; "src"] in
  let second := ["x.txt"; "b"; "src"] in
  (∀ fuel file_path w0,
     copy_file no_fault fuel file_path ["out"] w0
     = (let* s := copy_file_until_open no_fault fuel file_path ["out"] in
        copy_file_from_open no_fault fuel file_path s) w0)
  ∧ (∀ max_concurrent,
       is_Some (Sched.run (Sched.init max_concurrent [first; second])
                  race_schedule)
       ↔ 2 ≤ max_concurrent)
  ∧ ∃ N w',
      (∀ fuel, (N ≤ fuel)%nat →
         raced_copies no_fault fuel first second ["out"] twin_world
         = (Ok (true, true), w'))
      ∧ files w' !! (["out"] // classify first // PurePath.name first)
        = Some (File [Byte.x62])
      ∧ (∀ p c, files w' !! p = Some (File c) →
                p = ["out"] // classify first // PurePath.name first
                ∨ files twin_world !! p = Some (File c)).
Proof.
  apply (same_name_copies_in_flight_collide no_fault ["x.txt"; "a"; "src"]
           ["x.txt"; "b"; "src"] ["out"] [Byte.x61] [Byte.x62] twin_world).
  - done.
  - reflexivity.
  - intros key. unfold isfile, lookup_node, PurePath.joinpath.
    destruct (files twin_world !! [key; "out"]) as [[c|]|] eqn:E; [|done..].
    exfalso. revert E. unfold twin_world, twin_files. simpl.
    rewrite !lookup_insert_ne by done. by rewrite lookup_empty.
  - reflexivity.
  - reflexivity.
  - reflexivity.
  - reflexivity.
Defined.

(** The two orders on the same files: one after the other the second copy
    is numbered; with both in flight there is one file, with the bytes of
    the second. *)
Example raced_twins :
  let first := ["x.txt"; "a"; "src"] in
  let second := ["x.txt"; "b"; "src"] in
  let raced := raced_copies no_fault 3 first second ["out"] twin_world in
  let in_turn := gather no_fault 3 ["out"] 2 [first; second] twin_world in
  raced.1 = Ok (true, true)
  ∧ files raced.2 !! ["x.txt"; "txt"; "out"] = Some (File [Byte.x62])
  ∧ files raced.2 !! ["x_1.txt"; "txt"; "out"] = None
  ∧ in_turn.1 = Ok [Returned true; Returned true]
  ∧ files in_turn.2 !! ["x.txt"; "txt"; "out"] = Some (File [Byte.x61])
  ∧ files in_turn.2 !! ["x_1.txt"; "txt"; "out"] = Some (File [Byte.x62]).
Proof. vm_compute. done. Qed.



(** The subfolder of the key is made before the source is opened: a copy
    that fails there leaves the subfolder behind. *)
Example failed_copy_leaves_subfolder :
  let r := copy_file no_fault 3 ["gone.pdf"; "src"] ["out"] sample_world in
  r.1 = Ok false
  ∧ files sample_world !! ["pdf"; "out"] = None
  ∧ files r.2 !! ["pdf"; "out"] = Some Dir
  ∧ log r.2 = [(ERROR, MsgCopyError ["gone.pdf"; "src"] OSError)].
Proof. vm_compute. done. Qed.

(** * Faults, file by file *)

Section Isolation.

Variable fault : io_op → bool.

(** A directory that is missing and whose [mkdir] is failed is still
    missing after a copy. *)
Lemma copy_file_keeps_dir_missing fuel source_file output_folder w r w' d :
  copy_file fault fuel source_file output_folder w = (r, w') →
  fault (OpMkdir d) = true →
  isdir w d = false → isdir w' d = false.
Proof.
  intros Hcopy Hf Hd. apply copy_file_changes in Hcopy as [k Hk].
  unfold isdir in *. destruct d as [|s d]; [done|].
  rewrite lookup_node_cons in *.
  destruct (Hk (s :: d))
    as [->|[(_ & _ & _ & Hnf)|(_ & _ & _ & c & n & _ & ->)]];
    [done|congruence|done].
Qed.

Lemma copy_faulted_weaken output_folder file_path w0 w :
  files w0 ⊆ files w →
  (∀ d, fault (OpMkdir d) = true → isdir w0 d = false → isdir w d = false) →
  copy_faulted fault output_folder file_path w0 →
  copy_faulted fault output_folder file_path w.
Proof.
  intros Hsub Hdirs [H|[Hf Hd]].
  - left. by eapply always_faulted_weaken.
  - right. split; [done|]. by apply Hdirs.
Qed.

(** What a copy that returns has not met: a fault at the open of its
    target, the first unused candidate, or at a write to it. *)
Lemma copy_file_try_ok_target fuel source_file output_folder w b w' :
  copy_file_try fault fuel source_file output_folder w = (Ok b, w') →
  ∃ k c,
    let target_file :=
      candidate (output_folder // classify source_file)
        (PurePath.name source_file) k in
    exists_ w target_file = false
    ∧ (∀ i, (i < k)%nat →
         exists_ w (candidate (output_folder // classify source_file)
                      (PurePath.name source_file) i) = true)
    ∧ lookup_node w source_file = Some (File c)
    ∧ fault (OpOpenWrite target_file) = false
    ∧ ∀ j, (j * CHUNK < length c)%nat →
           fault (OpWrite target_file (j * CHUNK)) = false.
Proof.
  unfold copy_file_try. unfold bind at 1.
  destruct (makedirs fault _ w) as [r1 w1] eqn:Hmk.
  apply makedirs_spec in Hmk as (_ & _ & Hs1 & Hf1 & Hn1 & [[-> _]|[e ->]]);
    [|done].
  unfold bind at 1. unfold get_world at 1.
  destruct (resolve_target _ _ _ _ _ _) as [t|] eqn:Hres; [|done].
  apply resolve_target_sound in Hres as (k & _ & Ht & Hfree & Hbusy).
  rewrite examined_candidate in Ht.
  unfold bind at 1.
  destruct (open_rb fault source_file w1) as [r2 w2] eqn:Hrb.
  apply open_rb_cases in Hrb as [-> [[-> Hfile]|[e ->]]]; [|done].
  apply isfile_lookup in Hfile as (c & Hc & Hsrc).
  unfold bind at 1.
  destruct (open_wb fault t w1) as [r3 w3] eqn:Hwb.
  assert (Hopen : r3 = Ok tt → fault (OpOpenWrite t) = false).
  { unfold open_wb in Hwb.
    by destruct (fault (OpOpenWrite t)); [injection Hwb as <- _|]. }
  apply open_wb_cases in Hwb as [(-> & -> & _ & _)|(e & -> & ->)]; [|done].
  specialize (Hopen eq_refl).
  pose proof (exists_false_lookup _ _ Hfree) as Hnone.
  assert (Hne : source_file ≠ t) by congruence.
  assert (Ht0 : t ≠ []) by (by rewrite Ht; destruct k).
  destruct t as [|s t]; [done|].
  unfold bind at 1.
  destruct (copy_loop fault fuel source_file (s :: t) 0 _)
    as [[[]|e| |] w4] eqn:Hloop; try done.
  intros _. exists k, c. simpl. rewrite <- Ht. split_and!.
  - rewrite <- Hfree. symmetry. apply exists_agree, Hf1.
    rewrite Ht. destruct k; simpl; lia.
  - intros i Hi. rewrite <- (Hbusy i Hi), examined_candidate.
    symmetry. apply exists_agree, Hf1. destruct i; simpl; lia.
  - destruct source_file as [|x source_file]; [done|].
    rewrite lookup_node_cons.
    destruct (Hn1 (x :: source_file)) as [Heq|Hd]; congruence.
  - done.
  - intros j Hj.
    apply (copy_loop_reads _ _ _ c Hne _ _ _ _) with (k := j) in Hloop;
      [by apply Hloop|..].
    + rewrite lookup_node_insert_ne by done.
      destruct source_file; [done|]. by rewrite lookup_node_cons.
    + by rewrite lookup_node_insert_eq.
Qed.

(** The first candidate name that [w] does not have is one name. *)
Lemma first_unused_unique (busy : nat → bool) k k' :
  busy k = false → (∀ i, (i < k)%nat → busy i = true) →
  busy k' = false → (∀ i, (i < k')%nat → busy i = true) →
  k = k'.
Proof.
  intros Hk Hlt Hk' Hlt'.
  destruct (lt_eq_lt_dec k k') as [[H|H]|H]; [|done|].
  - specialize (Hlt' k H). congruence.
  - specialize (Hlt k' H). congruence.
Qed.

Lemma copy_file_target_faulted fuel source_file output_folder w r w' :
  copy_file fault fuel source_file output_folder w = (r, w') →
  target_faulted fault output_folder source_file w →
  r = Ok false ∨ r = OutOfFuel.
Proof.
  intros Hcopy (k & Hfree & Hbusy & Hfault).
  destruct (copy_file_sound _ _ _ _ _ _ _ Hcopy) as (_ & _ & [->|[->| ->]] & _);
    [|by left|by right].
  exfalso. unfold copy_file, try_except in Hcopy.
  destruct (copy_file_try _ _ _ _ _) as [[b|e| |] w1] eqn:Htry.
  - apply copy_file_try_ok_target in Htry
      as (k' & c & Hfree' & Hbusy' & Hsrc & Hopen & Hwrite).
    simpl in Hfree, Hfree', Hopen, Hwrite, Hfault.
    assert (k = k') as <-.
    { by apply (first_unused_unique
                  (λ i, exists_ w (candidate (output_folder // classify source_file)
                                     (PurePath.name source_file) i))). }
    destruct Hfault as [Hf|(c' & j & Hc' & Hj & Hf)]; [congruence|].
    assert (c' = c) as -> by congruence.
    by rewrite (Hwrite j Hj) in Hf.
  - unfold bind, ret in Hcopy.
    destruct (log_msg _ _ _) as [[[]|?| |] ?]; congruence.
  - done.
  - done.
Qed.

(** The batch, file by file: the entry of a file one of whose own
    operations is failed is [False], and the entry of a file none of whose
    operations is failed is [True], whatever is failed for the others. *)
Lemma gather_outcomes output_folder semaphore :
  0 < semaphore →
  ∀ tasks w0 w,
    files w0 ⊆ files w →
    (∀ d, fault (OpMkdir d) = true → isdir w0 d = false → isdir w d = false) →
    ∃ N bs w',
      (∀ fuel, (N ≤ fuel)%nat →
         gather fault fuel output_folder semaphore tasks w
         = (Ok (Returned <$> bs), w'))
      ∧ length bs = length tasks
      ∧ (∀ i file_path, tasks !! i = Some file_path →
           copy_faulted fault output_folder file_path w0 →
           bs !! i = Some false)
      ∧ (isdir w output_folder = true →
         (∀ key, isfile w (output_folder // key) = false) →
         ∀ i file_path, tasks !! i = Some file_path →
           isfile w0 file_path = true →
           unfaulted fault output_folder file_path →
           bs !! i = Some true).
Proof.
  intros Hsem. induction tasks as [|f tasks IH]; intros w0 w Hsub Hdirs.
  { exists 0%nat, [], w. split_and!; try done. }
  destruct (copy_file_total fault f output_folder w)
    as (N1 & b & w1 & H1 & _).
  pose proof (copy_file_sound _ _ _ _ _ _ _ (H1 N1 ltac:(lia))) as (Hs1 & _).
  destruct (IH w0 w1) as (N2 & bs & w2 & H2 & Hlen & Hfaulted & Hclean).
  { by etrans. }
  { intros d Hf Hd. eapply copy_file_keeps_dir_missing;
      [apply (H1 N1); lia|done|by apply Hdirs]. }
  exists (N1 `max` N2)%nat, (b :: bs), w2. split_and!.
  - intros fuel Hfuel. cbn [gather]. unfold copy_with_semaphore.
    destruct (Z.leb_spec semaphore 0); [lia|].
    rewrite H1 by lia. unfold bind. by rewrite H2 by lia.
  - simpl. by rewrite Hlen.
  - intros [|i] f'; simpl.
    + intros [= <-] Hf.
      destruct (copy_file_faulted fault _ _ _ _ _ _ (H1 N1 ltac:(lia)))
        as [Hb|Hb]; [|by injection Hb as ->|done].
      by eapply copy_faulted_weaken.
    + apply Hfaulted.
  - intros Hout Hkeys [|i] f'; simpl.
    + intros [= <-] Hfile Hun.
      destruct (copy_file_live fault f output_folder w Hun Hout (Hkeys _))
        as (N3 & w3 & H3); [by eapply isfile_weaken|].
      pose proof (H1 (N1 `max` N3)%nat ltac:(lia)) as Ha.
      rewrite (H3 (N1 `max` N3)%nat) in Ha by lia. by injection Ha as <-.
    + apply Hclean; [by eapply isdir_weaken|].
      eapply copy_file_keeps_keys_free; [apply (H1 N1); lia|done].
Qed.

End Isolation.

(** C8.  With a positive limit and whatever fails, from some fuel on
    [gather] returns one boolean per file and none of the entries is an
    exception.  The entry of a file is [False] when one of its own
    operations is failed: its source does not open or does not read, its
    target does not open under any of its candidate names, its stream
    breaks at the start of some chunk, or its subfolder is missing and
    cannot be made.  The entry of a regular file none of whose operations
    is failed is [True], whatever is failed for the other files: a fault is
    that file's alone.  One copy that meets such a fault, or whose target,
    the first unused candidate, does not open or fails a write, does not
    return [True] and does not raise; [gather] never raises. *)
Theorem faults_stay_with_their_file
    (fault : io_op → bool) (output_folder : Path) (max_concurrent : Z)
    (tasks : list Path) (w : World) :
  0 < max_concurrent →
  (∃ N bs w',
     (∀ fuel, (N ≤ fuel)%nat →
        gather fault fuel output_folder max_concurrent tasks w
        = (Ok (Returned <$> bs), w'))
     ∧ length bs = length tasks
     ∧ (∀ i file_path, tasks !! i = Some file_path →
          copy_faulted fault output_folder file_path w →
          bs !! i = Some false)
     ∧ (isdir w output_folder = true →
        (∀ key, isfile w (output_folder // key) = false) →
        ∀ i file_path, tasks !! i = Some file_path →
          isfile w file_path = true →
          unfaulted fault output_folder file_path →
          bs !! i = Some true))
  ∧ (∀ fuel file_path w1 r w2,
       copy_file fault fuel file_path output_folder w1 = (r, w2) →
       copy_faulted fault output_folder file_path w1
       ∨ target_faulted fault output_folder file_path w1 →
       r = Ok false ∨ r = OutOfFuel)
  ∧ (∀ fuel r w',
       gather fault fuel output_folder max_concurrent tasks w = (r, w') →
       ∀ e, r ≠ Raise e).
Proof.
  intros Hmc. split_and!.
  - by apply gather_outcomes.
  - intros fuel file_path w1 r w2 Hcopy [Hf|Hf].
    + by eapply copy_file_faulted.
    + by eapply copy_file_target_faulted.
  - intros fuel r w' Hgather. by apply gather_sound in Hgather as (_ & _ & ? & _).
Qed.

Lemma faults_stay_with_their_file_witness :
  let tasks := [["c"; "src"]; ["a.txt"; "src"]; ["b.TXT"; "src"]] in
  ∃ N w',
    ∀ fuel, (N ≤ fuel)%nat →
      gather (unreadable ["c"; "src"]) fuel ["out"] 2 tasks sample_world
      = (Ok [Returned false; Returned true; Returned true], w').
Proof.
  destruct (proj1 (faults_stay_with_their_file (unreadable ["c"; "src"]) ["out"] 2
                     [["c"; "src"]; ["a.txt"; "src"]; ["b.TXT"; "src"]]
                     sample_world ltac:(lia)))
    as (N & bs & w' & Hrun & Hlen & Hfaulted & Hclean).
  assert (Hout : isdir sample_world ["out"] = true) by reflexivity.
  assert (Hkeys : ∀ key, isfile sample_world (["out"] // key) = false).
  { intros key. unfold isfile, lookup_node, PurePath.joinpath.
    destruct (files sample_world !! [key; "out"]) as [[c|]|] eqn:E; [|done..].
    exfalso. revert E. unfold sample_world, sample_files. simpl.
    rewrite lookup_insert_ne by done.
    destruct (decide (key = "txt")) as [->|Hkey].
    - by rewrite lookup_insert_eq.
    - rewrite !lookup_insert_ne by congruence. by rewrite lookup_empty. }
  assert (H0 : bs !! 0%nat = Some false).
  { apply (Hfaulted 0%nat ["c"; "src"]); [done|]. left. by left. }
  assert (H1 : bs !! 1%nat = Some true).
  { apply (Hclean Hout Hkeys 1%nat ["a.txt"; "src"]); [done|reflexivity|].
    by split_and!. }
  assert (H2 : bs !! 2%nat = Some true).
  { apply (Hclean Hout Hkeys 2%nat ["b.TXT"; "src"]); [done|reflexivity|].
    by split_and!. }
  destruct bs as [|b0 [|b1 [|b2 [|b3 bs]]]]; try done.
  simpl in H0, H1, H2. injection H0 as ->. injection H1 as ->. injection H2 as ->.
  by exists N, w'.
Defined.

(** [out/txt/a.txt] is there, so the target of [src/a.txt] is
    [out/txt/a_1.txt]: when that does not open, the copy of [src/a.txt]
    fails and the others go on. *)
Example gather_with_unwritable_target :
  target_faulted (unwritable ["a_1.txt"; "txt"; "out"]) ["out"]
    ["a.txt"; "src"] sample_world
  ∧ (gather (unwritable ["a_1.txt"; "txt"; "out"]) 3 ["out"] 2
       [["c"; "src"]; ["a.txt"; "src"]; ["b.TXT"; "src"]] sample_world).1
    = Ok [Returned true; Returned false; Returned true].
Proof.
  split; [|vm_compute; done].
  exists 1%nat. split_and!; [reflexivity| |by left].
  intros [|i] Hi; [reflexivity|lia].
Qed.

(** A subfolder that cannot be made fails the files of its key, and those
    only. *)
Example gather_without_subfolder :
  (gather (mkdir_fails_at ["no_extension"; "out"]) 3 ["out"] 2
     [["c"; "src"]; [".bashrc"; "src"]; ["a.txt"; "src"]] sample_world).1
  = Ok [Returned false; Returned false; Returned true].
Proof. vm_compute. done. Qed.

(** * The log file among the files *)

Section LogGrows.

Variable fault : io_op → bool.

(** The log only grows. *)
Lemma copy_file_try_log fuel source_file output_folder w r w' :
  copy_file_try fault fuel source_file output_folder w = (r, w') →
  ∃ records, log w' = (log w ++ records)%list.
Proof.
  unfold copy_file_try. unfold bind at 1.
  destruct (makedirs fault _ w) as [r1 w1] eqn:Hmk.
  pose proof (makedirs_spec _ _ _ _ _ Hmk) as (Hl1 & _).
  assert (Hearly : ∃ records, log w1 = (log w ++ records)%list).
  { exists []. by rewrite app_nil_r. }
  destruct r1 as [[]|e| |]; try (intros [= <- <-]; exact Hearly).
  unfold bind at 1. unfold get_world at 1.
  destruct (resolve_target _ _ _ _ _ _) as [t|] eqn:Hres;
    [|intros [= <- <-]; exact Hearly].
  apply resolve_target_sound in Hres as (k & _ & Ht & Hfree & _).
  rewrite examined_candidate in Ht.
  unfold bind at 1.
  destruct (open_rb fault source_file w1) as [r2 w2] eqn:Hrb.
  apply open_rb_cases in Hrb as [-> [[-> Hfile]|[e ->]]];
    [|intros [= <- <-]; exact Hearly].
  apply isfile_lookup in Hfile as (c & Hc & Hsrc).
  unfold bind at 1.
  destruct (open_wb fault t w1) as [r3 w3] eqn:Hwb.
  apply open_wb_cases in Hwb as [(-> & -> & _ & _)|(e & -> & ->)];
    [|intros [= <- <-]; exact Hearly].
  pose proof (exists_false_lookup _ _ Hfree) as Hnone.
  assert (Hne : source_file ≠ t) by congruence.
  assert (Ht0 : t ≠ []) by (by rewrite Ht; destruct k).
  destruct t as [|s t]; [done|].
  unfold bind at 1.
  destruct (copy_loop fault fuel source_file (s :: t) 0 _) as [r4 w4] eqn:Hloop.
  assert (Hsrc2 : lookup_node (set_files (insert (s :: t) (File [])) w1)
                    source_file = Some (File c)).
  { rewrite lookup_node_insert_ne by done.
    destruct source_file; [done|]. by rewrite lookup_node_cons. }
  assert (Hdst2 : lookup_node (set_files (insert (s :: t) (File [])) w1) (s :: t)
                  = Some (File (take 0 c))).
  { by rewrite lookup_node_insert_eq. }
  pose proof (copy_loop_sound _ _ _ c Hne _ _ _ _ _ Hsrc2 Hdst2 Hloop)
    as (Hl4 & _).
  assert (Hlate : log w4 = log w) by (by rewrite Hl4).
  destruct r4 as [[]|e| |];
    try (intros [= <- <-]; exists []; by rewrite app_nil_r).
  unfold bind at 1.
  destruct (log_msg_spec INFO (MsgCopied source_file (s :: t)) w4)
    as (w5 & -> & _ & _ & Hl5).
  unfold ret. intros [= <- <-]. rewrite Hl5, Hlate. eauto.
Qed.

Lemma copy_file_log fuel source_file output_folder w r w' :
  copy_file fault fuel source_file output_folder w = (r, w') →
  ∃ records, log w' = (log w ++ records)%list.
Proof.
  unfold copy_file, try_except.
  destruct (copy_file_try fault fuel source_file output_folder w)
    as [r1 w1] eqn:Htry.
  apply copy_file_try_log in Htry as [rec Hrec].
  destruct r1 as [b|e| |]; try (intros [= <- <-]; by exists rec).
  unfold bind at 1.
  destruct (log_msg_spec ERROR (MsgCopyError source_file e) w1)
    as (w2 & -> & _ & _ & Hl2).
  unfold ret. intros [= <- <-]. rewrite Hl2, Hrec, <- app_assoc. eauto.
Qed.

Lemma gather_log fuel output_folder semaphore : ∀ tasks w r w',
  gather fault fuel output_folder semaphore tasks w = (r, w') →
  ∃ records, log w' = (log w ++ records)%list.
Proof.
  induction tasks as [|file_path tasks IH]; intros w r w'; cbn [gather].
  { intros [= <- <-]. exists []. by rewrite app_nil_r. }
  unfold copy_with_semaphore. destruct (semaphore <=? 0).
  { intros [= <- <-]. exists []. by rewrite app_nil_r. }
  destruct (copy_file fault fuel file_path output_folder w) as [r1 w1] eqn:Hcopy.
  apply copy_file_log in Hcopy as [rec1 H1].
  assert (Hgo : ∀ x : task_result,
    (let* rs := gather fault fuel output_folder semaphore tasks in
     ret (x :: rs)) w1 = (r, w') →
    ∃ records, log w' = (log w ++ records)%list).
  { intros x. unfold bind.
    destruct (gather fault fuel output_folder semaphore tasks w1)
      as [r2 w2] eqn:Hrest.
    apply IH in Hrest as [rec2 H2].
    destruct r2; intros [= <- <-]; exists (rec1 ++ rec2)%list;
      by rewrite H2, H1, app_assoc. }
  destruct r1 as [b|e| |]; [apply Hgo|apply Hgo| |];
    intros [= <- <-]; by exists rec1.
Qed.

End LogGrows.

Lemma log_bytes_app formatted (l1 l2 : list (level * message)) :
  log_bytes formatted (l1 ++ l2)
  = (log_bytes formatted l1 ++ log_bytes formatted l2)%list.
Proof. unfold log_bytes. by rewrite fmap_app, join_app. Qed.

(** A step that keeps every entry of [files] and only appends to the log
    keeps every file on the disk but the log file, which grows. *)
Lemma kept_on_disk formatted (w w' : World) (p : Path) (n : node) :
  files w ⊆ files w' →
  (∃ records, log w' = (log w ++ records)%list) →
  on_disk formatted w !! p = Some n →
  (p ≠ log_file → on_disk formatted w' !! p = Some n)
  ∧ ∃ records,
      log w' = (log w ++ records)%list
      ∧ on_disk formatted w' !! log_file
        = Some (File (log_bytes formatted (log w)
                      ++ log_bytes formatted records)).
Proof.
  intros Hsub [records Hlog] Hp. split.
  - intros Hne. unfold on_disk in *. rewrite lookup_insert_ne in Hp by done.
    rewrite lookup_insert_ne by done. by eapply lookup_weaken.
  - exists records. split; [done|]. unfold on_disk.
    by rewrite lookup_insert_eq, Hlog, log_bytes_app.
Qed.

(** C7, as the code has it.  Whatever [copy_file] does (return [True] or
    [False], or run out of fuel half way) and whatever fails, every file
    and directory that was on the disk is still there with the same
    content, the source file included, with one exception: the log file
    [file_sorter.log] of the working directory, which gets the lines of the
    records of the call added at its end.  The same holds for all the
    copies of a batch together. *)
Theorem copy_keeps_existing_files
    (fault : io_op → bool) (fuel : nat) (source_file output_folder : Path)
    (formatted : level * message → list Byte.byte)
    (w : World) (p : Path) (n : node) :
  on_disk formatted w !! p = Some n →
  ((p ≠ log_file →
    on_disk formatted
      (copy_file fault fuel source_file output_folder w).2 !! p = Some n)
   ∧ ∃ records,
       log (copy_file fault fuel source_file output_folder w).2
       = (log w ++ records)%list
       ∧ on_disk formatted
           (copy_file fault fuel source_file output_folder w).2 !! log_file
         = Some (File (log_bytes formatted (log w)
                       ++ log_bytes formatted records)))
  ∧ ∀ max_concurrent tasks,
      (p ≠ log_file →
       on_disk formatted
         (gather fault fuel output_folder max_concurrent tasks w).2 !! p
       = Some n)
      ∧ ∃ records,
          log (gather fault fuel output_folder max_concurrent tasks w).2
          = (log w ++ records)%list
          ∧ on_disk formatted
              (gather fault fuel output_folder max_concurrent tasks w).2
              !! log_file
            = Some (File (log_bytes formatted (log w)
                          ++ log_bytes formatted records)).
Proof.
  intros Hp. split.
  - destruct (copy_file fault fuel source_file output_folder w)
      as [r w'] eqn:Hcopy.
    apply kept_on_disk; [|by eapply copy_file_log|done].
    by apply copy_file_sound in Hcopy as (Hsub & _).
  - intros max_concurrent tasks.
    destruct (gather fault fuel output_folder max_concurrent tasks w)
      as [r w'] eqn:Hgather.
    apply kept_on_disk; [|by eapply gather_log|done].
    by apply gather_sound in Hgather as (Hsub & _).
Qed.

Lemma copy_keeps_existing_files_witness :
  let formatted := λ _ : level * message, [Byte.x3f] in
  let w' := (copy_file no_fault 3 ["a.txt"] ["sorted_files"] cwd_world).2 in
  on_disk formatted w' !! ["a.txt"] = Some (File bytes_abc)
  ∧ ∃ records,
      log w' = (log cwd_world ++ records)%list
      ∧ on_disk formatted w' !! log_file
        = Some (File (log_bytes formatted (log cwd_world)
                      ++ log_bytes formatted records)).
Proof.
  destruct (proj1 (copy_keeps_existing_files no_fault 3 ["a.txt"]
                     ["sorted_files"] (λ _, [Byte.x3f]) cwd_world ["a.txt"]
                     (File bytes_abc) ltac:(reflexivity)))
    as [Hkept Hlog].
  split; [by apply Hkept|exact Hlog].
Defined.

(** C7 as stated fails.  With the working directory as the source folder,
    as in line 181, [file_sorter.log] is a file below the source folder,
    and the copy of [a.txt] adds the line of line 109 to it. *)
Lemma log_file_changes_counterexample :
  let w := cwd_world in
  let r := copy_file no_fault 3 ["a.txt"] ["sorted_files"] w in
  r.1 = Ok true
  ∧ [] `suffix_of` log_file ∧ log_file ≠ []
  ∧ ∀ formatted,
      on_disk formatted w !! log_file = Some (File [])
      ∧ on_disk formatted r.2 !! log_file
        = Some (File (formatted (INFO, MsgCopied ["a.txt"]
                                         ["a.txt"; "txt"; "sorted_files"])
                      ++ [Byte.x0a]))
      ∧ on_disk formatted r.2 !! log_file ≠ on_disk formatted w !! log_file.
Proof.
  assert (Hlog : log (copy_file no_fault 3 ["a.txt"] ["sorted_files"]
                        cwd_world).2
                 = [(INFO, MsgCopied ["a.txt"] ["a.txt"; "txt"; "sorted_files"])])
    by (vm_compute; reflexivity).
  split_and!.
  - vm_compute. reflexivity.
  - by exists log_file.
  - done.
  - intros formatted. unfold on_disk. rewrite !lookup_insert_eq, Hlog.
    split_and!; [done| |].
    + unfold log_bytes, log_line. simpl. by rewrite app_nil_r.
    + unfold log_bytes, log_line. simpl. rewrite app_nil_r.
      intros [= H]. by destruct (formatted _).
Qed.

(** * Two copies of one name in flight *)

(** C1.  What the program does with two files of one name when the limit
    lets two copies be in flight.  The interleaving in which both tasks
    hold a permit before either opens its source is enabled with a limit of
    2 and not with a limit of 1.  When both calls of [copy_file] have left
    the [while] of lines 97-101 before either opens its target (line 105),
    both have chosen [out/txt/x.txt]; both return [True]; the target holds
    the bytes of [src/b/x.txt], and the bytes of [src/a/x.txt] are in no
    file but [src/a/x.txt] itself. *)
Theorem same_name_copies_lose_content :
  let first := ["x.txt"; "a"; "src"] in
  let second := ["x.txt"; "b"; "src"] in
  let r := raced_copies no_fault 3 first second ["out"] twin_world in
  is_Some (Sched.run (Sched.init 2 [first; second]) race_schedule)
  ∧ Sched.run (Sched.init 1 [first; second]) race_schedule = None
  ∧ lookup_node twin_world first = Some (File [Byte.x61])
  ∧ lookup_node twin_world second = Some (File [Byte.x62])
  ∧ r.1 = Ok (true, true)
  ∧ files r.2 !! ["x.txt"; "txt"; "out"] = Some (File [Byte.x62])
  ∧ ∀ p, files r.2 !! p = Some (File [Byte.x61]) → p = first.
Proof.
  split_and!; try (vm_compute; done).
  - by eexists.
  - intros p Hp. apply elem_of_map_to_list in Hp.
    set (l := map_to_list _) in Hp. vm_compute in l. subst l.
    repeat (apply elem_of_cons in Hp as [Hp|Hp]; [by injection Hp|]).
    by apply elem_of_nil in Hp.
Qed.
